(** * Permission inheritance of the collection tree, and asset saving

    A shallow embedding of [kpi/models/collection.py] and of [Asset.save]
    from [kpi/models/asset.py].  The code is Python 2 on top of the Django
    ORM: every method reads and writes database tables, and may raise.  The
    tables are lists of rows, the methods are written in a small monad that
    threads the database and lets an exception leave the writes already
    done in place (Django's autocommit: the methods open no transaction). *)

From stdpp Require Import base decidable option list gmap sets strings.
From Stdlib Require Import ZArith Lia.

Set Warnings "-register-all".
Open Scope string_scope.
Open Scope list_scope.

(** ** The database and the monad of ORM calls *)

Module ORM.

(** [django_content_type]: the (app, model) pair a generic foreign key
    points into. *)
Record ContentType := { app_label : string; model : string }.

#[global] Instance ContentType_eq_dec : EqDecision ContentType.
Proof. solve_decision. Defined.

(** [auth_permission]: Django's table of permission kinds. *)
Record Permission := {
  perm_pk : nat;
  perm_content_type : ContentType;
  codename : string }.

(** [ObjectPermission]: one grant or denial of a permission kind to a
    user on an object ([content_object] is the generic foreign key
    [object_ct], [object_id]). *)
Record ObjectPermission := {
  object_ct : ContentType;
  object_id : nat;
  user_id : nat;
  permission_id : nat;
  deny : bool;
  inherited : bool }.

#[global] Instance ObjectPermission_eq_dec : EqDecision ObjectPermission.
Proof. solve_decision. Defined.

(** A row of the collection table ([parent] and [owner] hold the keys of
    the rows they reference). *)
Record Collection := {
  pk : nat;
  name : string;
  parent : option nat;
  owner : nat;
  editors_can_change_permissions : bool;
  uid : string }.

(** A row of the survey asset table, as far as the collection code uses
    it: the reverse relation [survey_assets]. *)
Record SurveyAsset := { sa_pk : nat; sa_collection : option nat }.

(** The value of a JSON field. *)
Inductive json :=
| JNull
| JBool (b : bool)
| JInt (n : Z)
| JStr (s : string)
| JList (l : list json)
| JDict (items : list (string * json)).

(** A row of the asset table ([asset_parent] and [asset_owner] hold
    keys; [content] is a nullable JSON field, [summary] a dict). *)
Record Asset := {
  asset_pk : nat;
  asset_name : string;
  content : option json;
  summary : gmap string json;
  report_styles : json;
  asset_type : string;
  asset_parent : option nat;
  asset_owner : option nat;
  asset_uid : string;
  _deployment_data : json }.

(** A row of the asset version table. *)
Record AssetVersion := {
  version_asset : nat;
  version_name : string;
  version_content : option json;
  version_deployment_data : json;
  deployed : bool }.

Record DB := {
  auth_permission : list Permission;
  kpi_collection : list Collection;
  kpi_surveyasset : list SurveyAsset;
  kpi_objectpermission : list ObjectPermission;
  kpi_asset : list Asset;
  kpi_assetversion : list AssetVersion }.

Definition with_objectpermission (d : DB) (rows : list ObjectPermission) : DB :=
  {| auth_permission := auth_permission d;
     kpi_collection := kpi_collection d;
     kpi_surveyasset := kpi_surveyasset d;
     kpi_objectpermission := rows;
     kpi_asset := kpi_asset d;
     kpi_assetversion := kpi_assetversion d |}.

Definition with_collection (d : DB) (rows : list Collection) : DB :=
  {| auth_permission := auth_permission d;
     kpi_collection := rows;
     kpi_surveyasset := kpi_surveyasset d;
     kpi_objectpermission := kpi_objectpermission d;
     kpi_asset := kpi_asset d;
     kpi_assetversion := kpi_assetversion d |}.

Definition with_asset (d : DB) (rows : list Asset) : DB :=
  {| auth_permission := auth_permission d;
     kpi_collection := kpi_collection d;
     kpi_surveyasset := kpi_surveyasset d;
     kpi_objectpermission := kpi_objectpermission d;
     kpi_asset := rows;
     kpi_assetversion := kpi_assetversion d |}.

Definition with_assetversion (d : DB) (rows : list AssetVersion) : DB :=
  {| auth_permission := auth_permission d;
     kpi_collection := kpi_collection d;
     kpi_surveyasset := kpi_surveyasset d;
     kpi_objectpermission := kpi_objectpermission d;
     kpi_asset := kpi_asset d;
     kpi_assetversion := rows |}.

(** The store behind the ORM.  [write_budget] is the number of writes the
    store still accepts before it fails ([None]: it never fails). *)
Record World := { db : DB; write_budget : option nat }.

Definition reliable (d : DB) : World := {| db := d; write_budget := None |}.

Inductive Exception :=
| NameError (name : string)
| DoesNotExist
| MultipleObjectsReturned
| ValidationError
| ValueError
| KeyError
| TypeError
| AttributeError
| DatabaseError.

Inductive outcome (A : Type) :=
| Return (a : A)
| Raise (e : Exception).
Arguments Return {A} a.
Arguments Raise {A} e.

(** A method call: it ends by returning or raising, and in both cases
    leaves a store behind. *)
Definition M (A : Type) : Type := World → outcome A * World.

Definition ret {A} (a : A) : M A := λ w, (Return a, w).

Definition bind {A B} (m : M A) (k : A → M B) : M B :=
  λ w, match m w with
       | (Return a, w') => k a w'
       | (Raise e, w') => (Raise e, w')
       end.

Definition raise {A} (e : Exception) : M A := λ w, (Raise e, w).

Definition lift {A} (o : outcome A) : M A := λ w, (o, w).

Definition read : M DB := λ w, (Return (db w), w).

(** One write to the store, committed at once. *)
Definition write (f : DB → DB) : M unit :=
  λ w, match write_budget w with
       | None => (Return tt, {| db := f (db w); write_budget := None |})
       | Some (S n) => (Return tt, {| db := f (db w); write_budget := Some n |})
       | Some O => (Raise DatabaseError, w)
       end.

(** [for x in l: body(x)] *)
Fixpoint for_each {A} (l : list A) (body : A → M unit) : M unit :=
  match l with
  | [] => ret tt
  | x :: l' => bind (body x) (λ _, for_each l' body)
  end.

(** Field lookups of [filter(...)], those the code uses. *)
Inductive lookup :=
| user_is (u : nat)
| permission_id_is (p : nat)
| permission__codename_is (c : string)
| deny_is (b : bool)
| inherited_is (b : bool).

Definition lookup_holds (perms : list Permission) (r : ObjectPermission)
    (k : lookup) : bool :=
  match k with
  | user_is u => bool_decide (user_id r = u)
  | permission_id_is p => bool_decide (permission_id r = p)
  | permission__codename_is c =>
      existsb (λ p, bool_decide (perm_pk p = permission_id r)
                    && bool_decide (codename p = c)) perms
  | deny_is b => bool_decide (deny r = b)
  | inherited_is b => bool_decide (inherited r = b)
  end.

(** A lazy query set over the object permission table: the object whose
    rows it selects and the lookups chained so far. *)
Record QuerySet := {
  qs_ct : ContentType;
  qs_id : nat;
  qs_lookups : list lookup }.

Definition selects (perms : list Permission) (q : QuerySet)
    (r : ObjectPermission) : bool :=
  bool_decide (object_ct r = qs_ct q) && bool_decide (object_id r = qs_id q)
  && forallb (lookup_holds perms r) (qs_lookups q).

(** [ObjectPermission.objects.filter_for_object(obj, ...)] *)
Definition filter_for_object (ct : ContentType) (id : nat)
    (kwargs : list lookup) : QuerySet :=
  {| qs_ct := ct; qs_id := id; qs_lookups := kwargs |}.

(** [queryset.filter(...)], chained *)
Definition qs_filter (q : QuerySet) (kwargs : list lookup) : QuerySet :=
  {| qs_ct := qs_ct q; qs_id := qs_id q;
     qs_lookups := qs_lookups q ++ kwargs |}.

Definition rows_of (d : DB) (q : QuerySet) : list ObjectPermission :=
  List.filter (selects (auth_permission d) q) (kpi_objectpermission d).

Definition rows_without (d : DB) (q : QuerySet) : list ObjectPermission :=
  List.filter (λ r, negb (selects (auth_permission d) q r))
              (kpi_objectpermission d).

(** Evaluating a query set. *)
Definition qs_all (q : QuerySet) : M (list ObjectPermission) :=
  bind read (λ d, ret (rows_of d q)).

(** [queryset.values_list('user_id', 'permission_id')] *)
Definition values_list (q : QuerySet) : M (list (nat * nat)) :=
  bind (qs_all q) (λ rows, ret (map (λ r, (user_id r, permission_id r)) rows)).

(** [queryset.delete()] *)
Definition qs_delete (q : QuerySet) : M unit :=
  write (λ d, with_objectpermission d (rows_without d q)).

(** [ObjectPermission.objects.create(...)] *)
Definition objects_create (r : ObjectPermission) : M unit :=
  write (λ d, with_objectpermission d (kpi_objectpermission d ++ [r])).

(** [ObjectPermission.objects.get_or_create_for_object(obj, ...)]:
    the row the lookups select, created from them (with the defaults of
    the other fields) when there is none. *)
Definition get_or_create (q : QuerySet) (r : ObjectPermission) : M unit :=
  bind (qs_all q) (λ rows,
    match rows with
    | [] => objects_create r
    | [_] => ret tt
    | _ => raise MultipleObjectsReturned
    end).

(** [Permission.objects.filter(content_type=ct)] *)
Definition permissions_of (ct : ContentType) : M (list Permission) :=
  bind read (λ d,
    ret (List.filter (λ p, bool_decide (perm_content_type p = ct))
                     (auth_permission d))).

(** [Permission.objects.get(content_type__app_label=a, codename=c)] *)
Definition permission_get (a c : string) : M Permission :=
  bind read (λ d,
    match List.filter (λ p, bool_decide (app_label (perm_content_type p) = a)
                            && bool_decide (codename p = c))
                      (auth_permission d) with
    | [] => raise DoesNotExist
    | [p] => ret p
    | _ => raise MultipleObjectsReturned
    end).

End ORM.

Export ORM.

#[global] Instance M_ret : MRet M := @ret.
#[global] Instance M_bind : MBind M := λ A B k m, bind m k.

(** ** [kpi/models/collection.py] *)

Module CollectionModel.

Definition collection_ct : ContentType :=
  {| app_label := "kpi"; model := "collection" |}.

(** The rows of the reverse relation [self.survey_assets.all()]. *)
Definition survey_assets (self : Collection) : M (list SurveyAsset) :=
  d ← read;
  ret (List.filter (λ a, bool_decide (sa_collection a = Some (pk self)))
                   (kpi_surveyasset d)).

(** [self.get_descendants()] of the tree library: the rows below [self]
    in tree order, a parent before its children. *)
Fixpoint descendants_within (fuel : nat) (rows : list Collection)
    (p : nat) : list Collection :=
  match fuel with
  | O => []
  | S n =>
      flat_map (λ c, c :: descendants_within n rows (pk c))
        (List.filter (λ c, bool_decide (parent c = Some p)) rows)
  end.

Definition get_descendants (self : Collection) : M (list Collection) :=
  d ← read;
  ret (descendants_within (length (kpi_collection d)) (kpi_collection d)
                          (pk self)).

(** [Collection._effective_perms(self, ...)], on the collection
    with key [self_pk]. *)
Definition _effective_perms (self_pk : nat) (kwargs : list lookup)
    : M (gset (nat * nat)) :=
  grant_perms ← values_list
    (filter_for_object collection_ct self_pk (deny_is false :: kwargs));
  deny_perms ← values_list
    (filter_for_object collection_ct self_pk (deny_is true :: kwargs));
  ret ((list_to_set grant_perms : gset (nat * nat)) ∖ list_to_set deny_perms).

(** The row [ObjectPermission.objects.create(content_object=self,
    user_id=..., permission_id=..., inherited=True)] inserts; [deny] takes
    its default. *)
Definition inherited_grant (self : Collection) (up : nat * nat)
    : ObjectPermission :=
  {| object_ct := collection_ct; object_id := pk self;
     user_id := up.1; permission_id := up.2;
     deny := false; inherited := true |}.

(** [Collection._recalculate_inherited_perms(self)] *)
Definition _recalculate_inherited_perms (self : Collection) : M unit :=
  qs_delete (filter_for_object collection_ct (pk self) [inherited_is true]);;
  match parent self with
  | None => ret tt
  | Some parent_pk =>
      perms ← _effective_perms parent_pk [];
      for_each (elements perms) (λ up, objects_create (inherited_grant self up));;
      owner_perms ← permissions_of collection_ct;
      for_each owner_perms (λ perm,
        get_or_create
          (filter_for_object collection_ct (pk self)
             [user_is (owner self); permission_id_is (perm_pk perm);
              inherited_is true])
          (inherited_grant self (owner self, perm_pk perm)))
  end.

(** The two loops that end [save], [assign_perm] and [remove_perm].  The
    loop variable is [survey_asset]; the body calls the method on
    [suvey_asset], a name bound nowhere. *)
Definition recalculate_survey_assets (assets : list SurveyAsset) : M unit :=
  for_each assets (λ survey_asset, raise (NameError "suvey_asset")).

Definition recalculate_descendants (self : Collection) : M unit :=
  descendants ← get_descendants self;
  for_each descendants (λ descendant,
    _recalculate_inherited_perms descendant;;
    assets ← survey_assets descendant;
    recalculate_survey_assets assets).

Section WithPermParse.

(** [perm_parse(perm, obj)] of the object permission module: the app
    label and the codename a permission string names for [obj]. *)
Variable perm_parse : string → ContentType → outcome (string * string).

(** [Collection.assign_perm(self, user_obj, perm, deny=False)] *)
Definition assign_perm (self : Collection) (user_obj : nat)
    (perm : string) (deny : bool) : M unit :=
  '(app_label, codename) ← lift (perm_parse perm collection_ct);
  perm_model ← permission_get app_label codename;
  let existing_perms :=
    filter_for_object collection_ct (pk self) [user_is user_obj] in
  identical ← qs_all (qs_filter existing_perms
    [inherited_is false; permission_id_is (perm_pk perm_model);
     deny_is deny]);
  match identical with
  | _ :: _ => ret tt
  | [] =>
      qs_delete (qs_filter existing_perms
        [user_is user_obj; permission_id_is (perm_pk perm_model);
         deny_is (negb deny); inherited_is false]);;
      objects_create
        {| object_ct := collection_ct; object_id := pk self;
           user_id := user_obj; permission_id := perm_pk perm_model;
           deny := deny; inherited := false |};;
      assets ← survey_assets self;
      recalculate_survey_assets assets;;
      recalculate_descendants self
  end.

(** [Collection.remove_perm(self, user_obj, perm, deny=False)] *)
Definition remove_perm (self : Collection) (user_obj : nat)
    (perm : string) (deny : bool) : M unit :=
  '(app_label, codename) ← lift (perm_parse perm collection_ct);
  qs_delete (filter_for_object collection_ct (pk self)
    [user_is user_obj; permission__codename_is codename;
     deny_is deny; inherited_is false]);;
  assets ← survey_assets self;
  recalculate_survey_assets assets;;
  recalculate_descendants self.

(** [Collection.has_perm(self, user_obj, perm)] *)
Definition has_perm (self : Collection) (user_obj : nat) (perm : string)
    : M bool :=
  '(app_label, codename) ← lift (perm_parse perm collection_ct);
  perms ← _effective_perms (pk self)
    [user_is user_obj; permission__codename_is codename];
  ret (bool_decide (size perms = 1)).

End WithPermParse.

(** [super(Collection, self).save()]: the row is inserted, or replaces
    the row of the same key. *)
Definition model_save (self : Collection) : M unit :=
  write (λ d,
    with_collection d
      (if existsb (λ c, bool_decide (pk c = pk self)) (kpi_collection d)
       then map (λ c, if bool_decide (pk c = pk self) then self else c)
                (kpi_collection d)
       else kpi_collection d ++ [self])).

Definition with_uid (self : Collection) (u : string) : Collection :=
  {| pk := pk self; name := name self; parent := parent self;
     owner := owner self;
     editors_can_change_permissions := editors_can_change_permissions self;
     uid := u |}.

(** [Collection.save(self)]; [generated_uid] is what [_generate_uid]
    draws.  The updated instance is returned. *)
Definition save (generated_uid : string) (self : Collection) : M Collection :=
  let self := if bool_decide (uid self = "")
              then with_uid self generated_uid else self in
  model_save self;;
  _recalculate_inherited_perms self;;
  assets ← survey_assets self;
  recalculate_survey_assets assets;;
  recalculate_descendants self;;
  ret self.

End CollectionModel.

Import CollectionModel.


(** ** [Asset.save] of [kpi/models/asset.py] *)

Module AssetModel.

(** [d.get(key)] on a dict: [None] when the key is absent. *)
Definition dict_get (d : gmap string json) (key : string) : json :=
  default JNull (d !! key).

(** [v == n] and [v > n] of Python 2 for an integer [n].  A boolean is
    the integer 0 or 1; [None] is smaller than every other value and a
    number is smaller than a value of any other type. *)
Definition py_eq_int (v : json) (n : Z) : bool :=
  match v with
  | JInt m => bool_decide (m = n)
  | JBool b => bool_decide ((if b then 1 else 0)%Z = n)
  | _ => false
  end.

Definition py_gt_int (v : json) (n : Z) : bool :=
  match v with
  | JNull => false
  | JInt m => bool_decide (n < m)%Z
  | JBool b => bool_decide (n < (if b then 1 else 0))%Z
  | JStr _ | JList _ | JDict _ => true
  end.

Definition with_content (self : Asset) (n : string) (c : option json) : Asset :=
  {| asset_pk := asset_pk self; asset_name := n; content := c;
     summary := summary self; report_styles := report_styles self;
     asset_type := asset_type self; asset_parent := asset_parent self;
     asset_owner := asset_owner self; asset_uid := asset_uid self;
     _deployment_data := _deployment_data self |}.

Definition with_summary (self : Asset) (s : gmap string json) : Asset :=
  {| asset_pk := asset_pk self; asset_name := asset_name self;
     content := content self;
     summary := s; report_styles := report_styles self;
     asset_type := asset_type self; asset_parent := asset_parent self;
     asset_owner := asset_owner self; asset_uid := asset_uid self;
     _deployment_data := _deployment_data self |}.

Definition with_asset_type (self : Asset) (t : string) : Asset :=
  {| asset_pk := asset_pk self; asset_name := asset_name self;
     content := content self;
     summary := summary self; report_styles := report_styles self;
     asset_type := t; asset_parent := asset_parent self;
     asset_owner := asset_owner self; asset_uid := asset_uid self;
     _deployment_data := _deployment_data self |}.

Definition with_report_styles (self : Asset) (r : json) (c : option json) : Asset :=
  {| asset_pk := asset_pk self; asset_name := asset_name self;
     content := c;
     summary := summary self; report_styles := r;
     asset_type := asset_type self; asset_parent := asset_parent self;
     asset_owner := asset_owner self; asset_uid := asset_uid self;
     _deployment_data := _deployment_data self |}.

Section WithContentTools.

(** The content tooling [Asset.save] calls, which lives outside the
    model layer (the standardising, autonaming and hashing utilities
    and the content analyzer).
    - [adjust_content]: what [_adjust_content_on_save] makes of the
      asset's type, name and content: the new name and content (it
      assigns no other field), or the exception it raises;
    - [analyzer_summary]: [AssetContentAnalyzer(...).summary];
    - [populated_report_styles]: what [_populate_report_styles] makes
      of the uid, report styles and content: the new report styles and
      content. *)
Variable adjust_content : string → string → json → outcome (string * json).
Variable analyzer_summary : json → outcome (gmap string json).
Variable populated_report_styles : string → json → json → outcome (json * json).

(** [Asset._adjust_content_on_save(self)] *)
Definition _adjust_content_on_save (self : Asset) : M Asset :=
  match content self with
  | None => raise TypeError
  | Some c =>
      '(n, c') ← lift (adjust_content (asset_type self) (asset_name self) c);
      mret (with_content self n (Some c'))
  end.

(** [Asset._populate_summary(self)] *)
Definition _populate_summary (self : Asset) : M Asset :=
  match content self with
  | None =>
      mret (with_summary (with_content self (asset_name self) (Some (JDict []))) ∅)
  | Some c =>
      s ← lift (analyzer_summary c);
      mret (with_summary self s)
  end.

(** [Asset._populate_report_styles(self)] *)
Definition _populate_report_styles (self : Asset) : M Asset :=
  match content self with
  | None => raise AttributeError
  | Some c =>
      '(r, c') ← lift (populated_report_styles (asset_uid self)
                         (report_styles self) c);
      mret (with_report_styles self r (Some c'))
  end.

(** [super(Asset, self).save()]: the row is inserted, or replaces the
    row of the same key. *)
Definition model_save (self : Asset) : M unit :=
  write (λ d,
    with_asset d
      (if existsb (λ a, bool_decide (asset_pk a = asset_pk self)) (kpi_asset d)
       then map (λ a, if bool_decide (asset_pk a = asset_pk self)
                      then self else a) (kpi_asset d)
       else kpi_asset d ++ [self])).

(** [self.asset_versions.create(...)] *)
Definition asset_versions_create (v : AssetVersion) : M unit :=
  write (λ d, with_assetversion d (kpi_assetversion d ++ [v])).

(** The part of [save] that infers the asset type. *)
Definition infer_asset_type (self : Asset) : Asset :=
  if bool_decide (asset_type self ∈ ["question"; "block"]) then
    let row_count := dict_get (summary self) "row_count" in
    if py_eq_int row_count 1 then with_asset_type self "question"
    else if py_gt_int row_count 1 then with_asset_type self "block"
    else self
  else self.

(** [Asset.save(self, adjust_content=True, create_version=True)]; the
    updated instance is returned. *)
Definition save (adjust_content_kw create_version_kw : bool) (self : Asset)
    : M Asset :=
  let self := match content self with
              | None => with_content self (asset_name self) (Some (JDict []))
              | Some _ => self
              end in
  self ← (if adjust_content_kw then _adjust_content_on_save self
          else mret self);
  self ← _populate_summary self;
  let self := infer_asset_type self in
  self ← _populate_report_styles self;
  let _create_version := create_version_kw in
  model_save self;;
  (if _create_version then
     asset_versions_create
       {| version_asset := asset_pk self;
          version_name := asset_name self;
          version_content := content self;
          version_deployment_data := _deployment_data self;
          deployed := false |}
   else mret tt);;
  mret self.

End WithContentTools.

End AssetModel.

Import CollectionModel.

(** ** The signal receiver of [kpi/models/asset.py] *)

Module AssetSignals.

Definition asset_ct : ContentType :=
  {| app_label := "kpi"; model := "asset" |}.

(** [post_delete_asset(sender, instance)], the receiver of the
    [post_delete] signal of assets. *)
Definition post_delete_asset (instance : Asset) : M unit :=
  qs_delete (filter_for_object asset_ct (asset_pk instance) []).

End AssetSignals.

(** ** Tags: [TagStringMixin] and [KpiTaggableManager] of [kpi/models/asset.py] *)

Import Stdlib.Strings.Ascii.

Module Tags.

(** [value.split(',')]: the pieces between the separators; the empty
    string gives one empty piece. *)
Fixpoint split (sep : Ascii.ascii) (value : string) : list string :=
  match value with
  | EmptyString => [""]
  | String a rest =>
      if bool_decide (a = sep) then "" :: split sep rest
      else match split sep rest with
           | piece :: pieces => String a piece :: pieces
           | [] => [String a ""]
           end
  end.

(** [TagStringMixin.tag_string], the getter, on the names of the tags. *)
Definition tag_string (names : list string) : string :=
  String.concat "," names.

(** [TagStringMixin.tag_string], the setter: the tags handed to
    [self.tags.set]. *)
Definition intended_tags (value : string) : list string :=
  split ","%char value.

(** The characters [str.strip()] removes: space, tab, line feed,
    vertical tab, form feed, carriage return. *)
Definition is_space (a : Ascii.ascii) : bool :=
  let n := Ascii.nat_of_ascii a in
  Nat.eqb n 32 || (Nat.leb 9 n && Nat.leb n 13).

Fixpoint lstrip (s : string) : string :=
  match s with
  | EmptyString => ""
  | String a rest => if is_space a then lstrip rest else s
  end.

Fixpoint rstrip (s : string) : string :=
  match s with
  | EmptyString => ""
  | String a rest =>
      match rstrip rest with
      | EmptyString => if is_space a then "" else String a ""
      | kept => String a kept
      end
  end.

(** [t.strip()] *)
Definition strip (s : string) : string := rstrip (lstrip s).

(** [t.replace(' ', '-')] *)
Fixpoint replace_spaces (s : string) : string :=
  match s with
  | EmptyString => ""
  | String a rest =>
      String (if bool_decide (a = " "%char) then "-"%char else a)
             (replace_spaces rest)
  end.

(** What [add] is given: names, or tag objects. *)
Inductive tag :=
| TagName (name : string)
| TagObject (tag_pk : nat).

(** [KpiTaggableManager.add(self, *tags)]: the list [tags_out] it hands
    to the [add] of the tagging library. *)
Definition tags_out (tags : list tag) : list tag :=
  map (λ t, match t with
            | TagName name => TagName (replace_spaces (strip name))
            | TagObject _ => t
            end) tags.

End Tags.

(** ** Python values: what the content utilities do with JSON *)

#[global] Instance outcome_ret : MRet outcome := @Return.
#[global] Instance outcome_bind : MBind outcome :=
  λ A B k m, match m with Return a => k a | Raise e => Raise e end.

Module Py.

(** A dict is kept as the list of its items; a key is looked up from the
    front. *)
Fixpoint dict_lookup (key : string) (items : list (string * json))
    : option json :=
  match items with
  | [] => None
  | (k, v) :: rest => if bool_decide (k = key) then Some v
                      else dict_lookup key rest
  end.

(** [d[key] = v]: the item of the key is replaced where it stands, a new
    key is added at the end. *)
Fixpoint dict_store (key : string) (v : json) (items : list (string * json))
    : list (string * json) :=
  match items with
  | [] => [(key, v)]
  | (k, x) :: rest => if bool_decide (k = key) then (k, v) :: rest
                      else (k, x) :: dict_store key v rest
  end.

(** [del d[key]] *)
Fixpoint dict_remove (key : string) (items : list (string * json))
    : list (string * json) :=
  match items with
  | [] => []
  | (k, x) :: rest => if bool_decide (k = key) then dict_remove key rest
                      else (k, x) :: dict_remove key rest
  end.

(** [sub in s] on strings. *)
Fixpoint starts_with (sub s : string) : bool :=
  match sub, s with
  | EmptyString, _ => true
  | String a sub', String b s' => bool_decide (a = b) && starts_with sub' s'
  | String _ _, EmptyString => false
  end.

Fixpoint contains (sub s : string) : bool :=
  starts_with sub s
  || match s with
     | EmptyString => false
     | String _ s' => contains sub s'
     end.

(** [a == b].  A boolean equals the integer 0 or 1; two dicts are equal
    when they have the same keys with equal values. *)
Fixpoint py_eq (a b : json) {struct a} : bool :=
  match a, b with
  | JNull, JNull => true
  | JBool x, JBool y => bool_decide (x = y)
  | JBool x, JInt n | JInt n, JBool x =>
      bool_decide (n = if x then 1%Z else 0%Z)
  | JInt n, JInt m => bool_decide (n = m)
  | JStr s, JStr t => bool_decide (s = t)
  | JList l, JList l' =>
      (fix all2 (l : list json) (l' : list json) : bool :=
         match l, l' with
         | [], [] => true
         | x :: l, y :: l' => py_eq x y && all2 l l'
         | _, _ => false
         end) l l'
  | JDict items, JDict items' =>
      bool_decide (length items = length items')
      && (fix all (items : list (string * json)) : bool :=
            match items with
            | [] => true
            | (k, v) :: rest =>
                match dict_lookup k items' with
                | Some v' => py_eq v v'
                | None => false
                end && all rest
            end) items
  | _, _ => false
  end.

(** [bool(v)] *)
Definition truthy (v : json) : bool :=
  match v with
  | JNull => false
  | JBool b => b
  | JInt n => negb (bool_decide (n = 0%Z))
  | JStr s => negb (bool_decide (s = ""))
  | JList l => negb (bool_decide (l = []))
  | JDict items => negb (bool_decide (items = []))
  end.

(** [key in v] for a string [key]: a key of a dict, an element of a list,
    a part of a string; other values are not iterable. *)
Definition has_key (key : string) (v : json) : outcome bool :=
  match v with
  | JDict items => Return (bool_decide (is_Some (dict_lookup key items)))
  | JList l => Return (existsb (py_eq (JStr key)) l)
  | JStr s => Return (contains key s)
  | _ => Raise TypeError
  end.

(** [x in v] for any [x]. *)
Definition py_in (x v : json) : outcome bool :=
  match v with
  | JList l => Return (existsb (py_eq x) l)
  | JDict items =>
      match x with
      | JStr key => Return (bool_decide (is_Some (dict_lookup key items)))
      | JList _ | JDict _ => Raise TypeError
      | _ => Return false
      end
  | JStr s =>
      match x with
      | JStr sub => Return (contains sub s)
      | _ => Raise TypeError
      end
  | _ => Raise TypeError
  end.

(** [v[key]] for a string [key]. *)
Definition getitem (key : string) (v : json) : outcome json :=
  match v with
  | JDict items =>
      match dict_lookup key items with
      | Some x => Return x
      | None => Raise KeyError
      end
  | _ => Raise TypeError
  end.

(** [v[key] = x] for a string [key]. *)
Definition setitem (key : string) (x : json) (v : json) : outcome json :=
  match v with
  | JDict items => Return (JDict (dict_store key x items))
  | _ => Raise TypeError
  end.

(** [v.get(key, default)] *)
Definition get (key : string) (dflt : json) (v : json) : outcome json :=
  match v with
  | JDict items => Return (default dflt (dict_lookup key items))
  | _ => Raise AttributeError
  end.

(** [for x in v]: the elements of a list, the keys of a dict, the
    characters of a string. *)
Definition iterate (v : json) : outcome (list json) :=
  match v with
  | JList l => Return l
  | JDict items => Return (map (λ kv, JStr kv.1) items)
  | JStr s => Return (map (λ a, JStr (String a "")) (String.list_ascii_of_string s))
  | _ => Raise TypeError
  end.

(** [for x in l: ...], threading a value, stopping at the first
    exception. *)
Fixpoint fold_rows {A S} (step : S → A → outcome (S * json)) (s : S)
    (l : list A) : outcome (S * list json) :=
  match l with
  | [] => Return (s, [])
  | x :: rest =>
      '(s1, y) ← step s x;
      '(s2, ys) ← fold_rows step s1 rest;
      Return (s2, y :: ys)
  end.

End Py.

(** ** [FormpackXLSFormUtils] of [kpi/models/asset.py]

    The methods change the content in place; here each gives the content
    it leaves when it returns. *)

Module FormpackXLSFormUtils.

Import Py.

(** [pop_setting(self, content, key[, default])]: the value returned,
    and the content. *)
Definition pop_setting (content : json) (key : string) (dflt : option json)
    : outcome (json * json) :=
  present ← has_key "settings" content;
  if (present : bool) then
    settings ← getitem "settings" content;
    match settings with
    | JDict items =>
        match dict_lookup key items with
        | Some v =>
            content' ← setitem "settings" (JDict (dict_remove key items))
                               content;
            Return (v, content')
        | None =>
            match dflt with
            | Some v => Return (v, content)
            | None => Raise KeyError
            end
        end
    | JList _ => Raise TypeError
    | _ => Raise AttributeError
    end
  else Return (JNull, content).

(** [l.index(None)] *)
Fixpoint index_of_none (l : list json) : option nat :=
  match l with
  | [] => None
  | JNull :: _ => Some 0
  | _ :: rest => S <$> index_of_none rest
  end.

(** [_rename_null_translation(self, content, new_name)] *)
Definition _rename_null_translation (content new_name : json)
    : outcome json :=
  translations ← getitem "translations" content;
  taken ← py_in new_name translations;
  if (taken : bool) then Raise ValueError
  else
    match translations with
    | JList l =>
        match index_of_none l with
        | Some _null_index =>
            setitem "translations" (JList (<[_null_index := new_name]> l))
                    content
        | None => Raise ValueError
        end
    | JDict _ => Raise AttributeError
    | _ => Raise TypeError
    end.

(** [[row for row in arr if required_key in row]] *)
Fixpoint rows_with (required_key : string) (arr : list json)
    : outcome (list json) :=
  match arr with
  | [] => Return []
  | row :: rest =>
      keep ← has_key required_key row;
      kept ← rows_with required_key rest;
      Return (if (keep : bool) then row :: kept else kept)
  end.

(** One round of the loop of [_strip_empty_rows]. *)
Definition strip_sheet (content : json) (sheet : string * string)
    : outcome json :=
  match content with
  | JDict items =>
      match dict_lookup sheet.1 items with
      | None => Return content
      | Some (JList arr) =>
          kept ← rows_with sheet.2 arr;
          Return (JDict (dict_store sheet.1 (JList kept) items))
      | Some _ => Raise TypeError
      end
  | _ => Raise AttributeError
  end.

Fixpoint strip_sheets (content : json) (vals : list (string * string))
    : outcome json :=
  match vals with
  | [] => Return content
  | sheet :: rest =>
      content' ← strip_sheet content sheet;
      strip_sheets content' rest
  end.

(** [_strip_empty_rows(self, content, vals=None)] *)
Definition _strip_empty_rows (content : json)
    (vals : option (list (string * string))) : outcome json :=
  strip_sheets content
    (default [("survey", "type"); ("choices", "list_name")] vals).

Section WithRandomId.

(** [random_id(9)] of the utilities: its [n]-th draw. *)
Variable random_id : nat → string.

(** One round of a loop of [_assign_kuids]; [n] counts the draws. *)
Definition assign_kuid (n : nat) (row : json) : outcome (nat * json) :=
  present ← has_key "$kuid" row;
  if (present : bool) then Return (n, row)
  else
    row' ← setitem "$kuid" (JStr (random_id n)) row;
    Return (S n, row').

(** A loop of [_assign_kuids] over a sheet.  Only the rows of a list can
    change. *)
Definition assign_sheet (n : nat) (sheet : json) : outcome (nat * json) :=
  match sheet with
  | JList rows =>
      '(n', rows') ← fold_rows assign_kuid n rows;
      Return (n', JList rows')
  | _ =>
      rows ← iterate sheet;
      '(n', _) ← fold_rows assign_kuid n rows;
      Return (n', sheet)
  end.

(** [_assign_kuids(self, content)] *)
Definition _assign_kuids (n : nat) (content : json) : outcome (nat * json) :=
  survey ← getitem "survey" content;
  '(n1, survey') ← assign_sheet n survey;
  content1 ← setitem "survey" survey' content;
  match content1 with
  | JDict items =>
      match dict_lookup "choices" items with
      | Some choices =>
          '(n2, choices') ← assign_sheet n1 choices;
          Return (n2, JDict (dict_store "choices" choices' items))
      | None => Return (n1, content1)
      end
  | _ => Raise AttributeError
  end.

End WithRandomId.

(** The loop of [_link_list_items], from the row before. *)
Fixpoint link_rows (before : json) (rows : list json) : outcome (list json) :=
  match rows with
  | [] => Return []
  | row :: rest =>
      kuid ← getitem "$kuid" before;
      row' ← setitem "$prev" kuid row;
      rest' ← link_rows row' rest;
      Return (row' :: rest')
  end.

(** [_link_list_items(self, content)] *)
Definition _link_list_items (content : json) : outcome json :=
  arr ← getitem "survey" content;
  match arr with
  | JList [] | JDict [] | JStr EmptyString => Return content
  | JList (first :: rest) =>
      first' ← setitem "$prev" JNull first;
      rest' ← link_rows first' rest;
      setitem "survey" (JList (first' :: rest')) content
  | JDict (_ :: _) => Raise KeyError
  | _ => Raise TypeError
  end.

(** One round of the loop of [_append]. *)
Definition append_sheet (content : json) (sheet : string * list json)
    : outcome json :=
  present ← has_key sheet.1 content;
  if (present : bool) then
    current ← getitem sheet.1 content;
    match current with
    | JList rows => setitem sheet.1 (JList (rows ++ sheet.2)) content
    | _ => Raise TypeError
    end
  else Return content.

Fixpoint append_sheets (content : json) (sheets : list (string * list json))
    : outcome json :=
  match sheets with
  | [] => Return content
  | sheet :: rest =>
      content' ← append_sheet content sheet;
      append_sheets content' rest
  end.

(** [_append(self, content, **sheet_data)], for the sheet data its caller
    documents: an optional dict of settings, and lists of rows by sheet
    name. *)
Definition _append (content : json) (settings : option (list (string * json)))
    (sheet_data : list (string * list json)) : outcome json :=
  content1 ←
    match settings with
    | Some ((_ :: _) as new_settings) =>
        current ← getitem "settings" content;
        match current with
        | JDict items =>
            setitem "settings"
              (JDict (fold_left (λ acc kv, dict_store kv.1 kv.2 acc)
                                new_settings items))
              content
        | _ => Raise AttributeError
        end
    | _ => Return content
    end;
  append_sheets content1 sheet_data.

End FormpackXLSFormUtils.

(** ** [Asset._adjust_content_on_save] on the content

    The method of [kpi/models/asset.py] with the utilities of
    [FormpackXLSFormUtils] written out.  It gives the count of draws, the
    value it assigns to [self.name] ([None] when it leaves the name
    alone) and the content it leaves. *)

Module AssetContent.

Import Py FormpackXLSFormUtils.

Section WithContentUtilities.

(** The utilities of [kpi.utils] behind [_standardize], [_autoname] and
    [_remove_empty_expressions]: each gives the content it leaves. *)
Variable _standardize : json → outcome json.
Variable _autoname : json → outcome json.
Variable _remove_empty_expressions : json → outcome json.
Variable random_id : nat → string.

(** [self.content.pop('#null_translation')]: the value, and the
    content. *)
Definition pop_null_translation (content : json) : outcome (json * json) :=
  match content with
  | JDict items =>
      match dict_lookup "#null_translation" items with
      | Some v => Return (v, JDict (dict_remove "#null_translation" items))
      | None => Raise KeyError
      end
  | JList _ => Raise TypeError
  | _ => Raise AttributeError
  end.

(** [del self.content['settings']] *)
Definition del_settings (content : json) : outcome json :=
  match content with
  | JDict items =>
      match dict_lookup "settings" items with
      | Some _ => Return (JDict (dict_remove "settings" items))
      | None => Raise KeyError
      end
  | _ => Raise TypeError
  end.

(** [Asset._adjust_content_on_save(self)] *)
Definition _adjust_content_on_save (n : nat) (asset_type : string)
    (content : json) : outcome (nat * json * json) :=
  content ← _standardize content;
  present ← has_key "#null_translation" content;
  content ← (if (present : bool) then
               '(new_name, content) ← pop_null_translation content;
               _rename_null_translation content new_name
             else Return content);
  content ← _strip_empty_rows content None;
  '(n, content) ← _assign_kuids random_id n content;
  content ← _autoname content;
  content ← _link_list_items content;
  content ← _remove_empty_expressions content;
  drop ← (if bool_decide (asset_type ≠ "survey")
          then has_key "settings" content
          else Return false);
  if (drop : bool) then
    content ← del_settings content;
    Return (n, JNull, content)
  else
    '(_title, content) ← pop_setting content "form_title" (Some JNull);
    Return (n, _title, content).

End WithContentUtilities.

End AssetContent.

(** ** [XlsExportable.to_xls_io]: the local [_add_contents_to_sheet]

    The sheet is an object of xlwt; the function is given by the calls
    [sheet.write(r, c, label)] it makes, in order. *)

Module XlsExportable.

Import Py.

Definition cell : Type := nat * nat * json.

Definition position (w : cell) : nat * nat := w.1.

(** [for key in row.keys(): if key not in cols: cols.append(key)] *)
Definition add_keys (cols keys : list string) : list string :=
  fold_left (λ cols key, if bool_decide (key ∈ cols) then cols
                         else cols ++ [key])
            keys cols.

(** The first loop. *)
Fixpoint columns (cols : list string) (contents : list json)
    : outcome (list string) :=
  match contents with
  | [] => Return cols
  | JDict items :: rest => columns (add_keys cols items.*1) rest
  | _ :: _ => Raise AttributeError
  end.

(** [for ci, col in enumerate(cols): sheet.write(0, ci, col)], from
    column [ci]. *)
Fixpoint header (ci : nat) (cols : list string) : list cell :=
  match cols with
  | [] => []
  | col :: rest => (0, ci, JStr col) :: header (S ci) rest
  end.

(** The inner loop over the columns, from column [ci], for row [ri]. *)
Fixpoint row_cells (ri ci : nat) (items : list (string * json))
    (cols : list string) : list cell :=
  match cols with
  | [] => []
  | col :: rest =>
      let val := default JNull (dict_lookup col items) in
      (if truthy val then [(S ri, ci, val)] else [])
      ++ row_cells ri (S ci) items rest
  end.

(** The last loop, from row [ri]. *)
Fixpoint rows_cells (ri : nat) (cols : list string) (contents : list json)
    : outcome (list cell) :=
  match contents with
  | [] => Return []
  | JDict items :: rest =>
      cells ← rows_cells (S ri) cols rest;
      Return (row_cells ri 0 items cols ++ cells)
  | _ :: _ => Raise AttributeError
  end.

(** [_add_contents_to_sheet(sheet, contents)] *)
Definition _add_contents_to_sheet (contents : list json)
    : outcome (list string * list cell) :=
  cols ← columns [] contents;
  cells ← rows_cells 0 cols contents;
  Return (cols, header 0 cols ++ cells).

End XlsExportable.

(** ** What the methods compute, as functions of the tables *)

(** The set [_effective_perms] returns, as a function of the tables. *)
Definition effective (d : DB) (self_pk : nat) (kwargs : list lookup)
    : gset (nat * nat) :=
  list_to_set (map (λ r, (user_id r, permission_id r))
     (rows_of d (filter_for_object collection_ct self_pk (deny_is false :: kwargs))))
  ∖ list_to_set (map (λ r, (user_id r, permission_id r))
     (rows_of d (filter_for_object collection_ct self_pk (deny_is true :: kwargs)))).

(** The query of step 1 of the recalculation. *)
Definition inherited_on (self_pk : nat) : QuerySet :=
  filter_for_object collection_ct self_pk [inherited_is true].

Definition cleared (self : Collection) (d : DB) : DB :=
  with_objectpermission d (rows_without d (inherited_on (pk self))).

(** What the loop over the owner's permissions adds to the pairs already
    inherited. *)
Definition owner_override (o : nat) (perms : list Permission)
    (pairs : list (nat * nat)) : list (nat * nat) :=
  fold_left (λ (acc : list (nat * nat)) perm,
               if bool_decide ((o, perm_pk perm) ∈ acc)
               then acc else (acc ++ [(o, perm_pk perm)])%list)
            perms pairs.

Definition collection_permissions (d : DB) : list Permission :=
  List.filter (λ p, bool_decide (perm_content_type p = collection_ct))
              (auth_permission d).

(** The (user, permission) pairs of the rows a recalculation inserts. *)
Definition regenerated (self : Collection) (d : DB) : list (nat * nat) :=
  match parent self with
  | None => []
  | Some parent_pk =>
      owner_override (owner self) (collection_permissions d)
        (elements (effective (cleared self d) parent_pk []))
  end.

Definition recalculated (self : Collection) (d : DB) : DB :=
  with_objectpermission d
    (rows_without d (inherited_on (pk self))
     ++ map (inherited_grant self) (regenerated self d)).

Definition explicit_rows (d : DB) : list ObjectPermission :=
  List.filter (λ r, negb (inherited r)) (kpi_objectpermission d).

Definition same_grantee (r1 r2 : ObjectPermission) : Prop :=
  object_ct r1 = object_ct r2 ∧ object_id r1 = object_id r2
  ∧ user_id r1 = user_id r2 ∧ permission_id r1 = permission_id r2.

(** No object holds an explicit grant and an explicit denial of the same
    permission to the same user: two explicit rows for the same user,
    permission and object agree on [deny]. *)
Definition exclusive (d : DB) : Prop :=
  Forall (λ r1, Forall (λ r2,
      inherited r1 = false → inherited r2 = false →
      same_grantee r1 r2 → deny r1 = deny r2)
    (kpi_objectpermission d)) (kpi_objectpermission d).

#[global] Instance same_grantee_dec r1 r2 : Decision (same_grantee r1 r2).
Proof. unfold same_grantee. apply _. Defined.

#[global] Instance exclusive_dec d : Decision (exclusive d).
Proof. unfold exclusive. apply _. Defined.

(** The rows [assign_perm] looks for, deletes and inserts. *)
Definition identical_to (self : Collection) (u p : nat) (deny : bool)
    : QuerySet :=
  qs_filter (filter_for_object collection_ct (pk self) [user_is u])
    [inherited_is false; permission_id_is p; deny_is deny].

Definition contradicting (self : Collection) (u p : nat) (deny : bool)
    : QuerySet :=
  qs_filter (filter_for_object collection_ct (pk self) [user_is u])
    [user_is u; permission_id_is p; deny_is (negb deny); inherited_is false].

Definition explicit_row (self : Collection) (u p : nat) (deny : bool)
    : ObjectPermission :=
  {| object_ct := collection_ct; object_id := pk self;
     user_id := u; permission_id := p; deny := deny; inherited := false |}.

(** The table holds a row for [self_pk] that passes the lookups [kwargs]
    and grants ([deny = false]) or denies ([deny = true]) permission [p]
    to user [u]. *)
Definition recorded (d : DB) (self_pk : nat) (kwargs : list lookup)
    (deny : bool) (u p : nat) : Prop :=
  ∃ r, r ∈ kpi_objectpermission d
       ∧ object_ct r = collection_ct ∧ object_id r = self_pk
       ∧ ORM.deny r = deny
       ∧ (∀ k, k ∈ kwargs → lookup_holds (auth_permission d) r k = true)
       ∧ user_id r = u ∧ permission_id r = p.

(** What the steps of [save] before the writes keep of the instance. *)
Definition same_row (a b : Asset) : Prop :=
  asset_type a = asset_type b ∧ asset_pk a = asset_pk b
  ∧ _deployment_data a = _deployment_data b.

(** The version row [save] creates for the instance it returns. *)
Definition snapshot (self : Asset) : AssetVersion :=
  {| version_asset := asset_pk self; version_name := asset_name self;
     version_content := content self;
     version_deployment_data := _deployment_data self;
     deployed := false |}.

(** The survey assets attached to a collection. *)
Definition attached (d : DB) (c : Collection) : list SurveyAsset :=
  List.filter (λ a, bool_decide (sa_collection a = Some (pk c)))
              (kpi_surveyasset d).

Definition has_assets (d : DB) (c : Collection) : bool :=
  match attached d c with [] => false | _ :: _ => true end.

(** The tables the loop over the descendants leaves: every collection up
    to the first one that holds a survey asset is recalculated. *)
Fixpoint cascaded (cs : list Collection) (d : DB) : DB :=
  match cs with
  | [] => d
  | c :: rest =>
      if has_assets d c then recalculated c d
      else cascaded rest (recalculated c d)
  end.

(** A list of collections in which nothing comes before its parent, nor
    twice: the order in which the tree library hands out descendants. *)
Fixpoint parent_first (cs : list Collection) : Prop :=
  match cs with
  | [] => True
  | c :: rest =>
      parent c ≠ Some (pk c)
      ∧ Forall (λ c', pk c' ≠ pk c ∧ parent c ≠ Some (pk c')) rest
      ∧ parent_first rest
  end.

#[global] Instance parent_first_dec cs : Decision (parent_first cs).
Proof. induction cs as [|c rest IH]; simpl; apply _. Defined.

(** The rows of a collection, whatever their flags. *)
Definition rows_on (d : DB) (c : nat) : list ObjectPermission :=
  rows_of d (filter_for_object collection_ct c []).

(** The descendants [get_descendants] answers on given tables. *)
Definition descendants_of (d : DB) (self : Collection) : list Collection :=
  descendants_within (length (kpi_collection d)) (kpi_collection d) (pk self).

(** The tables after the two writes of [assign_perm], and after the write
    of [remove_perm]. *)
Definition assigned (self : Collection) (u p : nat) (deny : bool) (d : DB)
    : DB :=
  with_objectpermission d
    (rows_without d (contradicting self u p deny)
     ++ [explicit_row self u p deny]).

Definition removal (self : Collection) (u : nat) (c : string) (deny : bool)
    : QuerySet :=
  filter_for_object collection_ct (pk self)
    [user_is u; permission__codename_is c; deny_is deny; inherited_is false].

Definition removed (self : Collection) (u : nat) (c : string) (deny : bool)
    (d : DB) : DB :=
  with_objectpermission d (rows_without d (removal self u c deny)).

(** The end shared by [save], [assign_perm] and [remove_perm]: how it
    ends, and the tables it leaves. *)
Definition tail_outcome (self : Collection) (d : DB) : outcome unit :=
  if has_assets d self || existsb (has_assets d) (descendants_of d self)
  then Raise (NameError "suvey_asset") else Return tt.

Definition tail_tables (self : Collection) (d : DB) : DB :=
  if has_assets d self then d else cascaded (descendants_of d self) d.

(** A further recalculation of [c] would regenerate the inherited rows
    [c] holds: [c] reflects the effective permissions of its parent. *)
Definition settled (w : World) (c : Collection) : Prop :=
  ∃ d', _recalculate_inherited_perms c w = (Return tt, reliable d')
        ∧ rows_of d' (filter_for_object collection_ct (pk c)
                        [inherited_is true])
          = rows_of (db w) (filter_for_object collection_ct (pk c)
                              [inherited_is true]).

(** A codename names one permission. *)
Definition names_apart (d : DB) : Prop :=
  ∀ p1 p2, p1 ∈ auth_permission d → p2 ∈ auth_permission d →
           codename p1 = codename p2 → perm_pk p1 = perm_pk p2.

(** The asset table once [self] is stored. *)
Definition stored (self : Asset) (rows : list Asset) : list Asset :=
  if existsb (λ a, bool_decide (asset_pk a = asset_pk self)) rows
  then map (λ a, if bool_decide (asset_pk a = asset_pk self) then self else a)
           rows
  else rows ++ [self].

(** No comma in the string. *)
Fixpoint comma_free (s : string) : bool :=
  match s with
  | EmptyString => true
  | String a rest => negb (bool_decide (a = ","%char)) && comma_free rest
  end.

(** The character occurs in the string. *)
Fixpoint occurs (c : ascii) (s : string) : bool :=
  match s with
  | EmptyString => false
  | String a rest => bool_decide (a = c) || occurs c rest
  end.

(** The test [required_key in row], for a row that is kept. *)
Definition holds (key : string) (row : json) : bool :=
  match Py.has_key key row with
  | Return b => b
  | Raise _ => false
  end.

Definition is_dict (v : json) : bool :=
  match v with
  | JDict _ => true
  | _ => false
  end.

(** What [_strip_empty_rows] leaves of one sheet. *)
Definition stripped (sheet key : string) (items items' : list (string * json))
    : Prop :=
  match Py.dict_lookup sheet items with
  | None => Py.dict_lookup sheet items' = None
  | Some (JList arr) =>
      Py.dict_lookup sheet items' = Some (JList (List.filter (holds key) arr))
  | Some _ => False
  end.

(** A sheet in which every row passes the test of its required key. *)
Definition sheet_clean (items : list (string * json))
    (sheet : string * string) : Prop :=
  match Py.dict_lookup sheet.1 items with
  | None => True
  | Some (JList arr) => Forall (λ row, holds sheet.2 row = true) arr
  | Some _ => False
  end.

(** A row, and what a loop of [_assign_kuids] leaves of it. *)
Definition kuid_assigned (row row' : json) : Prop :=
  Py.has_key "$kuid" row' = Return true
  ∧ (Py.has_key "$kuid" row = Return true → row' = row)
  ∧ is_dict row' = is_dict row
  ∧ ∀ k, k ≠ "$kuid" → Py.getitem k row' = Py.getitem k row.

(** A sheet, and what a loop of [_assign_kuids] leaves of it. *)
Definition sheet_assigned (sheet sheet' : json) : Prop :=
  match sheet with
  | JList rows => ∃ rows', sheet' = JList rows' ∧ Forall2 kuid_assigned rows rows'
  | _ => sheet' = sheet
  end.

(** The rows [_link_list_items] leaves, from the row before the first. *)
Definition linked (before : json) (rows rows' : list json) : Prop :=
  length rows' = length rows
  ∧ (∀ i prev row', (before :: rows') !! i = Some prev →
       rows' !! i = Some row' →
       ∃ kuid, Py.getitem "$kuid" prev = Return kuid
               ∧ Py.getitem "$prev" row' = Return kuid)
  ∧ (∀ i row row' k, k ≠ "$prev" → rows !! i = Some row →
       rows' !! i = Some row' → Py.getitem k row' = Py.getitem k row).

(** ** The scenarios of the specification *)

Module Scenario.

(** A [perm_parse] for permission strings without a dot: the codename
    is the string, the app label that of the object. *)
Definition perm_parse : string → ContentType → outcome (string * string) :=
  λ perm ct, Return (app_label ct, perm).

Definition collection_perm (k : nat) (c : string) : Permission :=
  {| perm_pk := k; perm_content_type := collection_ct; codename := c |}.

(** The permissions of the collection model: Django's three, and the two
    of [Collection.Meta]. *)
Definition permissions : list Permission :=
  [ collection_perm 1 "add_collection";
    collection_perm 2 "change_collection";
    collection_perm 3 "delete_collection";
    collection_perm 4 "view_collection";
    collection_perm 5 "share_collection" ].

Definition empty_db : DB :=
  {| auth_permission := permissions; kpi_collection := [];
     kpi_surveyasset := []; kpi_objectpermission := [];
     kpi_asset := []; kpi_assetversion := [] |}.

(** Collection A of user 1, and its child B. *)
Definition A : Collection :=
  {| pk := 1; name := "A"; parent := None; owner := 1;
     editors_can_change_permissions := true; uid := "cA" |}.

Definition B : Collection :=
  {| pk := 2; name := "B"; parent := Some 1; owner := 1;
     editors_can_change_permissions := true; uid := "cB" |}.

Definition grant (c u p : nat) (inh : bool) : ObjectPermission :=
  {| object_ct := collection_ct; object_id := c; user_id := u;
     permission_id := p; deny := false; inherited := inh |}.

(** The tables once A and B are saved: B holds its owner's five
    inherited grants, A holds nothing. *)
Definition tree_db : DB :=
  {| auth_permission := permissions; kpi_collection := [A; B];
     kpi_surveyasset := [];
     kpi_objectpermission :=
       [grant 2 1 1 true; grant 2 1 2 true; grant 2 1 3 true;
        grant 2 1 4 true; grant 2 1 5 true];
     kpi_asset := []; kpi_assetversion := [] |}.

(** The same, with one survey asset in A. *)
Definition tree_with_asset_db : DB :=
  {| auth_permission := permissions; kpi_collection := [A; B];
     kpi_surveyasset := [{| sa_pk := 1; sa_collection := Some 1 |}];
     kpi_objectpermission := kpi_objectpermission tree_db;
     kpi_asset := []; kpi_assetversion := [] |}.

(** The same as [tree_db], after user 3 was granted [view_collection]
    on A (and B inherited it). *)
Definition shared_db : DB :=
  with_objectpermission tree_db
    [grant 1 3 4 false; grant 2 3 4 true;
     grant 2 1 1 true; grant 2 1 2 true; grant 2 1 3 true;
     grant 2 1 4 true; grant 2 1 5 true].

End Scenario.

Module AssetScenario.

(** Content tools that leave the content alone and count three rows. *)
Definition adjust : string → string → json → outcome (string * json) :=
  λ _ n c, Return (n, c).

Definition analyze (rows : Z) : json → outcome (gmap string json) :=
  λ _, Return {[ "row_count" := JInt rows ]}.

Definition analyze_nothing : json → outcome (gmap string json) :=
  λ _, Return ∅.

Definition styles : string → json → json → outcome (json * json) :=
  λ _ r c, Return (r, c).

Definition question : Asset :=
  {| asset_pk := 1; asset_name := "q"; content := Some (JDict []);
     summary := ∅; report_styles := JDict [];
     asset_type := "question"; asset_parent := None; asset_owner := Some 1;
     asset_uid := "aQ"; _deployment_data := JDict [] |}.

End AssetScenario.

Module ContentScenario.

(** Utilities that leave the content alone, and draws a, b, c, ... *)
Definition keep : json → outcome json := λ content, Return content.

Definition random_id (n : nat) : string :=
  String (Ascii.ascii_of_nat (97 + n)) "".

(** A form of one question, one row without a type and one note, titled
    in its settings and waiting for the name of its null translation. *)
Definition form_survey : list json :=
  [ JDict [("type", JStr "text"); ("name", JStr "q1")];
    JDict [("name", JStr "q2")];
    JDict [("type", JStr "note"); ("$kuid", JStr "z")] ].

Definition form_items : list (string * json) :=
  [ ("survey", JList form_survey);
    ("choices", JList []);
    ("translations", JList [JStr "English"; JNull]);
    ("settings", JDict [("form_title", JStr "Title")]) ].

Definition form : json := JDict form_items.

(** A form that asks for a name that is taken. *)
Definition duplicate_items : list (string * json) :=
  [ ("survey", JList []);
    ("translations", JList [JStr "English"; JNull]);
    ("#null_translation", JStr "English") ].

(** The rows of a sheet to export. *)
Definition sheet_rows : list json :=
  [ JDict [("type", JStr "text"); ("name", JStr "q1")];
    JDict [("type", JStr "note"); ("label", JStr "")] ].

End ContentScenario.

(** ** Running the methods *)

Section Running.

Lemma bind_return {A B} (m : M A) (k : A → M B) w a w' :
  m w = (Return a, w') → (m ≫= k) w = k a w'.
Proof. intros H. unfold mbind, M_bind, bind. now rewrite H. Qed.

Lemma bind_raise {A B} (m : M A) (k : A → M B) w e w' :
  m w = (Raise e, w') → (m ≫= k) w = (Raise e, w').
Proof. intros H. unfold mbind, M_bind, bind. now rewrite H. Qed.

Lemma write_reliable f d : write f (reliable d) = (Return tt, reliable (f d)).
Proof. reflexivity. Qed.

Lemma qs_all_run q w : qs_all q w = (Return (rows_of (db w) q), w).
Proof. reflexivity. Qed.

Lemma qs_delete_reliable q d :
  qs_delete q (reliable d)
  = (Return tt, reliable (with_objectpermission d (rows_without d q))).
Proof. reflexivity. Qed.

Lemma objects_create_reliable r d :
  objects_create r (reliable d)
  = (Return tt, reliable (with_objectpermission d (kpi_objectpermission d ++ [r]))).
Proof. reflexivity. Qed.

(** A loop of plain inserts appends the rows in order. *)
Lemma for_each_create {A} (f : A → ObjectPermission) l d :
  for_each l (λ x, objects_create (f x)) (reliable d)
  = (Return tt,
     reliable (with_objectpermission d (kpi_objectpermission d ++ map f l))).
Proof.
  revert d. induction l as [|x l IH]; intros d; simpl.
  - rewrite app_nil_r. now destruct d.
  - unfold bind. rewrite objects_create_reliable, IH. simpl.
    now rewrite <- app_assoc.
Qed.

End Running.

Lemma _effective_perms_run self_pk kwargs w :
  _effective_perms self_pk kwargs w = (Return (effective (db w) self_pk kwargs), w).
Proof. reflexivity. Qed.

Section Recalculation.

Lemma selects_inherited_grant perms self up :
  selects perms (inherited_on (pk self)) (inherited_grant self up) = true.
Proof.
  unfold selects, inherited_on, inherited_grant; simpl.
  rewrite !bool_decide_eq_true_2 by done. done.
Qed.

Lemma selects_owner_query perms self o p up :
  selects perms
    (filter_for_object collection_ct (pk self)
       [user_is o; permission_id_is p; inherited_is true])
    (inherited_grant self up)
  = bool_decide (up = (o, p)).
Proof.
  destruct up as [u q]. unfold selects, inherited_grant; simpl.
  repeat case_bool_decide; simpl; congruence.
Qed.

Lemma owner_query_inherited perms self o p r :
  selects perms
    (filter_for_object collection_ct (pk self)
       [user_is o; permission_id_is p; inherited_is true]) r = true →
  selects perms (inherited_on (pk self)) r = true.
Proof.
  unfold selects, inherited_on; simpl.
  rewrite !andb_true_iff. tauto.
Qed.

Lemma filter_none {A} (f : A → bool) l :
  (∀ x, In x l → f x = false) → List.filter f l = [].
Proof.
  induction l as [|x l IH]; intros H; simpl; [done|].
  rewrite (H x) by now left. apply IH. intros y Hy. apply H. now right.
Qed.

Lemma filter_all {A} (f : A → bool) l :
  (∀ x, In x l → f x = true) → List.filter f l = l.
Proof.
  induction l as [|x l IH]; intros H; simpl; [done|].
  rewrite (H x) by now left. f_equal. apply IH. intros y Hy. apply H. now right.
Qed.

Lemma filter_the_one {A} `{EqDecision A} (a : A) l :
  NoDup l →
  List.filter (λ r, bool_decide (r = a)) l
  = if bool_decide (a ∈ l) then [a] else [].
Proof.
  induction 1 as [|x l Hx Hl IH]; simpl.
  - done.
  - destruct (decide (x = a)) as [->|Hne].
    + rewrite bool_decide_eq_true_2 by done.
      rewrite (bool_decide_eq_true_2 (a ∈ a :: l)) by set_solver.
      f_equal. apply filter_none. intros y Hy.
      apply bool_decide_eq_false_2. intros ->.
      apply Hx. now apply list_elem_of_In.
    + rewrite bool_decide_eq_false_2 by done. rewrite IH.
      destruct (decide (a ∈ l)).
      * rewrite !bool_decide_eq_true_2; [done| |done]. now right.
      * rewrite !bool_decide_eq_false_2; [done| |done].
        intros Hin. apply elem_of_cons in Hin as [?|?]; congruence.
Qed.

Lemma filter_map_commute {A B} (f : B → bool) (g : A → B) l :
  List.filter f (map g l) = map g (List.filter (λ x, f (g x)) l).
Proof.
  induction l as [|x l IH]; simpl; [done|].
  destruct (f (g x)); simpl; now rewrite IH.
Qed.

(** The rows the owner's [get_or_create] finds, in a table made of rows
    that are not inherited rows of [self] followed by freshly inserted
    inherited grants. *)
Lemma owner_rows self d kept pairs o p :
  kpi_objectpermission d = kept ++ map (inherited_grant self) pairs →
  NoDup pairs →
  (∀ r, In r kept →
        selects (auth_permission d) (inherited_on (pk self)) r = false) →
  rows_of d (filter_for_object collection_ct (pk self)
               [user_is o; permission_id_is p; inherited_is true])
  = if bool_decide ((o, p) ∈ pairs) then [inherited_grant self (o, p)] else [].
Proof.
  intros Htable Hnd Hkept. unfold rows_of. rewrite Htable, List.filter_app.
  rewrite (filter_none _ kept).
  - simpl. rewrite filter_map_commute.
    rewrite (List.filter_ext _ (λ up, bool_decide (up = (o, p)))).
    + rewrite filter_the_one by done. now case_bool_decide.
    + intros up. apply selects_owner_query.
  - intros r Hr. specialize (Hkept r Hr).
    destruct (selects _ (filter_for_object _ _ _) r) eqn:E; [|done].
    apply owner_query_inherited in E. congruence.
Qed.

Lemma owner_override_NoDup o perms pairs :
  NoDup pairs → NoDup (owner_override o perms pairs).
Proof.
  revert pairs. induction perms as [|perm perms IH]; intros pairs Hnd; simpl.
  - done.
  - apply IH. case_bool_decide; [done|].
    apply NoDup_app. split; [done|]. split.
    + intros x Hx Hx'. apply list_elem_of_singleton in Hx'. congruence.
    + apply NoDup_singleton.
Qed.

Lemma elem_of_owner_override o perms pairs up :
  up ∈ owner_override o perms pairs
  ↔ up ∈ pairs ∨ ∃ perm, perm ∈ perms ∧ up = (o, perm_pk perm).
Proof.
  revert pairs. induction perms as [|perm perms IH]; intros pairs; simpl.
  - split; [now left|]. intros [?|(perm & Hin & _)]; [done|].
    now apply elem_of_nil in Hin.
  - rewrite IH. case_bool_decide as Hin.
    + split.
      * intros [?|(q & Hq & ->)]; [now left|]. right. exists q.
        split; [now right|done].
      * intros [?|(q & Hq & ->)]; [now left|].
        apply elem_of_cons in Hq as [->|Hq]; [now left|].
        right. now exists q.
    + rewrite elem_of_app, list_elem_of_singleton. split.
      * intros [[?| ->]|(q & Hq & ->)]; [now left| |].
        -- right. exists perm. split; [now left|done].
        -- right. exists q. split; [now right|done].
      * intros [?|(q & Hq & ->)]; [now left; left|].
        apply elem_of_cons in Hq as [->|Hq]; [now left; right|].
        right. now exists q.
Qed.

Lemma with_objectpermission_id d :
  with_objectpermission d (kpi_objectpermission d) = d.
Proof. now destruct d. Qed.

Lemma owner_loop self perms : ∀ d kept pairs,
  kpi_objectpermission d = kept ++ map (inherited_grant self) pairs →
  NoDup pairs →
  (∀ r, In r kept →
        selects (auth_permission d) (inherited_on (pk self)) r = false) →
  for_each perms (λ perm,
    get_or_create
      (filter_for_object collection_ct (pk self)
         [user_is (owner self); permission_id_is (perm_pk perm);
          inherited_is true])
      (inherited_grant self (owner self, perm_pk perm))) (reliable d)
  = (Return tt,
     reliable (with_objectpermission d
       (kept ++ map (inherited_grant self)
                    (owner_override (owner self) perms pairs)))).
Proof.
  induction perms as [|perm perms IH]; intros d kept pairs Htable Hnd Hkept.
  - simpl. rewrite <- Htable. now rewrite with_objectpermission_id.
  - simpl. unfold bind at 1. unfold get_or_create at 1. unfold bind at 1.
    rewrite qs_all_run. simpl db.
    rewrite (owner_rows self d kept pairs) by done.
    case_bool_decide as Hin.
    + unfold ret at 1. apply (IH d kept pairs); done.
    + rewrite objects_create_reliable.
      rewrite (IH _ kept (pairs ++ [(owner self, perm_pk perm)])).
      * done.
      * simpl. rewrite Htable, map_app, <- app_assoc. done.
      * apply NoDup_app. split; [done|]. split; [|apply NoDup_singleton].
        intros x Hx Hx'. apply list_elem_of_singleton in Hx'. congruence.
      * done.
Qed.

(** A recalculation on a store that accepts every write returns, and
    leaves the tables [recalculated] describes. *)
Lemma recalculate_run self d :
  _recalculate_inherited_perms self (reliable d)
  = (Return tt, reliable (recalculated self d)).
Proof.
  unfold _recalculate_inherited_perms, recalculated, regenerated.
  erewrite bind_return by apply qs_delete_reliable.
  destruct (parent self) as [parent_pk|].
  - erewrite bind_return by apply _effective_perms_run.
    erewrite bind_return by apply for_each_create.
    erewrite bind_return by reflexivity.
    erewrite owner_loop.
    + reflexivity.
    + reflexivity.
    + apply NoDup_elements.
    + intros r Hr. simpl in *. unfold rows_without in Hr.
      apply filter_In in Hr as [_ Hr]. now apply negb_true_iff in Hr.
  - simpl. now rewrite app_nil_r.
Qed.

Lemma filter_filter_implied {A} (f g : A → bool) l :
  (∀ x, f x = true → g x = true) →
  List.filter f (List.filter g l) = List.filter f l.
Proof.
  intros Himp. induction l as [|x l IH]; simpl; [done|].
  destruct (g x) eqn:Eg; simpl.
  - now rewrite IH.
  - destruct (f x) eqn:Ef; [|done]. apply Himp in Ef. congruence.
Qed.

Lemma inherited_rows_recalculated self d :
  rows_of (recalculated self d) (inherited_on (pk self))
  = map (inherited_grant self) (regenerated self d).
Proof.
  unfold rows_of, recalculated; simpl. rewrite List.filter_app.
  rewrite (filter_none _ (rows_without _ _)).
  - simpl. apply filter_all. intros r Hr.
    apply in_map_iff in Hr as (up & <- & _). apply selects_inherited_grant.
  - intros r Hr. apply filter_In in Hr as [_ Hr].
    now apply negb_true_iff in Hr.
Qed.

(** A recalculation of [self] touches the rows of no other object. *)
Lemma rows_of_recalculated_other self d q :
  qs_id q ≠ pk self →
  rows_of (recalculated self d) q = rows_of d q.
Proof.
  intros Hne. unfold rows_of, recalculated; simpl. rewrite List.filter_app.
  rewrite (filter_none _ (map _ _)).
  - rewrite app_nil_r. unfold rows_without. apply filter_filter_implied.
    intros r Hr. apply negb_true_iff. unfold selects in *. simpl.
    apply andb_true_iff in Hr as [Hr _]. apply andb_true_iff in Hr as [_ Hr].
    apply bool_decide_eq_true in Hr.
    rewrite (bool_decide_eq_false_2 (object_id r = pk self)) by congruence.
    now rewrite andb_false_r.
  - intros r Hr. apply in_map_iff in Hr as (up & <- & _).
    unfold selects; simpl.
    rewrite (bool_decide_eq_false_2 (pk self = qs_id q)) by congruence.
    now rewrite andb_false_r.
Qed.

Lemma effective_recalculated_other self d p kwargs :
  p ≠ pk self →
  effective (recalculated self d) p kwargs = effective d p kwargs.
Proof.
  intros Hne. unfold effective.
  now rewrite !rows_of_recalculated_other by done.
Qed.

Lemma rows_of_cleared_other self d q :
  qs_id q ≠ pk self → rows_of (cleared self d) q = rows_of d q.
Proof.
  intros Hne. unfold rows_of, cleared; simpl.
  unfold rows_without. apply filter_filter_implied.
  intros r Hr. apply negb_true_iff. unfold selects in *. simpl.
  apply andb_true_iff in Hr as [Hr _]. apply andb_true_iff in Hr as [_ Hr].
  apply bool_decide_eq_true in Hr.
  rewrite (bool_decide_eq_false_2 (object_id r = pk self)) by congruence.
  now rewrite andb_false_r.
Qed.

Lemma effective_cleared_other self d p kwargs :
  p ≠ pk self → effective (cleared self d) p kwargs = effective d p kwargs.
Proof.
  intros Hne. unfold effective. now rewrite !rows_of_cleared_other by done.
Qed.

Lemma inherited_grant_inj self up up' :
  inherited_grant self up = inherited_grant self up' → up = up'.
Proof.
  destruct up, up'. unfold inherited_grant; simpl. congruence.
Qed.

Lemma NoDup_map_inj {A B} (f : A → B) l :
  (∀ x y, f x = f y → x = y) → NoDup l → NoDup (map f l).
Proof.
  intros Hinj. induction 1 as [|x l Hx Hl IH]; simpl; constructor; [|done].
  intros Hin. apply list_elem_of_In, in_map_iff in Hin as (y & Hy & Hin).
  apply Hinj in Hy as ->. now apply Hx, list_elem_of_In.
Qed.

End Recalculation.

(** C1.  For a collection N whose parent P is another collection, a
    recalculation of N returns and leaves, as the inherited rows of N, one
    inherited grant for every (user, permission) pair of P's effective
    permissions and one for N's owner for every permission defined for
    collections, and nothing else; no row occurs twice.  P's effective
    permissions are the same before and after the call. *)
Theorem recalculate_inherited_records self parent_pk d :
  parent self = Some parent_pk →
  parent_pk ≠ pk self →
  ∃ d' perms,
    _recalculate_inherited_perms self (reliable d) = (Return tt, reliable d')
    ∧ _effective_perms parent_pk [] (reliable d) = (Return perms, reliable d)
    ∧ _effective_perms parent_pk [] (reliable d') = (Return perms, reliable d')
    ∧ NoDup (rows_of d' (filter_for_object collection_ct (pk self)
                           [inherited_is true]))
    ∧ ∀ r,
        r ∈ rows_of d' (filter_for_object collection_ct (pk self)
                          [inherited_is true])
        ↔ ∃ u p,
            r = {| object_ct := collection_ct; object_id := pk self;
                   user_id := u; permission_id := p;
                   deny := false; inherited := true |}
            ∧ ((u, p) ∈ perms
               ∨ (u = owner self
                  ∧ ∃ perm, perm ∈ auth_permission d
                            ∧ perm_content_type perm = collection_ct
                            ∧ perm_pk perm = p)).
Proof.
  intros Hparent Hne.
  exists (recalculated self d), (effective d parent_pk []).
  split; [apply recalculate_run|]. split; [apply _effective_perms_run|].
  split.
  { rewrite _effective_perms_run. simpl.
    now rewrite effective_recalculated_other. }
  fold (inherited_on (pk self)). rewrite inherited_rows_recalculated.
  assert (Hreg : regenerated self d
                 = owner_override (owner self) (collection_permissions d)
                     (elements (effective d parent_pk []))).
  { unfold regenerated. rewrite Hparent.
    now rewrite effective_cleared_other. }
  rewrite Hreg. split.
  - apply NoDup_map_inj; [apply inherited_grant_inj|].
    apply owner_override_NoDup, NoDup_elements.
  - intros r. rewrite list_elem_of_In, in_map_iff. split.
    + intros ([u p] & <- & Hin). exists u, p. split; [done|].
      apply list_elem_of_In, elem_of_owner_override in Hin
        as [Hin|(perm & Hperm & Heq)].
      * left. now apply elem_of_elements in Hin.
      * right. inversion Heq; subst. split; [done|]. exists perm.
        apply list_elem_of_In, filter_In in Hperm as [Hperm Hct].
        apply bool_decide_eq_true in Hct.
        split; [now apply list_elem_of_In|done].
    + intros (u & p & -> & Hin). exists (u, p). split; [done|].
      apply list_elem_of_In, elem_of_owner_override.
      destruct Hin as [Hin|(-> & perm & Hperm & Hct & <-)].
      * left. now apply elem_of_elements.
      * right. exists perm. split; [|done].
        apply list_elem_of_In, filter_In. split.
        -- now apply list_elem_of_In.
        -- now apply bool_decide_eq_true.
Qed.

Section Idempotence.

Lemma rows_without_recalculated self d :
  rows_without (recalculated self d) (inherited_on (pk self))
  = rows_without d (inherited_on (pk self)).
Proof.
  unfold rows_without at 1. unfold recalculated at 1 2. simpl.
  rewrite List.filter_app, (filter_none _ (map _ _)).
  - rewrite app_nil_r. unfold rows_without. now apply filter_filter_implied.
  - intros r Hr. apply in_map_iff in Hr as (up & <- & _).
    now rewrite selects_inherited_grant.
Qed.

Lemma cleared_recalculated self d :
  cleared self (recalculated self d) = cleared self d.
Proof.
  unfold cleared. rewrite rows_without_recalculated. reflexivity.
Qed.

Lemma recalculated_idempotent self d :
  recalculated self (recalculated self d) = recalculated self d.
Proof.
  unfold recalculated at 1. rewrite rows_without_recalculated.
  unfold regenerated. rewrite cleared_recalculated. reflexivity.
Qed.

End Idempotence.

(** What a recalculation regenerates: each pair once; the pairs of the
    parent's effective permissions, read once the old rows are gone, and
    the pairs of the owner with each permission of the collection model;
    nothing for a collection without parent. *)
Lemma regenerated_NoDup self d : NoDup (regenerated self d).
Proof.
  unfold regenerated. destruct (parent self); [|constructor].
  apply owner_override_NoDup, NoDup_elements.
Qed.

Lemma elem_of_regenerated self d u p :
  (u, p) ∈ regenerated self d
  ↔ ∃ parent_pk,
      parent self = Some parent_pk
      ∧ ((u, p) ∈ effective (cleared self d) parent_pk []
         ∨ (u = owner self
            ∧ ∃ perm, perm ∈ auth_permission d
                      ∧ perm_content_type perm = collection_ct
                      ∧ perm_pk perm = p)).
Proof.
  unfold regenerated. destruct (parent self) as [parent_pk|].
  - rewrite elem_of_owner_override, elem_of_elements. split.
    + intros [Hin|(perm & Hperm & Heq)]; exists parent_pk; (split; [done|]).
      * now left.
      * right. inversion Heq; subst. split; [done|]. exists perm.
        apply list_elem_of_In, filter_In in Hperm as [Hperm Hct].
        apply bool_decide_eq_true in Hct.
        split; [now apply list_elem_of_In|done].
    + intros (q & [= <-] & [Hin|(-> & perm & Hperm & Hct & <-)]);
        [now left|].
      right. exists perm. split; [|done].
      apply list_elem_of_In, filter_In. split.
      * now apply list_elem_of_In.
      * now apply bool_decide_eq_true.
  - rewrite elem_of_nil. split; [done|]. now intros (q & [=] & _).
Qed.

(** The tables a recalculation leaves do not depend on the inherited rows
    the collection held. *)
Lemma recalculated_full_replace self d rows :
  rows_without (with_objectpermission d rows) (inherited_on (pk self))
  = rows_without d (inherited_on (pk self)) →
  recalculated self (with_objectpermission d rows) = recalculated self d.
Proof.
  intros Hrows. unfold recalculated, regenerated, cleared.
  rewrite Hrows. reflexivity.
Qed.

(** C6.  A recalculation is an idempotent full replace.  It returns.
    Every inherited row the collection held is deleted, whatever it was,
    and the rows that are not inherited rows of the collection keep their
    place; behind them stands one inherited grant for each regenerated
    pair, each pair once: the pairs of the parent's effective
    permissions, read once the old rows are gone, and the pairs of the
    owner with each permission of the collection model; none for a
    collection without parent.  So the tables it leaves are the same
    whatever inherited rows the collection held before.  A second
    recalculation right after the first returns and leaves every table as
    the first one left it: the inherited rows of the collection are the
    same rows, in number and in content. *)
Theorem recalculate_idempotent self d :
  ∃ d' pairs,
    _recalculate_inherited_perms self (reliable d) = (Return tt, reliable d')
    ∧ _recalculate_inherited_perms self (reliable d') = (Return tt, reliable d')
    ∧ (_recalculate_inherited_perms self;; _recalculate_inherited_perms self)
        (reliable d)
      = _recalculate_inherited_perms self (reliable d)
    ∧ d' = with_objectpermission d
             (rows_without d (inherited_on (pk self))
              ++ map (inherited_grant self) pairs)
    ∧ rows_of d' (inherited_on (pk self)) = map (inherited_grant self) pairs
    ∧ NoDup pairs
    ∧ (∀ u p,
         (u, p) ∈ pairs
         ↔ ∃ parent_pk,
             parent self = Some parent_pk
             ∧ ((u, p) ∈ effective (cleared self d) parent_pk []
                ∨ (u = owner self
                   ∧ ∃ perm, perm ∈ auth_permission d
                             ∧ perm_content_type perm = collection_ct
                             ∧ perm_pk perm = p)))
    ∧ (∀ rows,
         rows_without (with_objectpermission d rows) (inherited_on (pk self))
         = rows_without d (inherited_on (pk self)) →
         _recalculate_inherited_perms self
           (reliable (with_objectpermission d rows))
         = (Return tt, reliable d')).
Proof.
  exists (recalculated self d), (regenerated self d).
  split; [apply recalculate_run|].
  assert (H2 : _recalculate_inherited_perms self (reliable (recalculated self d))
               = (Return tt, reliable (recalculated self d))).
  { rewrite recalculate_run. now rewrite recalculated_idempotent. }
  split; [exact H2|]. split.
  { erewrite bind_return by apply recalculate_run.
    rewrite H2. now rewrite recalculate_run. }
  split; [reflexivity|].
  split; [apply inherited_rows_recalculated|].
  split; [apply regenerated_NoDup|].
  split; [apply elem_of_regenerated|].
  intros rows Hrows. rewrite recalculate_run.
  now rewrite recalculated_full_replace.
Qed.

(** ** The cascade leaves explicit rows alone *)

Section Cascade.

Lemma explicit_rows_recalculated c d :
  explicit_rows (recalculated c d) = explicit_rows d.
Proof.
  unfold explicit_rows, recalculated; simpl.
  rewrite List.filter_app, (filter_none _ (map _ _)).
  - rewrite app_nil_r. unfold rows_without. apply filter_filter_implied.
    intros r Hr. apply negb_true_iff. apply negb_true_iff in Hr.
    unfold selects, inherited_on; simpl. rewrite Hr.
    rewrite (bool_decide_eq_false_2 (false = true)) by done.
    now rewrite andb_false_r.
  - intros r Hr. now apply in_map_iff in Hr as (up & <- & _).
Qed.

Lemma recalculate_survey_assets_world assets w o w' :
  recalculate_survey_assets assets w = (o, w') → w' = w.
Proof.
  unfold recalculate_survey_assets.
  destruct assets; simpl; unfold bind, ret, raise; simpl; congruence.
Qed.

Lemma recalculate_survey_assets_returns assets w w' :
  recalculate_survey_assets assets w = (Return tt, w') → assets = [].
Proof.
  unfold recalculate_survey_assets.
  destruct assets; [done|]. simpl. unfold bind, raise. simpl. congruence.
Qed.

(** Whether the loop over the descendants returns or raises, it leaves a
    store that never fails, with the explicit rows and the permission
    kinds it found. *)
Lemma cascade_frame cs : ∀ d o w',
  for_each cs (λ descendant,
    _recalculate_inherited_perms descendant;;
    assets ← survey_assets descendant;
    recalculate_survey_assets assets) (reliable d) = (o, w') →
  ∃ d', w' = reliable d'
        ∧ explicit_rows d' = explicit_rows d
        ∧ auth_permission d' = auth_permission d.
Proof.
  induction cs as [|c cs IH]; intros d o w' Hrun; simpl in Hrun.
  - inversion Hrun; subst. now exists d.
  - unfold bind at 1 in Hrun.
    erewrite bind_return in Hrun by apply recalculate_run.
    erewrite bind_return in Hrun by reflexivity.
    destruct (recalculate_survey_assets _ _) as [[[]|e] w1] eqn:E.
    + apply recalculate_survey_assets_world in E as ->.
      apply IH in Hrun as (d' & -> & Hex & Hauth). exists d'.
      split; [done|]. split.
      * now rewrite Hex, explicit_rows_recalculated.
      * done.
    + apply recalculate_survey_assets_world in E as ->.
      inversion Hrun; subst. exists (recalculated c d).
      split; [done|]. split; [apply explicit_rows_recalculated|done].
Qed.

Lemma recalculate_descendants_frame self d o w' :
  recalculate_descendants self (reliable d) = (o, w') →
  ∃ d', w' = reliable d'
        ∧ explicit_rows d' = explicit_rows d
        ∧ auth_permission d' = auth_permission d.
Proof.
  unfold recalculate_descendants. intros Hrun.
  erewrite bind_return in Hrun by reflexivity.
  now apply cascade_frame in Hrun.
Qed.

(** The tail shared by [assign_perm] and [remove_perm]. *)
Lemma cascade_tail_frame self d w' :
  (assets ← survey_assets self;
   recalculate_survey_assets assets;;
   recalculate_descendants self) (reliable d) = (Return tt, w') →
  ∃ d', w' = reliable d'
        ∧ explicit_rows d' = explicit_rows d
        ∧ auth_permission d' = auth_permission d.
Proof.
  intros Hrun. erewrite bind_return in Hrun by reflexivity.
  destruct (recalculate_survey_assets
              (List.filter (λ a, bool_decide (sa_collection a = Some (pk self)))
                 (kpi_surveyasset d)) (reliable d)) as [[[]|e] w1] eqn:E.
  - pose proof (recalculate_survey_assets_world _ _ _ _ E) as ->.
    erewrite bind_return in Hrun by exact E.
    now apply recalculate_descendants_frame in Hrun.
  - erewrite bind_raise in Hrun by exact E. congruence.
Qed.

End Cascade.

(** ** Explicit grants and denials exclude each other *)

Section Exclusivity.

Lemma exclusive_spec d :
  exclusive d ↔
  ∀ r1 r2, r1 ∈ explicit_rows d → r2 ∈ explicit_rows d →
           same_grantee r1 r2 → deny r1 = deny r2.
Proof.
  unfold exclusive, explicit_rows. rewrite Forall_forall. split.
  - intros H r1 r2 H1 H2 Hsame.
    apply list_elem_of_In, filter_In in H1 as [H1 E1].
    apply list_elem_of_In, filter_In in H2 as [H2 E2].
    apply negb_true_iff in E1, E2.
    specialize (H r1 (proj2 (list_elem_of_In _ _) H1)).
    rewrite Forall_forall in H.
    now apply (H r2 (proj2 (list_elem_of_In _ _) H2)).
  - intros H r1 H1. rewrite Forall_forall. intros r2 H2 E1 E2 Hsame.
    apply H; [| |done]; apply list_elem_of_In, filter_In;
      (split; [now apply list_elem_of_In|now apply negb_true_iff]).
Qed.

Lemma exclusive_same_explicit d d' :
  explicit_rows d' = explicit_rows d → exclusive d → exclusive d'.
Proof. rewrite !exclusive_spec. intros ->. done. Qed.

Lemma permission_get_world a c w o w' :
  permission_get a c w = (o, w') → w' = w.
Proof.
  unfold permission_get. unfold bind, read, ret, raise.
  destruct (List.filter _ _) as [|p [|q l]]; congruence.
Qed.

Lemma permission_get_found a c w p :
  permission_get a c w = (Return p, w) →
  p ∈ auth_permission (db w) ∧ codename p = c.
Proof.
  unfold permission_get. unfold bind, read, ret, raise.
  destruct (List.filter _ _) as [|q [|q' l]] eqn:E; try congruence.
  intros [= ->].
  assert (Hin : In p (List.filter
    (λ p, bool_decide (app_label (perm_content_type p) = a)
          && bool_decide (codename p = c)) (auth_permission (db w)))).
  { rewrite E. now left. }
  apply filter_In in Hin as [Hin Hp]. apply andb_true_iff in Hp as [_ Hp].
  apply bool_decide_eq_true in Hp. split; [now apply list_elem_of_In|done].
Qed.

(** What a returning [assign_perm] has done. *)
Lemma assign_perm_returns pp self u perm deny d w' :
  assign_perm pp self u perm deny (reliable d) = (Return tt, w') →
  ∃ a c perm_model d',
    pp perm collection_ct = Return (a, c)
    ∧ permission_get a c (reliable d) = (Return perm_model, reliable d)
    ∧ w' = reliable d'
    ∧ auth_permission d' = auth_permission d
    ∧ ((rows_of d (identical_to self u (perm_pk perm_model) deny) ≠ []
        ∧ d' = d)
       ∨ (rows_of d (identical_to self u (perm_pk perm_model) deny) = []
          ∧ explicit_rows d'
            = List.filter (λ r, negb (inherited r))
                (rows_without d
                   (contradicting self u (perm_pk perm_model) deny))
              ++ [explicit_row self u (perm_pk perm_model) deny])).
Proof.
  unfold assign_perm. intros Hrun.
  destruct (pp perm collection_ct) as [[a c]|e] eqn:Hpp.
  2:{ erewrite bind_raise in Hrun by reflexivity. congruence. }
  erewrite bind_return in Hrun by reflexivity. cbv beta iota in Hrun.
  destruct (permission_get a c (reliable d)) as [[perm_model|e] w1] eqn:Hget.
  2:{ erewrite bind_raise in Hrun by exact Hget. congruence. }
  pose proof (permission_get_world _ _ _ _ _ Hget) as ->.
  erewrite bind_return in Hrun by exact Hget.
  erewrite bind_return in Hrun by apply qs_all_run.
  exists a, c, perm_model. cbv beta in Hrun.
  change (db (reliable d)) with d in Hrun.
  fold (identical_to self u (perm_pk perm_model) deny) in Hrun.
  fold (contradicting self u (perm_pk perm_model) deny) in Hrun.
  fold (explicit_row self u (perm_pk perm_model) deny) in Hrun.
  destruct (rows_of d (identical_to self u (perm_pk perm_model) deny))
    as [|r rows] eqn:Hid; cbv iota in Hrun.
  - erewrite bind_return in Hrun by apply qs_delete_reliable.
    erewrite bind_return in Hrun by apply objects_create_reliable.
    apply cascade_tail_frame in Hrun as (d' & -> & Hex & Hauth).
    exists d'. split; [done|]. split; [done|]. split; [done|].
    split; [done|]. right. split; [done|].
    rewrite Hex. unfold explicit_rows. simpl.
    now rewrite List.filter_app.
  - inversion Hrun; subst. exists d. split; [done|]. split; [done|].
    split; [done|]. split; [done|]. left. done.
Qed.

(** What a returning [remove_perm] has done. *)
Lemma remove_perm_returns pp self u perm deny d w' :
  remove_perm pp self u perm deny (reliable d) = (Return tt, w') →
  ∃ a c d',
    pp perm collection_ct = Return (a, c)
    ∧ w' = reliable d'
    ∧ auth_permission d' = auth_permission d
    ∧ explicit_rows d'
      = List.filter (λ r, negb (inherited r))
          (rows_without d
             (filter_for_object collection_ct (pk self)
                [user_is u; permission__codename_is c; deny_is deny;
                 inherited_is false])).
Proof.
  unfold remove_perm. intros Hrun.
  destruct (pp perm collection_ct) as [[a c]|e] eqn:Hpp.
  2:{ erewrite bind_raise in Hrun by reflexivity. congruence. }
  erewrite bind_return in Hrun by reflexivity. cbv beta iota in Hrun.
  erewrite bind_return in Hrun by apply qs_delete_reliable.
  apply cascade_tail_frame in Hrun as (d' & -> & Hex & Hauth).
  exists a, c, d'. done.
Qed.

Lemma selects_identical perms self u p deny r :
  selects perms (identical_to self u p deny) r = true
  ↔ r = explicit_row self u p deny.
Proof.
  unfold selects, identical_to, explicit_row; simpl.
  rewrite !andb_true_iff, !bool_decide_eq_true. split.
  - destruct r; simpl. intros ((-> & ->) & -> & -> & -> & -> & _). done.
  - intros ->. simpl. tauto.
Qed.

Lemma selects_contradicting perms self u p deny r :
  selects perms (contradicting self u p deny) r = true
  ↔ r = explicit_row self u p (negb deny).
Proof.
  unfold selects, contradicting, explicit_row; simpl.
  rewrite !andb_true_iff, !bool_decide_eq_true. split.
  - destruct r; simpl. intros ((-> & ->) & -> & _ & -> & -> & -> & _). done.
  - intros ->. simpl. tauto.
Qed.

Lemma elem_of_explicit_rows d r :
  r ∈ explicit_rows d ↔ r ∈ kpi_objectpermission d ∧ inherited r = false.
Proof.
  unfold explicit_rows. rewrite list_elem_of_In, filter_In, negb_true_iff.
  now rewrite <- list_elem_of_In.
Qed.

Lemma opposite_absent d self u p deny :
  exclusive d →
  explicit_row self u p deny ∈ kpi_objectpermission d →
  explicit_row self u p (negb deny) ∉ kpi_objectpermission d.
Proof.
  rewrite exclusive_spec. intros Hex Hin Hopp.
  assert (E : deny = negb deny).
  { apply (Hex (explicit_row self u p deny)
               (explicit_row self u p (negb deny)));
      [now apply elem_of_explicit_rows..|]. now unfold same_grantee. }
  now destruct deny.
Qed.

Lemma exclusive_subset d d' :
  (∀ r, r ∈ explicit_rows d' → r ∈ explicit_rows d) →
  exclusive d → exclusive d'.
Proof.
  rewrite !exclusive_spec. intros Hsub Hex r1 r2 H1 H2.
  apply Hex; now apply Hsub.
Qed.

Lemma exclusive_assigned d d' self u p deny :
  exclusive d →
  explicit_rows d'
  = List.filter (λ r, negb (inherited r))
      (rows_without d (contradicting self u p deny))
    ++ [explicit_row self u p deny] →
  exclusive d'.
Proof.
  intros Hex Hrows.
  assert (Hold : ∀ r,
    r ∈ List.filter (λ r, negb (inherited r))
          (rows_without d (contradicting self u p deny)) →
    r ∈ explicit_rows d ∧ r ≠ explicit_row self u p (negb deny)).
  { intros r Hr. apply list_elem_of_In, filter_In in Hr as [Hr Hexp].
    apply filter_In in Hr as [Hr Hsel]. split.
    - apply elem_of_explicit_rows. split; [now apply list_elem_of_In|].
      now apply negb_true_iff.
    - intros ->. apply negb_true_iff in Hsel.
      now rewrite (proj2 (selects_contradicting _ self u p deny _) eq_refl)
        in Hsel. }
  assert (Hnew : ∀ r,
    r ∈ List.filter (λ r, negb (inherited r))
          (rows_without d (contradicting self u p deny)) →
    same_grantee r (explicit_row self u p deny) →
    ORM.deny r = deny).
  { intros r Hr (Hct & Hid & Hu & Hp). simpl in *.
    destruct (Hold r Hr) as [Hin Hne].
    apply elem_of_explicit_rows in Hin as [_ Hexp].
    destruct (decide (ORM.deny r = deny)) as [|Hd]; [done|].
    exfalso. apply Hne. destruct r; simpl in *; subst.
    unfold explicit_row. f_equal. destruct deny0, deny; done. }
  apply exclusive_spec. rewrite Hrows. intros r1 r2 H1 H2 Hsame.
  apply elem_of_app in H1 as [H1|H1], H2 as [H2|H2].
  - apply (proj1 (exclusive_spec d) Hex); [..|done]; now apply Hold.
  - apply list_elem_of_singleton in H2 as ->. rewrite (Hnew r1); done.
  - apply list_elem_of_singleton in H1 as ->. simpl. symmetry.
    apply Hnew; [done|]. destruct Hsame as (? & ? & ? & ?). now split.
  - apply list_elem_of_singleton in H1 as ->.
    now apply list_elem_of_singleton in H2 as ->.
Qed.

End Exclusivity.

(** C5.  Start from tables in which no explicit grant and explicit denial
    of one permission to one user on one object coexist.  Then
    - when [assign_perm] returns, the tables it leaves have the same
      property; the explicit row it was asked for is there and the
      explicit row with the opposite [deny] is not;
    - when [remove_perm] returns, the tables it leaves have the same
      property;
    - when the explicit row asked for is already there, [assign_perm]
      returns at once and changes nothing. *)
Theorem explicit_grant_deny_exclusive pp self u perm deny d :
  exclusive d →
  (∀ w', assign_perm pp self u perm deny (reliable d) = (Return tt, w') →
         exclusive (db w')
         ∧ ∃ perm_model,
             perm_model ∈ auth_permission d
             ∧ explicit_row self u (perm_pk perm_model) deny
               ∈ kpi_objectpermission (db w')
             ∧ explicit_row self u (perm_pk perm_model) (negb deny)
               ∉ kpi_objectpermission (db w'))
  ∧ (∀ w', remove_perm pp self u perm deny (reliable d) = (Return tt, w') →
           exclusive (db w'))
  ∧ (∀ a c perm_model,
       pp perm collection_ct = Return (a, c) →
       permission_get a c (reliable d) = (Return perm_model, reliable d) →
       explicit_row self u (perm_pk perm_model) deny ∈ kpi_objectpermission d →
       assign_perm pp self u perm deny (reliable d) = (Return tt, reliable d)).
Proof.
  intros Hex. split; [|split].
  - intros w' Hrun.
    apply assign_perm_returns in Hrun
      as (a & c & perm_model & d' & Hpp & Hget & -> & Hauth & Hcase).
    apply permission_get_found in Hget as [Hin _]. simpl in Hin.
    assert (Hboth : exclusive d'
                    ∧ explicit_row self u (perm_pk perm_model) deny
                      ∈ kpi_objectpermission d').
    { destruct Hcase as [[Hid ->]|[Hid Hrows]].
      - split; [done|].
        destruct (rows_of d (identical_to self u (perm_pk perm_model) deny))
          as [|r rows] eqn:E; [done|].
        assert (Hr : In r (rows_of d
                       (identical_to self u (perm_pk perm_model) deny))).
        { rewrite E. now left. }
        apply filter_In in Hr as [Hr Hsel].
        apply selects_identical in Hsel as ->. now apply list_elem_of_In.
      - split; [now apply (exclusive_assigned d d' self u (perm_pk perm_model) deny)|].
        apply (elem_of_explicit_rows d'). rewrite Hrows, elem_of_app.
        right. now apply list_elem_of_singleton. }
    destruct Hboth as [Hex' Hrow]. simpl. split; [done|].
    exists perm_model. split; [done|]. split; [done|].
    now apply opposite_absent.
  - intros w' Hrun.
    apply remove_perm_returns in Hrun as (a & c & d' & Hpp & -> & Hauth & Hrows).
    simpl. apply (exclusive_subset d); [|done].
    intros r Hr. rewrite Hrows in Hr.
    apply list_elem_of_In, filter_In in Hr as [Hr Hexp].
    apply filter_In in Hr as [Hr _].
    apply elem_of_explicit_rows. split; [now apply list_elem_of_In|].
    now apply negb_true_iff.
  - intros a c perm_model Hpp Hget Hin. unfold assign_perm.
    rewrite Hpp. erewrite bind_return by reflexivity. cbv beta iota.
    erewrite bind_return by exact Hget.
    erewrite bind_return by apply qs_all_run. cbv beta.
    change (db (reliable d)) with d.
    fold (identical_to self u (perm_pk perm_model) deny).
    destruct (rows_of d (identical_to self u (perm_pk perm_model) deny))
      as [|r rows] eqn:E; [|done].
    exfalso.
    assert (Hr : In (explicit_row self u (perm_pk perm_model) deny)
                    (rows_of d (identical_to self u (perm_pk perm_model) deny))).
    { apply filter_In. split; [now apply list_elem_of_In|].
      now apply selects_identical. }
    now rewrite E in Hr.
Qed.

(** ** Effective permissions *)

Section Effective.

Lemma elem_of_values d self_pk kwargs deny u p :
  (u, p) ∈ map (λ r, (user_id r, permission_id r))
             (rows_of d (filter_for_object collection_ct self_pk
                           (deny_is deny :: kwargs)))
  ↔ recorded d self_pk kwargs deny u p.
Proof.
  rewrite list_elem_of_In, in_map_iff. unfold recorded, rows_of. split.
  - intros (r & [= <- <-] & Hr). apply filter_In in Hr as [Hr Hsel].
    exists r. unfold selects in Hsel. simpl in Hsel.
    rewrite !andb_true_iff, !bool_decide_eq_true in Hsel.
    destruct Hsel as ((Hct & Hid) & Hdeny & Hkw).
    rewrite forallb_forall in Hkw.
    repeat split; try done; [now apply list_elem_of_In|].
    intros k Hk. now apply Hkw, list_elem_of_In.
  - intros (r & Hr & Hct & Hid & Hdeny & Hkw & <- & <-). exists r.
    split; [done|]. apply filter_In. split; [now apply list_elem_of_In|].
    unfold selects. simpl.
    rewrite !andb_true_iff, !bool_decide_eq_true, forallb_forall.
    repeat split; try done. intros k Hk. now apply Hkw, list_elem_of_In.
Qed.

Lemma elem_of_effective d self_pk kwargs u p :
  (u, p) ∈ effective d self_pk kwargs
  ↔ recorded d self_pk kwargs false u p
    ∧ ¬ recorded d self_pk kwargs true u p.
Proof.
  unfold effective.
  now rewrite elem_of_difference, !elem_of_list_to_set, !elem_of_values.
Qed.

(** The explicit row a returning [assign_perm] leaves behind. *)
Lemma assign_perm_row pp self u perm deny d w' :
  assign_perm pp self u perm deny (reliable d) = (Return tt, w') →
  ∃ a c perm_model d',
    pp perm collection_ct = Return (a, c)
    ∧ perm_model ∈ auth_permission d ∧ codename perm_model = c
    ∧ w' = reliable d'
    ∧ auth_permission d' = auth_permission d
    ∧ explicit_row self u (perm_pk perm_model) deny ∈ kpi_objectpermission d'.
Proof.
  intros Hrun.
  apply assign_perm_returns in Hrun
    as (a & c & perm_model & d' & Hpp & Hget & -> & Hauth & Hcase).
  apply permission_get_found in Hget as [Hin Hc]. simpl in Hin.
  exists a, c, perm_model, d'. repeat split; try done.
  destruct Hcase as [[Hid ->]|[Hid Hrows]].
  - destruct (rows_of d (identical_to self u (perm_pk perm_model) deny))
      as [|r rows] eqn:E; [done|].
    assert (Hr : In r (rows_of d
                   (identical_to self u (perm_pk perm_model) deny))).
    { rewrite E. now left. }
    apply filter_In in Hr as [Hr Hsel].
    apply selects_identical in Hsel as ->. now apply list_elem_of_In.
  - apply (elem_of_explicit_rows d'). rewrite Hrows, elem_of_app.
    right. now apply list_elem_of_singleton.
Qed.

End Effective.

(** C4.  [_effective_perms] returns, changes nothing, and the set it
    returns holds a pair exactly when some row of the collection passing
    the filters grants it and no row of the collection passing the filters
    denies it; whether a row is inherited plays no part.  So, permission
    kinds being named apart, once [assign_perm] with [deny=True] has
    returned, [has_perm] answers [False] for that user and permission,
    whatever grants, inherited or not, the collection holds. *)
Theorem effective_perms_grants_minus_denials :
  (∀ self_pk kwargs w,
     ∃ perms,
       _effective_perms self_pk kwargs w = (Return perms, w)
       ∧ ∀ u p, (u, p) ∈ perms
                ↔ recorded (db w) self_pk kwargs false u p
                  ∧ ¬ recorded (db w) self_pk kwargs true u p)
  ∧ (∀ pp self u perm d w',
       (∀ p1 p2, p1 ∈ auth_permission d → p2 ∈ auth_permission d →
                 codename p1 = codename p2 → perm_pk p1 = perm_pk p2) →
       assign_perm pp self u perm true (reliable d) = (Return tt, w') →
       has_perm pp self u perm w' = (Return false, w')).
Proof.
  split.
  - intros self_pk kwargs w. exists (effective (db w) self_pk kwargs).
    split; [apply _effective_perms_run|]. intros u p. apply elem_of_effective.
  - intros pp self u perm d w' Hnames Hrun.
    apply assign_perm_row in Hrun
      as (a & c & perm_model & d' & Hpp & Hin & Hc & -> & Hauth & Hrow).
    unfold has_perm. rewrite Hpp.
    erewrite bind_return by reflexivity. cbv beta iota.
    erewrite bind_return by apply _effective_perms_run.
    change (db (reliable d')) with d'.
    assert (Hempty : effective d' (pk self)
                       [user_is u; permission__codename_is c] = ∅).
    { apply elem_of_equiv_empty_L. intros [u' p] Hup.
      apply elem_of_effective in Hup as [Hgrant Hdeny]. apply Hdeny.
      destruct Hgrant as (r & Hr & Hct & Hid & Hd & Hkw & <- & <-).
      assert (Hu := Hkw (user_is u) ltac:(set_solver)).
      assert (Hcode := Hkw (permission__codename_is c) ltac:(set_solver)).
      simpl in Hu, Hcode. apply bool_decide_eq_true in Hu.
      apply existsb_exists in Hcode as (q & Hq & Hq').
      apply andb_true_iff in Hq' as [Hq1 Hq2].
      apply bool_decide_eq_true in Hq1, Hq2.
      assert (Hpk : perm_pk q = perm_pk perm_model).
      { apply Hnames; [|done|congruence].
        rewrite <- Hauth. now apply list_elem_of_In. }
      exists (explicit_row self u (perm_pk perm_model) true).
      split; [done|]. simpl. repeat split; try done; [|congruence].
      intros k Hk. apply elem_of_cons in Hk as [->|Hk].
      { simpl. now apply bool_decide_eq_true. }
      apply list_elem_of_singleton in Hk as ->. simpl.
      apply existsb_exists. exists perm_model. split.
      - rewrite Hauth. now apply list_elem_of_In.
      - apply andb_true_iff. split; now apply bool_decide_eq_true. }
    rewrite Hempty. reflexivity.
Qed.

(** ** A failing store *)

Section Failure.

(** A loop of plain inserts on a store that accepts [k] more writes: the
    rows go in one by one, and the first [k] of them stay when the store
    fails. *)
Lemma for_each_create_budget {A} (f : A → ObjectPermission) l : ∀ d k,
  for_each l (λ x, objects_create (f x)) {| db := d; write_budget := Some k |}
  = if decide (length l ≤ k)%nat
    then (Return tt,
          {| db := with_objectpermission d (kpi_objectpermission d ++ map f l);
             write_budget := Some (k - length l) |})
    else (Raise DatabaseError,
          {| db := with_objectpermission d
                     (kpi_objectpermission d ++ map f (take k l));
             write_budget := Some 0 |}).
Proof.
  induction l as [|x l IH]; intros d k.
  - simpl. rewrite app_nil_r, with_objectpermission_id, Nat.sub_0_r.
    destruct (decide (0 ≤ k)%nat); [done|lia].
  - destruct k as [|k].
    + simpl. rewrite app_nil_r, with_objectpermission_id.
      destruct (decide (S (length l) ≤ 0)%nat); [lia|done].
    + change (for_each (x :: l) (λ y, objects_create (f y))
                {| db := d; write_budget := Some (S k) |})
        with (for_each l (λ y, objects_create (f y))
                {| db := with_objectpermission d
                           (kpi_objectpermission d ++ [f x]);
                   write_budget := Some k |}).
      rewrite IH. simpl.
      destruct (decide (length l ≤ k)%nat), (decide (S (length l) ≤ S k)%nat);
        try lia; now rewrite <- app_assoc.
Qed.

Lemma owner_override_prefix o perms : ∀ pairs,
  ∃ added, owner_override o perms pairs = pairs ++ added.
Proof.
  induction perms as [|perm perms IH]; intros pairs; simpl.
  - exists []. now rewrite app_nil_r.
  - case_bool_decide; [apply IH|].
    destruct (IH (pairs ++ [(o, perm_pk perm)])) as [added ->].
    exists ((o, perm_pk perm) :: added). now rewrite <- app_assoc.
Qed.

(** The loop over the owner's permissions on a store that accepts [k]
    more writes: only a row that is missing costs a write. *)
Lemma owner_loop_budget self perms : ∀ d kept pairs k,
  kpi_objectpermission d = kept ++ map (inherited_grant self) pairs →
  NoDup pairs →
  (∀ r, In r kept →
        selects (auth_permission d) (inherited_on (pk self)) r = false) →
  for_each perms (λ perm,
    get_or_create
      (filter_for_object collection_ct (pk self)
         [user_is (owner self); permission_id_is (perm_pk perm);
          inherited_is true])
      (inherited_grant self (owner self, perm_pk perm)))
    {| db := d; write_budget := Some k |}
  = if decide (length (owner_override (owner self) perms pairs)
               ≤ length pairs + k)%nat
    then (Return tt,
          {| db := with_objectpermission d
                     (kept ++ map (inherited_grant self)
                                  (owner_override (owner self) perms pairs));
             write_budget :=
               Some (length pairs + k
                     - length (owner_override (owner self) perms pairs)) |})
    else (Raise DatabaseError,
          {| db := with_objectpermission d
                     (kept ++ map (inherited_grant self)
                                  (take (length pairs + k)
                                     (owner_override (owner self) perms pairs)));
             write_budget := Some 0 |}).
Proof.
  induction perms as [|perm perms IH]; intros d kept pairs k Htable Hnd Hkept.
  - simpl. rewrite <- Htable, with_objectpermission_id.
    destruct (decide (length pairs ≤ length pairs + k)%nat); [|lia].
    do 3 f_equal. lia.
  - simpl. unfold bind at 1. unfold get_or_create at 1. unfold bind at 1.
    rewrite qs_all_run. simpl db.
    rewrite (owner_rows self d kept pairs) by done.
    case_bool_decide as Hin.
    + unfold ret at 1. apply (IH d kept pairs k); done.
    + destruct (owner_override_prefix (owner self) perms
                  (pairs ++ [(owner self, perm_pk perm)])) as [added Hadded].
      destruct k as [|k].
      * simpl. rewrite Hadded. rewrite !length_app. simpl.
        destruct (decide _); [lia|].
        rewrite Nat.add_0_r, <- app_assoc, take_app_length.
        now rewrite <- Htable, with_objectpermission_id.
      * change (objects_create
                  (inherited_grant self (owner self, perm_pk perm))
                  {| db := d; write_budget := Some (S k) |})
          with (Return tt,
                {| db := with_objectpermission d
                           (kpi_objectpermission d
                            ++ [inherited_grant self (owner self, perm_pk perm)]);
                   write_budget := Some k |}).
        cbv beta iota.
        rewrite (IH _ kept (pairs ++ [(owner self, perm_pk perm)]) k).
        -- rewrite !length_app. simpl length.
           replace (length pairs + 1 + k)%nat with (length pairs + S k)%nat
             by lia.
           reflexivity.
        -- simpl. rewrite Htable, map_app, <- app_assoc. done.
        -- apply NoDup_app. split; [done|]. split; [|apply NoDup_singleton].
           intros x Hx Hx'. apply list_elem_of_singleton in Hx'. congruence.
        -- done.
Qed.

(** A recalculation on a store that accepts [k] more writes after the
    delete. *)
Lemma recalculate_budget self d k :
  _recalculate_inherited_perms self {| db := d; write_budget := Some (S k) |}
  = if decide (length (regenerated self d) ≤ k)%nat
    then (Return tt,
          {| db := recalculated self d;
             write_budget := Some (k - length (regenerated self d)) |})
    else (Raise DatabaseError,
          {| db := with_objectpermission d
                     (rows_without d (inherited_on (pk self))
                      ++ map (inherited_grant self)
                             (take k (regenerated self d)));
             write_budget := Some 0 |}).
Proof.
  unfold _recalculate_inherited_perms, recalculated, regenerated.
  erewrite bind_return by reflexivity.
  fold (inherited_on (pk self)). fold (cleared self d).
  destruct (parent self) as [parent_pk|].
  - erewrite bind_return by apply _effective_perms_run.
    simpl db.
    set (l := elements (effective (cleared self d) parent_pk [])).
    destruct (owner_override_prefix (owner self) (collection_permissions d) l)
      as [added Hadded].
    pose proof (for_each_create_budget (inherited_grant self) l
                  (cleared self d) k) as Hloop.
    destruct (decide (length l ≤ k)%nat) as [Hl|Hl].
    + erewrite bind_return by exact Hloop.
      erewrite bind_return by reflexivity.
      cbv beta. simpl db.
      refine (eq_trans
                (owner_loop_budget self _ _
                   (rows_without d (inherited_on (pk self))) l
                   (k - length l) _ _ _) _).
      * reflexivity.
      * apply NoDup_elements.
      * intros r Hr. simpl in *. unfold rows_without in Hr.
        apply filter_In in Hr as [_ Hr]. now apply negb_true_iff in Hr.
      * change (List.filter
                  (λ p, bool_decide (perm_content_type p = collection_ct))
                  (auth_permission d))
          with (collection_permissions d).
        replace (length l + (k - length l))%nat with k by lia.
        reflexivity.
    + erewrite bind_raise by exact Hloop.
      rewrite Hadded, length_app.
      destruct (decide (length l + length added ≤ k)%nat); [lia|].
      rewrite take_app_le by lia. reflexivity.
  - simpl. rewrite app_nil_r, Nat.sub_0_r.
    destruct (decide (0 ≤ k)%nat); [done|lia].
Qed.

End Failure.

(** C9, as the code has it.  A recalculation opens no transaction: the
    delete and each insert is a write of its own, committed when issued.
    A complete run makes the delete and then one insert for each
    regenerated row.  On a store that fails at once the call raises and
    nothing has changed.  On a store that accepts the delete and [k] more
    writes: when the regenerated rows are no more than [k] the call
    returns with all of them in place; when they are more than [k] the
    call raises at the insert after the [k]-th, and the collection is left
    with every inherited row it had deleted and only the first [k]
    regenerated rows in place (none when [k] is 0).  In each case the
    rows that are not inherited rows of the collection, its explicit rows
    and the rows of every other object, keep their place. *)
Theorem recalculate_commits_each_write self d k :
  let kept := rows_without d (inherited_on (pk self)) in
  let inserts := map (inherited_grant self) (regenerated self d) in
  _recalculate_inherited_perms self (reliable d)
  = (Return tt, reliable (with_objectpermission d (kept ++ inserts)))
  ∧ _recalculate_inherited_perms self {| db := d; write_budget := Some 0 |}
    = (Raise DatabaseError, {| db := d; write_budget := Some 0 |})
  ∧ ((length inserts ≤ k)%nat →
     _recalculate_inherited_perms self
       {| db := d; write_budget := Some (S k) |}
     = (Return tt,
        {| db := with_objectpermission d (kept ++ inserts);
           write_budget := Some (k - length inserts) |}))
  ∧ ((k < length inserts)%nat →
     _recalculate_inherited_perms self
       {| db := d; write_budget := Some (S k) |}
     = (Raise DatabaseError,
        {| db := with_objectpermission d (kept ++ take k inserts);
           write_budget := Some 0 |}))
  ∧ (∀ j, rows_without (with_objectpermission d (kept ++ take j inserts))
            (inherited_on (pk self)) = kept
          ∧ rows_of (with_objectpermission d (kept ++ take j inserts))
              (inherited_on (pk self)) = take j inserts).
Proof.
  intros kept inserts. subst kept inserts.
  split; [apply recalculate_run|]. split; [reflexivity|].
  split; [|split].
  - intros Hk. rewrite length_map in Hk. rewrite recalculate_budget.
    destruct (decide _); [|lia]. now rewrite length_map.
  - intros Hk. rewrite length_map in Hk. rewrite recalculate_budget.
    destruct (decide _); [lia|]. now rewrite firstn_map.
  - intros j. rewrite firstn_map.
    unfold rows_without at 1, rows_of. simpl.
    rewrite !List.filter_app. split.
    + rewrite (filter_none _ (map _ _)).
      * rewrite app_nil_r. unfold rows_without.
        now apply filter_filter_implied.
      * intros r Hr. apply in_map_iff in Hr as (up & <- & _).
        now rewrite selects_inherited_grant.
    + rewrite (filter_none _ (rows_without _ _)).
      * simpl. apply filter_all. intros r Hr.
        apply in_map_iff in Hr as (up & <- & _).
        apply selects_inherited_grant.
      * intros r Hr. apply filter_In in Hr as [_ Hr].
        now apply negb_true_iff in Hr.
Qed.

(** ** The scenarios *)

(** The tables of the scenarios are those the methods produce. *)
Lemma scenario_tree_db_saved :
  (save "cA" (with_uid Scenario.A "");; save "cB" (with_uid Scenario.B ""))
    (reliable Scenario.empty_db)
  = (Return Scenario.B, reliable Scenario.tree_db).
Proof. vm_compute. reflexivity. Qed.

Lemma scenario_shared_db_assigned :
  assign_perm Scenario.perm_parse Scenario.A 3 "view_collection" false
    (reliable Scenario.tree_db)
  = (Return tt, reliable Scenario.shared_db).
Proof. vm_compute. reflexivity. Qed.

(** For a collection without parent the recalculation stops after step
    1, whoever the owner is: no inherited row of the collection is left. *)
Lemma root_recalculation_only_clears self d :
  parent self = None →
  _recalculate_inherited_perms self (reliable d)
  = (Return tt, reliable (cleared self d))
  ∧ rows_of (cleared self d) (inherited_on (pk self)) = [].
Proof.
  intros Hroot. split.
  - rewrite recalculate_run. unfold recalculated, regenerated, cleared.
    rewrite Hroot. simpl. now rewrite app_nil_r.
  - unfold rows_of, cleared; simpl. apply filter_none.
    intros r Hr. apply filter_In in Hr as [_ Hr].
    now apply negb_true_iff in Hr.
Qed.

(** Whatever the tables, [assign_perm] on a collection that holds a survey
    asset raises [NameError] as soon as it has a row to insert. *)
Lemma assign_perm_raises_NameError pp self u perm deny d a c perm_model asset :
  pp perm collection_ct = Return (a, c) →
  permission_get a c (reliable d) = (Return perm_model, reliable d) →
  rows_of d (identical_to self u (perm_pk perm_model) deny) = [] →
  asset ∈ kpi_surveyasset d →
  sa_collection asset = Some (pk self) →
  ∃ d', assign_perm pp self u perm deny (reliable d)
        = (Raise (NameError "suvey_asset"), reliable d')
        ∧ explicit_row self u (perm_pk perm_model) deny
          ∈ kpi_objectpermission d'.
Proof.
  intros Hpp Hget Hid Hin Hfk. unfold assign_perm. rewrite Hpp.
  erewrite bind_return by reflexivity. cbv beta iota.
  erewrite bind_return by exact Hget.
  erewrite bind_return by apply qs_all_run. cbv beta.
  change (db (reliable d)) with d.
  fold (identical_to self u (perm_pk perm_model) deny). rewrite Hid.
  erewrite bind_return by apply qs_delete_reliable.
  erewrite bind_return by apply objects_create_reliable.
  erewrite bind_return by reflexivity.
  eexists. split.
  - erewrite bind_raise; [reflexivity|].
    simpl. destruct (List.filter _ (kpi_surveyasset d)) as [|x l] eqn:E.
    + exfalso. assert (Hx : In asset (List.filter
        (λ a, bool_decide (sa_collection a = Some (pk self)))
        (kpi_surveyasset d))).
      { apply filter_In. split; [now apply list_elem_of_In|].
        now apply bool_decide_eq_true. }
      now rewrite E in Hx.
    + reflexivity.
  - simpl. apply elem_of_app. right. now apply list_elem_of_singleton.
Qed.

(** C2.  The root collection A of user 1 is created and saved on empty
    tables; nobody has assigned anything.  [has_perm] then answers [False]
    for the owner and [change_collection]: for a collection without parent
    the recalculation returns before the loop that gives the owner every
    permission.  The owner of the child B, saved the same way, does get
    [True]. *)
Theorem root_owner_is_not_covered :
  (self ← save "cA" (with_uid Scenario.A "");
   has_perm Scenario.perm_parse self 1 "change_collection")
    (reliable Scenario.empty_db)
  = (Return false,
     reliable (with_collection Scenario.empty_db [Scenario.A]))
  ∧ (save "cA" (with_uid Scenario.A "");;
     self ← save "cB" (with_uid Scenario.B "");
     has_perm Scenario.perm_parse self 1 "change_collection")
      (reliable Scenario.empty_db)
    = (Return true, reliable Scenario.tree_db).
Proof. split; vm_compute; reflexivity. Qed.

(** C3.  Collection A holds one survey asset and has the child B.
    [assign_perm(A, user 3, 'view_collection')] inserts the explicit row
    and then raises [NameError]: the loop over A's survey assets calls the
    method on [suvey_asset], a name that is not bound.  Neither the asset
    nor B is recalculated, and [has_perm(B, user 3, 'view_collection')]
    still answers [False]. *)
Theorem assign_perm_raises_with_attached_asset :
  assign_perm Scenario.perm_parse Scenario.A 3 "view_collection" false
    (reliable Scenario.tree_with_asset_db)
  = (Raise (NameError "suvey_asset"),
     reliable (with_objectpermission Scenario.tree_with_asset_db
                 (kpi_objectpermission Scenario.tree_db
                  ++ [Scenario.grant 1 3 4 false])))
  ∧ has_perm Scenario.perm_parse Scenario.B 3 "view_collection"
      (assign_perm Scenario.perm_parse Scenario.A 3 "view_collection" false
         (reliable Scenario.tree_with_asset_db)).2
    = (Return false,
       (assign_perm Scenario.perm_parse Scenario.A 3 "view_collection" false
          (reliable Scenario.tree_with_asset_db)).2)
  ∧ remove_perm Scenario.perm_parse Scenario.A 3 "view_collection" false
      (reliable Scenario.tree_with_asset_db)
    = (Raise (NameError "suvey_asset"), reliable Scenario.tree_with_asset_db).
Proof. repeat split; vm_compute; reflexivity. Qed.

(** ** Saving an asset *)

Import AssetModel.

Section AssetSave.

Variable adjust_content : string → string → json → outcome (string * json).
Variable analyzer_summary : json → outcome (gmap string json).
Variable populated_report_styles : string → json → json → outcome (json * json).

Lemma adjust_step self w o w' :
  _adjust_content_on_save adjust_content self w = (o, w') →
  w' = w ∧ ∀ self1, o = Return self1 →
                    same_row self1 self ∧ is_Some (content self1).
Proof.
  unfold _adjust_content_on_save. destruct (content self) as [c|].
  - destruct (adjust_content _ _ c) as [[n c']|e] eqn:E; intros Hrun.
    + erewrite bind_return in Hrun by reflexivity.
      inversion Hrun; subst. split; [done|]. intros self1 [= <-].
      split; [done|]. now exists c'.
    + erewrite bind_raise in Hrun by reflexivity.
      inversion Hrun; subst. split; [done|]. intros ? [=].
  - intros Hrun. inversion Hrun; subst. split; [done|]. intros ? [=].
Qed.

Lemma summary_step self w o w' :
  _populate_summary analyzer_summary self w = (o, w') →
  w' = w ∧ ∀ self1, o = Return self1 →
                    same_row self1 self ∧ is_Some (content self1).
Proof.
  unfold _populate_summary. destruct (content self) as [c|] eqn:Hc.
  - destruct (analyzer_summary c) as [s|e] eqn:E; intros Hrun.
    + erewrite bind_return in Hrun by reflexivity.
      inversion Hrun; subst. split; [done|]. intros self1 [= <-].
      split; [done|]. simpl. rewrite Hc. now exists c.
    + erewrite bind_raise in Hrun by reflexivity.
      inversion Hrun; subst. split; [done|]. intros ? [=].
  - intros Hrun. inversion Hrun; subst. split; [done|]. intros self1 [= <-].
    split; [done|]. now eexists.
Qed.

Lemma report_styles_step self w o w' :
  _populate_report_styles populated_report_styles self w = (o, w') →
  w' = w ∧ ∀ self1, o = Return self1 →
                    same_row self1 self ∧ summary self1 = summary self.
Proof.
  unfold _populate_report_styles. destruct (content self) as [c|].
  - destruct (populated_report_styles _ _ c) as [[r c']|e] eqn:E; intros Hrun.
    + erewrite bind_return in Hrun by reflexivity.
      inversion Hrun; subst. split; [done|]. now intros self1 [= <-].
    + erewrite bind_raise in Hrun by reflexivity.
      inversion Hrun; subst. split; [done|]. intros ? [=].
  - intros Hrun. inversion Hrun; subst. split; [done|]. intros ? [=].
Qed.

Lemma infer_asset_type_row self :
  asset_pk (infer_asset_type self) = asset_pk self
  ∧ _deployment_data (infer_asset_type self) = _deployment_data self
  ∧ summary (infer_asset_type self) = summary self.
Proof.
  unfold infer_asset_type.
  destruct (bool_decide _); [|done].
  destruct (py_eq_int _ 1); [done|]. now destruct (py_gt_int _ 1).
Qed.

(** The two writes that end [save]. *)
Lemma save_writes (cv : bool) self w o w' :
  (model_save self;;
   (if cv then asset_versions_create (snapshot self) else mret tt);;
   mret self) w = (o, w') →
  match o with
  | Return self' =>
      self' = self
      ∧ kpi_assetversion (db w')
        = kpi_assetversion (db w) ++ (if cv then [snapshot self] else [])
  | Raise _ => kpi_assetversion (db w') = kpi_assetversion (db w)
  end.
Proof.
  unfold mbind, M_bind, bind, model_save, asset_versions_create, write,
    mret, M_ret, ret.
  destruct w as [d [[|n]|]]; simpl; destruct cv; simpl;
    try (intros [= <- <-]; simpl; rewrite ?app_nil_r; done).
  destruct n; simpl; intros [= <- <-]; done.
Qed.

(** Every run of [save], taken apart: the instance before the type is
    inferred, and what the run did to the version table. *)
Lemma save_run (adj cv : bool) self w o w' :
  save adjust_content analyzer_summary populated_report_styles adj cv self w
  = (o, w') →
  match o with
  | Return self' =>
      ∃ self2,
        asset_type self2 = asset_type self
        ∧ asset_type self' = asset_type (infer_asset_type self2)
        ∧ summary self' = summary self2
        ∧ kpi_assetversion (db w')
          = kpi_assetversion (db w) ++ (if cv then [snapshot self'] else [])
  | Raise _ => kpi_assetversion (db w') = kpi_assetversion (db w)
  end.
Proof.
  unfold save.
  set (self0 := match content self with
                | Some _ => self
                | None => with_content self (asset_name self) (Some (JDict []))
                end).
  assert (H0 : asset_type self0 = asset_type self).
  { unfold self0. now destruct (content self). }
  clearbody self0. intros Hrun.
  destruct ((if adj then _adjust_content_on_save adjust_content self0
             else mret self0) w) as [[self1|e] w1] eqn:E1.
  2:{ erewrite bind_raise in Hrun by exact E1. inversion Hrun; subst.
      destruct adj; [apply adjust_step in E1 as [-> _]; done|].
      now inversion E1. }
  assert (H1 : w1 = w ∧ asset_type self1 = asset_type self0).
  { destruct adj.
    - apply adjust_step in E1 as [-> H]. split; [done|].
      now destruct (H self1 eq_refl) as [[? _] _].
    - now inversion E1. }
  destruct H1 as [-> H1].
  erewrite bind_return in Hrun by exact E1. cbv beta in Hrun.
  destruct (_populate_summary analyzer_summary self1 w)
    as [[self2|e] w2] eqn:E2.
  2:{ erewrite bind_raise in Hrun by exact E2. inversion Hrun; subst.
      now apply summary_step in E2 as [-> _]. }
  apply summary_step in E2 as E2'. destruct E2' as [-> H2].
  destruct (H2 self2 eq_refl) as [[H2t _] _].
  erewrite bind_return in Hrun by exact E2. cbv beta zeta in Hrun.
  destruct (_populate_report_styles populated_report_styles
              (infer_asset_type self2) w) as [[self4|e] w4] eqn:E4.
  2:{ erewrite bind_raise in Hrun by exact E4. inversion Hrun; subst.
      now apply report_styles_step in E4 as [-> _]. }
  apply report_styles_step in E4 as E4'. destruct E4' as [-> H4].
  destruct (H4 self4 eq_refl) as [[H4t _] H4s].
  erewrite bind_return in Hrun by exact E4. cbv beta zeta in Hrun.
  fold (snapshot self4) in Hrun.
  apply save_writes in Hrun. destruct o as [self'|e]; [|done].
  destruct Hrun as [-> Hv]. exists self2. split; [congruence|].
  split; [done|]. split; [|done].
  rewrite H4s. apply infer_asset_type_row.
Qed.

End AssetSave.

(** C7.  When [save] returns, the type of the asset is what it was, unless
    it was [question] or [block]: then, for a summary whose row count is
    the integer 1 the type is [question], and for a row count above 1 it
    is [block].  An asset of type [text], [survey] or [empty], or of any
    other type, keeps its type. *)
Theorem asset_type_inferred_on_save adjust analyze styles (adj cv : bool)
    self w self' w' :
  save adjust analyze styles adj cv self w = (Return self', w') →
  (asset_type self ∉ ["question"; "block"] →
   asset_type self' = asset_type self)
  ∧ (asset_type self ∈ ["text"; "survey"; "empty"] →
     asset_type self' = asset_type self)
  ∧ (asset_type self ∈ ["question"; "block"] →
     ∀ n, summary self' !! "row_count" = Some (JInt n) →
          (n = 1%Z → asset_type self' = "question")
          ∧ ((1 < n)%Z → asset_type self' = "block")).
Proof.
  intros Hrun. apply save_run in Hrun as (self2 & Ht & Ht' & Hs & _).
  assert (Hout : asset_type self ∉ ["question"; "block"] →
                 asset_type self' = asset_type self).
  { intros Hnot. rewrite Ht'. unfold infer_asset_type.
    rewrite Ht, bool_decide_eq_false_2 by done. done. }
  split; [done|]. split.
  - intros Hin. apply Hout. intros Hqb.
    repeat (apply elem_of_cons in Hin as [Hin|Hin];
            [rewrite Hin in Hqb;
             repeat (apply elem_of_cons in Hqb as [Hqb|Hqb]; [done|]);
             now apply elem_of_nil in Hqb|]).
    now apply elem_of_nil in Hin.
  - intros Hin n Hn. rewrite Ht'. unfold infer_asset_type, dict_get.
    rewrite Ht, bool_decide_eq_true_2 by done.
    rewrite <- Hs, Hn. simpl. split.
    + intros ->. done.
    + intros Hgt. rewrite bool_decide_eq_false_2 by lia.
      rewrite bool_decide_eq_true_2 by lia. done.
Qed.

(** C8.  A [save] that returns has appended one version row, holding the
    name, the content and the deployment data of the saved asset with
    [deployed=False], when [create_version] is true, and none when it is
    false; a [save] that raises has appended none.  In every case the
    version rows that were there are still there, unchanged and in place.
    On a store that accepts every write, [save] returns whenever the
    content tools it calls return. *)
Theorem save_appends_one_version adjust analyze styles (adj cv : bool)
    self w o w' :
  save adjust analyze styles adj cv self w = (o, w') →
  match o with
  | Return self' =>
      kpi_assetversion (db w')
      = kpi_assetversion (db w)
        ++ (if cv
            then [ {| version_asset := asset_pk self';
                      version_name := asset_name self';
                      version_content := content self';
                      version_deployment_data := _deployment_data self';
                      deployed := false |} ]
            else [])
  | Raise _ => kpi_assetversion (db w') = kpi_assetversion (db w)
  end
  ∧ ((∀ t n c, ∃ r, adjust t n c = Return r) →
     (∀ c, ∃ s, analyze c = Return s) →
     (∀ u r c, ∃ x, styles u r c = Return x) →
     write_budget w = None →
     ∃ self', o = Return self').
Proof.
  intros Hrun. split.
  - apply save_run in Hrun. destruct o as [self'|e]; [|done].
    now destruct Hrun as (_ & _ & _ & _ & Hv).
  - intros Hadj Han Hst Hw. destruct w as [d b]. simpl in Hw. subst b.
    revert Hrun. unfold save.
    set (self0 := match content self with
                  | Some _ => self
                  | None => with_content self (asset_name self) (Some (JDict []))
                  end).
    assert (H0 : ∃ c0, content self0 = Some c0).
    { unfold self0. destruct (content self) eqn:E; eauto. }
    destruct H0 as [c0 H0]. clearbody self0.
    assert (H1 : ∃ self1 c1,
      (if adj then _adjust_content_on_save adjust self0 else mret self0)
        {| db := d; write_budget := None |}
      = (Return self1, {| db := d; write_budget := None |})
      ∧ content self1 = Some c1).
    { destruct adj.
      - unfold _adjust_content_on_save. rewrite H0.
        destruct (Hadj (asset_type self0) (asset_name self0) c0)
          as [[n c1] E].
        rewrite E. eexists _, c1. split; [reflexivity|done].
      - exists self0, c0. done. }
    destruct H1 as (self1 & c1 & E1 & Hc1).
    erewrite bind_return by exact E1. cbv beta.
    unfold _populate_summary at 1. rewrite Hc1.
    destruct (Han c1) as [s Es]. rewrite Es.
    erewrite bind_return by reflexivity. cbv beta zeta.
    assert (H3 : content (infer_asset_type (with_summary self1 s)) = Some c1).
    { unfold infer_asset_type. destruct (bool_decide _); [|done].
      destruct (py_eq_int _ 1); [done|]. now destruct (py_gt_int _ 1). }
    unfold _populate_report_styles at 1. rewrite H3.
    destruct (Hst (asset_uid (infer_asset_type (with_summary self1 s)))
                  (report_styles (infer_asset_type (with_summary self1 s)))
                  c1) as [[r c'] Est].
    rewrite Est. erewrite bind_return by reflexivity. cbv beta iota.
    unfold mbind, M_bind, bind, model_save, asset_versions_create, write,
      mret, M_ret, ret.
    destruct cv; simpl; intros [= <- _]; eauto.
Qed.

(** C10.  When [save] returns for an asset of type [question] or [block]
    whose summary has no [row_count] entry, or has [None] or an integer
    below 1 (0 among them) there, the asset keeps its type. *)
Theorem asset_type_kept_without_row_count adjust analyze styles
    (adj cv : bool) self w self' w' :
  save adjust analyze styles adj cv self w = (Return self', w') →
  asset_type self ∈ ["question"; "block"] →
  (summary self' !! "row_count" = None
   ∨ summary self' !! "row_count" = Some JNull
   ∨ ∃ n, summary self' !! "row_count" = Some (JInt n) ∧ (n < 1)%Z) →
  asset_type self' = asset_type self.
Proof.
  intros Hrun Hin Hcount.
  apply save_run in Hrun as (self2 & Ht & Ht' & Hs & _).
  rewrite Ht'. unfold infer_asset_type, dict_get.
  rewrite Ht, bool_decide_eq_true_2 by done. rewrite <- Hs.
  destruct Hcount as [-> | [-> | (n & -> & Hn)]]; simpl; try done.
  rewrite !bool_decide_eq_false_2 by lia. done.
Qed.

(** ** The theorems at work on the scenarios *)

Lemma scenario_names_apart p1 p2 :
  p1 ∈ Scenario.permissions → p2 ∈ Scenario.permissions →
  codename p1 = codename p2 → perm_pk p1 = perm_pk p2.
Proof.
  intros H1 H2.
  apply list_elem_of_In in H1. apply list_elem_of_In in H2.
  simpl in H1, H2.
  repeat (destruct H1 as [<-|H1]; [|]); try done;
    repeat (destruct H2 as [<-|H2]; [|]); try done; simpl; congruence.
Qed.

(** C1 on the scenario: B is recalculated under A, on which user 3 holds
    an explicit grant. *)
Lemma recalculate_inherited_records_witness :
  parent Scenario.B = Some 1
  ∧ ∃ d' perms,
      _recalculate_inherited_perms Scenario.B (reliable Scenario.shared_db)
      = (Return tt, reliable d')
      ∧ _effective_perms 1 [] (reliable d') = (Return perms, reliable d')
      ∧ NoDup (rows_of d' (filter_for_object collection_ct 2
                             [inherited_is true])).
Proof.
  split; [reflexivity|].
  destruct (recalculate_inherited_records Scenario.B 1 Scenario.shared_db)
    as (d' & perms & Hrun & _ & Heff & Hnd & _).
  - reflexivity.
  - simpl. lia.
  - exists d', perms. split; [exact Hrun|]. split; [exact Heff|exact Hnd].
Defined.

(** C4 on the scenario: A grants user 3 [view_collection], B inherits it;
    after the denial on B, [has_perm] on B turns from [True] to [False]. *)
Lemma effective_perms_grants_minus_denials_witness :
  has_perm Scenario.perm_parse Scenario.B 3 "view_collection"
    (reliable Scenario.shared_db)
  = (Return true, reliable Scenario.shared_db)
  ∧ ∃ w',
      assign_perm Scenario.perm_parse Scenario.B 3 "view_collection" true
        (reliable Scenario.shared_db) = (Return tt, w')
      ∧ has_perm Scenario.perm_parse Scenario.B 3 "view_collection" w'
        = (Return false, w').
Proof.
  split; [vm_compute; reflexivity|].
  eexists. split; [vm_compute; reflexivity|].
  apply (proj2 effective_perms_grants_minus_denials
           Scenario.perm_parse Scenario.B 3 "view_collection"
           Scenario.shared_db).
  - exact scenario_names_apart.
  - vm_compute; reflexivity.
Defined.

(** C5 on the scenario: the grant of user 3 on A is turned into a
    denial. *)
Lemma explicit_grant_deny_exclusive_witness :
  exclusive Scenario.shared_db
  ∧ ∃ w',
      assign_perm Scenario.perm_parse Scenario.A 3 "view_collection" true
        (reliable Scenario.shared_db) = (Return tt, w')
      ∧ exclusive (db w').
Proof.
  assert (Hex : exclusive Scenario.shared_db).
  { apply (bool_decide_unpack _). vm_compute. exact I. }
  split; [exact Hex|].
  eexists. split; [vm_compute; reflexivity|].
  destruct (explicit_grant_deny_exclusive Scenario.perm_parse Scenario.A 3
              "view_collection" true Scenario.shared_db Hex) as [Hassign _].
  apply Hassign. vm_compute; reflexivity.
Defined.

(** C6 on the scenario: B is recalculated from the tables of the
    scenario, and from the same tables with a stale inherited row of
    user 9 on B; both leave the same tables, and a second recalculation
    changes nothing. *)
Lemma recalculate_idempotent_witness :
  ∃ d',
    _recalculate_inherited_perms Scenario.B (reliable Scenario.shared_db)
    = (Return tt, reliable d')
    ∧ _recalculate_inherited_perms Scenario.B
        (reliable (with_objectpermission Scenario.shared_db
                     (Scenario.grant 2 9 4 true
                      :: kpi_objectpermission Scenario.shared_db)))
      = (Return tt, reliable d')
    ∧ _recalculate_inherited_perms Scenario.B (reliable d')
      = (Return tt, reliable d').
Proof.
  destruct (recalculate_idempotent Scenario.B Scenario.shared_db)
    as (d' & pairs & Hrun & Hagain & _ & _ & _ & _ & _ & Hreplace).
  exists d'. split; [exact Hrun|]. split; [|exact Hagain].
  apply Hreplace. vm_compute. reflexivity.
Defined.

(** C9 on the scenario: a complete recalculation of B inserts six rows;
    on a store that fails at the fourth write, the delete and the first
    two inserts stay in place. *)
Lemma recalculate_commits_each_write_witness :
  (2 < length (map (inherited_grant Scenario.B)
                   (regenerated Scenario.B Scenario.shared_db)))%nat
  ∧ ∃ d',
      _recalculate_inherited_perms Scenario.B
        {| db := Scenario.shared_db; write_budget := Some 3 |}
      = (Raise DatabaseError, {| db := d'; write_budget := Some 0 |})
      ∧ rows_of d' (filter_for_object collection_ct 2 [inherited_is true])
        = [Scenario.grant 2 3 4 true; Scenario.grant 2 1 1 true].
Proof.
  assert (Hlt : (2 < length (map (inherited_grant Scenario.B)
                               (regenerated Scenario.B Scenario.shared_db)))%nat).
  { apply (bool_decide_unpack _). vm_compute. exact I. }
  split; [exact Hlt|].
  eexists. split.
  - exact (proj1 (proj2 (proj2 (proj2
             (recalculate_commits_each_write Scenario.B Scenario.shared_db 2))))
             Hlt).
  - vm_compute. reflexivity.
Defined.

(** C9 on a failing store.  B holds six inherited rows.  The store fails
    at the second write of the recalculation of B: the call raises, and B
    is left with no row at all. *)
Lemma recalculate_failure_is_not_rolled_back :
  rows_of Scenario.shared_db (filter_for_object collection_ct 2 [])
  = [Scenario.grant 2 3 4 true;
     Scenario.grant 2 1 1 true; Scenario.grant 2 1 2 true;
     Scenario.grant 2 1 3 true; Scenario.grant 2 1 4 true;
     Scenario.grant 2 1 5 true]
  ∧ _recalculate_inherited_perms Scenario.B
      {| db := Scenario.shared_db; write_budget := Some 1 |}
    = (Raise DatabaseError,
       {| db := with_objectpermission Scenario.shared_db
                  [Scenario.grant 1 3 4 false];
          write_budget := Some 0 |})
  ∧ rows_of (with_objectpermission Scenario.shared_db
               [Scenario.grant 1 3 4 false])
            (filter_for_object collection_ct 2 [])
    = [].
Proof. repeat split; vm_compute; reflexivity. Qed.


(** C7 on a scenario: a question whose content now counts three rows is
    saved, and is a block. *)
Lemma asset_type_inferred_on_save_witness :
  ∃ self' w',
    save AssetScenario.adjust (AssetScenario.analyze 3) AssetScenario.styles
      true true AssetScenario.question (reliable Scenario.empty_db)
    = (Return self', w')
    ∧ asset_type self' = "block".
Proof.
  eexists _, _. split; [vm_compute; reflexivity|].
  refine (proj2 (proj2 (proj2 (asset_type_inferred_on_save
    AssetScenario.adjust (AssetScenario.analyze 3) AssetScenario.styles
    true true AssetScenario.question (reliable Scenario.empty_db) _ _ _))
    _ 3%Z _) _).
  - vm_compute; reflexivity.
  - apply (bool_decide_unpack _). vm_compute. exact I.
  - vm_compute; reflexivity.
  - lia.
Defined.

(** C8 on a scenario: the save of the question appends its snapshot to
    the empty version table. *)
Lemma save_appends_one_version_witness :
  ∃ self' w',
    save AssetScenario.adjust (AssetScenario.analyze 3) AssetScenario.styles
      true true AssetScenario.question (reliable Scenario.empty_db)
    = (Return self', w')
    ∧ kpi_assetversion (db w')
      = [ {| version_asset := 1; version_name := "q";
             version_content := Some (JDict []);
             version_deployment_data := JDict []; deployed := false |} ].
Proof.
  eexists _, _.
  match goal with
  | |- ?run = (Return ?s, ?w) ∧ _ =>
      assert (Hrun : run = (Return s, w)) by (vm_compute; reflexivity)
  end.
  split; [exact Hrun|].
  exact (proj1 (save_appends_one_version _ _ _ _ _ _ _ _ _ Hrun)).
Defined.

(** C10 on a scenario: the question is saved with a summary that has no
    row count, and is still a question. *)
Lemma asset_type_kept_without_row_count_witness :
  ∃ self' w',
    save AssetScenario.adjust AssetScenario.analyze_nothing
      AssetScenario.styles true true AssetScenario.question
      (reliable Scenario.empty_db)
    = (Return self', w')
    ∧ asset_type self' = "question".
Proof.
  eexists _, _. split; [vm_compute; reflexivity|].
  refine (asset_type_kept_without_row_count
    AssetScenario.adjust AssetScenario.analyze_nothing AssetScenario.styles
    true true AssetScenario.question (reliable Scenario.empty_db) _ _ _ _ _).
  - vm_compute; reflexivity.
  - apply (bool_decide_unpack _). vm_compute. exact I.
  - left. vm_compute; reflexivity.
Defined.

(** ** More on the collection methods *)

Section CascadeRun.

Lemma has_assets_recalculated c c' d :
  has_assets (recalculated c d) c' = has_assets d c'.
Proof. reflexivity. Qed.

(** The loop over the descendants, run on a store that accepts every
    write. *)
Lemma cascade_run cs : ∀ d,
  for_each cs (λ descendant,
    _recalculate_inherited_perms descendant;;
    assets ← survey_assets descendant;
    recalculate_survey_assets assets) (reliable d)
  = (if existsb (has_assets d) cs
     then Raise (NameError "suvey_asset") else Return tt,
     reliable (cascaded cs d)).
Proof.
  induction cs as [|c cs IH]; intros d; [reflexivity|].
  simpl for_each. unfold bind at 1.
  erewrite bind_return by apply recalculate_run.
  erewrite bind_return by reflexivity.
  simpl existsb. simpl cascaded. unfold has_assets at 1 3, attached.
  change (kpi_surveyasset (db (reliable (recalculated c d))))
    with (kpi_surveyasset d).
  destruct (List.filter _ (kpi_surveyasset d)) as [|a l].
  - simpl. rewrite IH. reflexivity.
  - reflexivity.
Qed.

Lemma cascaded_auth cs : ∀ d,
  auth_permission (cascaded cs d) = auth_permission d
  ∧ kpi_collection (cascaded cs d) = kpi_collection d
  ∧ kpi_surveyasset (cascaded cs d) = kpi_surveyasset d.
Proof.
  induction cs as [|c cs IH]; intros d; simpl; [done|].
  destruct (has_assets d c); [done|]. apply (IH (recalculated c d)).
Qed.

(** The loop touches the rows of the collections it visits only. *)
Lemma rows_of_cascaded_other cs q : ∀ d,
  Forall (λ c, pk c ≠ qs_id q) cs →
  rows_of (cascaded cs d) q = rows_of d q.
Proof.
  induction cs as [|c cs IH]; intros d Hcs; simpl; [done|].
  apply Forall_cons in Hcs as [Hc Hcs].
  destruct (has_assets d c).
  - now apply rows_of_recalculated_other.
  - rewrite IH by done. now apply rows_of_recalculated_other.
Qed.

Lemma effective_cascaded_other cs p kwargs d :
  Forall (λ c, pk c ≠ p) cs →
  effective (cascaded cs d) p kwargs = effective d p kwargs.
Proof.
  intros Hcs. unfold effective. now rewrite !rows_of_cascaded_other.
Qed.

Lemma regenerated_ext c d d' :
  auth_permission d' = auth_permission d →
  (∀ p, parent c = Some p → effective d' p [] = effective d p []) →
  parent c ≠ Some (pk c) →
  regenerated c d' = regenerated c d.
Proof.
  intros Hauth Heff Hne. unfold regenerated, collection_permissions.
  rewrite Hauth. destruct (parent c) as [p|]; [|done].
  rewrite !effective_cleared_other by congruence. now rewrite Heff.
Qed.

(** Once the loop has gone through a parent-first list, a further
    recalculation of any of its collections regenerates the inherited
    rows the collection already holds. *)
Lemma cascaded_settled cs : ∀ d c,
  parent_first cs →
  existsb (has_assets d) cs = false →
  c ∈ cs →
  rows_of (recalculated c (cascaded cs d)) (inherited_on (pk c))
  = rows_of (cascaded cs d) (inherited_on (pk c)).
Proof.
  induction cs as [|c0 cs IH]; intros d c Hpf Hassets Hin.
  { now apply elem_of_nil in Hin. }
  simpl in Hpf. destruct Hpf as (Hself & Hrest & Hpf).
  simpl in Hassets. apply orb_false_iff in Hassets as [Hc0 Hassets].
  simpl. rewrite Hc0.
  apply elem_of_cons in Hin as [->|Hin].
  - rewrite inherited_rows_recalculated.
    rewrite (rows_of_cascaded_other cs (inherited_on (pk c0))).
    2:{ eapply Forall_impl; [exact Hrest|]. simpl. intros c' [? _]. done. }
    rewrite inherited_rows_recalculated. f_equal.
    transitivity (regenerated c0 (recalculated c0 d)).
    + apply regenerated_ext; [| |done].
      * destruct (cascaded_auth cs (recalculated c0 d)) as [-> _]. done.
      * intros p Hp. apply effective_cascaded_other.
        eapply Forall_impl; [exact Hrest|]. simpl. intros c' [_ ?]. congruence.
    + apply regenerated_ext; [done| |done].
      intros p Hp. apply effective_recalculated_other. congruence.
  - apply IH; [done|exact Hassets|done].
Qed.

End CascadeRun.

Section MethodRuns.

Lemma cascade_tail_run self d :
  (assets ← survey_assets self;
   recalculate_survey_assets assets;;
   recalculate_descendants self) (reliable d)
  = (tail_outcome self d, reliable (tail_tables self d)).
Proof.
  erewrite bind_return by reflexivity.
  unfold tail_outcome, tail_tables, has_assets at 1 3, attached.
  change (kpi_surveyasset (db (reliable d))) with (kpi_surveyasset d).
  destruct (List.filter _ (kpi_surveyasset d)) as [|x l].
  - erewrite bind_return by reflexivity. simpl orb.
    unfold recalculate_descendants.
    erewrite bind_return by reflexivity. apply cascade_run.
  - reflexivity.
Qed.

Lemma assign_perm_run pp self u perm deny d a c perm_model :
  pp perm collection_ct = Return (a, c) →
  permission_get a c (reliable d) = (Return perm_model, reliable d) →
  rows_of d (identical_to self u (perm_pk perm_model) deny) = [] →
  assign_perm pp self u perm deny (reliable d)
  = (tail_outcome self (assigned self u (perm_pk perm_model) deny d),
     reliable (tail_tables self (assigned self u (perm_pk perm_model) deny d))).
Proof.
  intros Hpp Hget Hid. unfold assign_perm. rewrite Hpp.
  erewrite bind_return by reflexivity. cbv beta iota.
  erewrite bind_return by exact Hget.
  erewrite bind_return by apply qs_all_run. cbv beta.
  change (db (reliable d)) with d.
  fold (identical_to self u (perm_pk perm_model) deny). rewrite Hid.
  erewrite bind_return by apply qs_delete_reliable.
  erewrite bind_return by apply objects_create_reliable.
  apply cascade_tail_run.
Qed.

Lemma remove_perm_run pp self u perm deny d a c :
  pp perm collection_ct = Return (a, c) →
  remove_perm pp self u perm deny (reliable d)
  = (tail_outcome self (removed self u c deny d),
     reliable (tail_tables self (removed self u c deny d))).
Proof.
  intros Hpp. unfold remove_perm. rewrite Hpp.
  erewrite bind_return by reflexivity. cbv beta iota.
  erewrite bind_return by apply qs_delete_reliable.
  apply cascade_tail_run.
Qed.

Lemma tail_outcome_returns self d :
  tail_outcome self d = Return tt →
  has_assets d self = false
  ∧ existsb (has_assets d) (descendants_of d self) = false
  ∧ tail_tables self d = cascaded (descendants_of d self) d.
Proof.
  unfold tail_outcome, tail_tables.
  destruct (has_assets d self); simpl; [done|].
  destruct (existsb _ _); done.
Qed.

End MethodRuns.

(** X1.  A recalculation returns, and deletes or inserts inherited rows
    of its own collection only: every other row of the permission table
    (explicit rows, rows of other objects) stays, in number and in place,
    and no other table changes. *)
Theorem recalculate_keeps_other_rows self d :
  ∃ d',
    _recalculate_inherited_perms self (reliable d) = (Return tt, reliable d')
    ∧ List.filter
        (λ r, negb (bool_decide (object_ct r = collection_ct
                                 ∧ object_id r = pk self
                                 ∧ inherited r = true)))
        (kpi_objectpermission d')
      = List.filter
          (λ r, negb (bool_decide (object_ct r = collection_ct
                                   ∧ object_id r = pk self
                                   ∧ inherited r = true)))
          (kpi_objectpermission d)
    ∧ auth_permission d' = auth_permission d
    ∧ kpi_collection d' = kpi_collection d
    ∧ kpi_surveyasset d' = kpi_surveyasset d
    ∧ kpi_asset d' = kpi_asset d
    ∧ kpi_assetversion d' = kpi_assetversion d.
Proof.
  exists (recalculated self d). split; [apply recalculate_run|].
  split; [|done].
  assert (Hext : ∀ r,
    negb (bool_decide (object_ct r = collection_ct ∧ object_id r = pk self
                       ∧ inherited r = true))
    = negb (selects (auth_permission d) (inherited_on (pk self)) r)).
  { intros r. f_equal. unfold selects, inherited_on; simpl.
    rewrite andb_true_r.
    repeat case_bool_decide; simpl; tauto. }
  rewrite !(List.filter_ext _ _ Hext).
  apply (rows_without_recalculated self d).
Qed.

Section MoreExclusivity.

Lemma selects_removal perms self u c deny r :
  selects perms (removal self u c deny) r = true
  ↔ object_ct r = collection_ct ∧ object_id r = pk self ∧ user_id r = u
    ∧ ORM.deny r = deny ∧ inherited r = false
    ∧ ∃ p, p ∈ perms ∧ perm_pk p = permission_id r ∧ codename p = c.
Proof.
  unfold selects, removal; simpl.
  rewrite !andb_true_iff, !bool_decide_eq_true, existsb_exists. split.
  - intros ((Hct & Hid) & Hu & (p & Hp & Hp') & Hd & Hi & _).
    apply andb_true_iff in Hp' as [H1 H2].
    apply bool_decide_eq_true in H1, H2.
    repeat split; try done. exists p. split; [now apply list_elem_of_In|done].
  - intros (Hct & Hid & Hu & Hd & Hi & p & Hp & H1 & H2).
    repeat split; try done. exists p. split; [now apply list_elem_of_In|].
    apply andb_true_iff. split; now apply bool_decide_eq_true.
Qed.

Lemma filter_commute {A} (f g : A → bool) l :
  List.filter f (List.filter g l) = List.filter g (List.filter f l).
Proof.
  induction l as [|x l IH]; simpl; [done|].
  destruct (f x) eqn:Ef, (g x) eqn:Eg; simpl; rewrite ?Ef, ?Eg, IH; done.
Qed.

End MoreExclusivity.

(** X2.  When [remove_perm] returns, the explicit rows of the permission
    table are those it found, less the explicit rows of the collection
    for that user and that [deny] value whose permission has the
    codename asked for; no explicit row is added or altered. *)
Theorem remove_perm_deletes_named_rows pp self u perm deny d a c w' :
  pp perm collection_ct = Return (a, c) →
  remove_perm pp self u perm deny (reliable d) = (Return tt, w') →
  ∀ r, (r ∈ kpi_objectpermission (db w') ∧ inherited r = false)
       ↔ (r ∈ kpi_objectpermission d ∧ inherited r = false
          ∧ ¬ (object_ct r = collection_ct ∧ object_id r = pk self
               ∧ user_id r = u ∧ ORM.deny r = deny
               ∧ ∃ p, p ∈ auth_permission d
                      ∧ perm_pk p = permission_id r ∧ codename p = c)).
Proof.
  intros Hpp Hrun r.
  apply remove_perm_returns in Hrun as (a' & c' & d' & Hpp' & -> & _ & Hrows).
  rewrite Hpp in Hpp'. injection Hpp' as <- <-. simpl.
  rewrite <- (elem_of_explicit_rows d'), Hrows.
  rewrite list_elem_of_In, filter_In. unfold rows_without.
  rewrite filter_In, !negb_true_iff, <- list_elem_of_In.
  fold (removal self u c deny).
  rewrite <- not_true_iff_false, selects_removal. tauto.
Qed.

(** X3.  For a user who holds no explicit row on the collection for the
    codename, [assign_perm] followed by [remove_perm] of the same
    permission, when both return, leaves the explicit rows of the
    permission table as they were, in number and in place. *)
Theorem assign_then_remove_restores_explicit_rows pp self u perm deny d a c w' :
  pp perm collection_ct = Return (a, c) →
  rows_of d (filter_for_object collection_ct (pk self)
               [user_is u; permission__codename_is c; inherited_is false])
  = [] →
  (assign_perm pp self u perm deny;; remove_perm pp self u perm deny)
    (reliable d) = (Return tt, w') →
  List.filter (λ r, negb (inherited r)) (kpi_objectpermission (db w'))
  = List.filter (λ r, negb (inherited r)) (kpi_objectpermission d).
Proof.
  intros Hpp Hnone Hrun.
  assert (Hfree : ∀ r deny', In r (kpi_objectpermission d) →
            selects (auth_permission d) (removal self u c deny') r = false).
  { intros r deny' Hr.
    destruct (selects _ (removal self u c deny') r) eqn:E; [|done].
    exfalso. apply selects_removal in E
      as (Hct & Hid & Hu & _ & Hi & p & Hp & H1 & H2).
    assert (Hin : In r (rows_of d (filter_for_object collection_ct (pk self)
               [user_is u; permission__codename_is c; inherited_is false]))).
    { apply filter_In. split; [done|]. unfold selects; simpl.
      rewrite !andb_true_iff, !bool_decide_eq_true, existsb_exists.
      repeat split; try done. exists p.
      split; [now apply list_elem_of_In|].
      apply andb_true_iff. split; now apply bool_decide_eq_true. }
    now rewrite Hnone in Hin. }
  destruct (assign_perm pp self u perm deny (reliable d))
    as [[[]|e] w1] eqn:Hassign.
  2:{ erewrite bind_raise in Hrun by exact Hassign. congruence. }
  erewrite bind_return in Hrun by exact Hassign.
  apply assign_perm_returns in Hassign
    as (a' & c' & pm & d1 & Hpp' & Hget & -> & Hauth & Hcase).
  rewrite Hpp in Hpp'. injection Hpp' as <- <-.
  apply permission_get_found in Hget as [Hpm Hc]. simpl in Hpm.
  assert (Hsel : ∀ deny', selects (auth_permission d) (removal self u c deny')
                            (explicit_row self u (perm_pk pm) deny') = true).
  { intros deny'. apply selects_removal. simpl. repeat split; try done.
    now exists pm. }
  destruct Hcase as [[Hid _]|[_ Hrows1]].
  { exfalso. apply Hid. apply filter_none. intros r Hr.
    destruct (selects _ _ r) eqn:E; [|done].
    apply selects_identical in E as ->.
    specialize (Hfree _ deny Hr). now rewrite Hsel in Hfree. }
  apply remove_perm_returns in Hrun
    as (a' & c' & d' & Hpp' & -> & _ & Hrows).
  rewrite Hpp in Hpp'. injection Hpp' as <- <-. simpl.
  fold (explicit_rows d') (explicit_rows d). rewrite Hrows.
  unfold rows_without. rewrite filter_commute.
  fold (explicit_rows d1). rewrite Hrows1, Hauth.
  fold (removal self u c deny).
  rewrite List.filter_app. simpl. rewrite Hsel. simpl. rewrite app_nil_r.
  unfold rows_without. rewrite (filter_all _ (kpi_objectpermission d)).
  - apply filter_all. intros r Hr. apply filter_In in Hr as [Hr _].
    apply negb_true_iff. now apply Hfree.
  - intros r Hr. apply negb_true_iff.
    destruct (selects _ (contradicting _ _ _ _) r) eqn:E; [|done].
    apply selects_contradicting in E as ->.
    specialize (Hfree _ (negb deny) Hr). now rewrite Hsel in Hfree.
Qed.

Section Settling.

Lemma cascaded_settles cs d c :
  parent_first cs →
  existsb (has_assets d) cs = false →
  c ∈ cs →
  settled (reliable (cascaded cs d)) c.
Proof.
  intros Hpf Hassets Hin. exists (recalculated c (cascaded cs d)).
  split; [apply recalculate_run|].
  now apply (cascaded_settled cs d c).
Qed.

Lemma tail_settles self d w' c :
  parent_first (descendants_of d self) →
  (tail_outcome self d, reliable (tail_tables self d)) = (Return tt, w') →
  c ∈ descendants_of d self →
  settled w' c.
Proof.
  intros Hpf [= Hout <-] Hin.
  apply tail_outcome_returns in Hout as (_ & Hassets & ->).
  now apply cascaded_settles.
Qed.

End Settling.

(** X4.  Let the descendants of a collection come parent first.  When
    [remove_perm] on the collection returns, every descendant reflects
    its parent: a further recalculation of the descendant would
    regenerate exactly the inherited rows it holds.  When [assign_perm]
    returns, either it has changed nothing (the explicit row was there)
    or the same holds. *)
Theorem cascade_settles_descendants pp self u perm deny d :
  parent_first (descendants_of d self) →
  (∀ w', remove_perm pp self u perm deny (reliable d) = (Return tt, w') →
         ∀ c, c ∈ descendants_of d self → settled w' c)
  ∧ (∀ w', assign_perm pp self u perm deny (reliable d) = (Return tt, w') →
           w' = reliable d
           ∨ ∀ c, c ∈ descendants_of d self → settled w' c).
Proof.
  intros Hpf. split.
  - intros w' Hrun c Hin.
    destruct (pp perm collection_ct) as [[a c0]|e] eqn:Hpp.
    + rewrite (remove_perm_run pp self u perm deny d a c0 Hpp) in Hrun.
      now apply (tail_settles self (removed self u c0 deny d)).
    + unfold remove_perm in Hrun. rewrite Hpp in Hrun.
      erewrite bind_raise in Hrun by reflexivity. congruence.
  - intros w' Hrun.
    pose proof (assign_perm_returns _ _ _ _ _ _ _ Hrun)
      as (a & c0 & pm & d' & Hpp & Hget & -> & _ & Hcase).
    destruct (rows_of d (identical_to self u (perm_pk pm) deny))
      as [|r rows] eqn:Hid.
    + right. intros c Hin.
      rewrite (assign_perm_run pp self u perm deny d a c0 pm Hpp Hget Hid)
        in Hrun.
      now apply (tail_settles self (assigned self u (perm_pk pm) deny d)).
    + left. destruct Hcase as [[_ ->]|[? _]]; [done|congruence].
Qed.

Section SaveRun.

Lemma model_save_stores self d :
  self ∈ (if existsb (λ c, bool_decide (pk c = pk self)) (kpi_collection d)
          then map (λ c, if bool_decide (pk c = pk self) then self else c)
                   (kpi_collection d)
          else kpi_collection d ++ [self]).
Proof.
  destruct (existsb _ _) eqn:E.
  - apply existsb_exists in E as (c & Hc & Hpk).
    apply list_elem_of_In, in_map_iff. exists c. split; [|done].
    now rewrite Hpk.
  - apply elem_of_app. right. now apply list_elem_of_singleton.
Qed.

Lemma tail_tables_collection self d :
  kpi_collection (tail_tables self d) = kpi_collection d.
Proof.
  unfold tail_tables. destruct (has_assets d self); [done|].
  apply cascaded_auth.
Qed.

End SaveRun.

Lemma recalculate_descendants_run self d :
  recalculate_descendants self (reliable d)
  = (if existsb (has_assets d) (descendants_of d self)
     then Raise (NameError "suvey_asset") else Return tt,
     reliable (cascaded (descendants_of d self) d)).
Proof.
  unfold recalculate_descendants.
  erewrite bind_return by reflexivity. apply cascade_run.
Qed.

Lemma save_tail_run self d :
  (assets ← survey_assets self;
   recalculate_survey_assets assets;;
   recalculate_descendants self;;
   ret self) (reliable d)
  = (if has_assets d self || existsb (has_assets d) (descendants_of d self)
     then Raise (NameError "suvey_asset") else Return self,
     reliable (tail_tables self d)).
Proof.
  erewrite bind_return by reflexivity. cbv beta.
  unfold tail_tables, has_assets at 1 3, attached.
  change (kpi_surveyasset (db (reliable d))) with (kpi_surveyasset d).
  destruct (List.filter _ (kpi_surveyasset d)) as [|x l].
  - erewrite bind_return by reflexivity. simpl orb.
    destruct (existsb _ _) eqn:E.
    + erewrite bind_raise; [reflexivity|].
      rewrite recalculate_descendants_run, E. reflexivity.
    + erewrite bind_return; [reflexivity|].
      rewrite recalculate_descendants_run, E. reflexivity.
  - reflexivity.
Qed.

(** X5.  [Collection.save] stores the row, with the generated uid when the
    uid was empty and with its own uid otherwise, and recalculates the
    collection.  It then raises [NameError] when the collection, or a
    collection below it, holds a survey asset, and returns otherwise; the
    row is stored in both cases. *)
Theorem collection_save_outcome generated_uid self d :
  let self' := if bool_decide (uid self = "")
               then with_uid self generated_uid else self in
  ∃ d1 d',
    CollectionModel.model_save self' (reliable d) = (Return tt, reliable d1)
    ∧ CollectionModel.save generated_uid self (reliable d)
      = (if has_assets d self'
            || existsb (has_assets d) (descendants_of d1 self')
         then Raise (NameError "suvey_asset") else Return self',
         reliable d')
    ∧ self' ∈ kpi_collection d'
    ∧ (uid self ≠ "" → uid self' = uid self)
    ∧ (uid self = "" → uid self' = generated_uid).
Proof.
  intros self'.
  set (d1 := with_collection d
    (if existsb (λ c, bool_decide (pk c = pk self')) (kpi_collection d)
     then map (λ c, if bool_decide (pk c = pk self') then self' else c)
              (kpi_collection d)
     else kpi_collection d ++ [self'])).
  exists d1, (tail_tables self' (recalculated self' d1)).
  split; [reflexivity|]. split; [|split; [|split]].
  - unfold CollectionModel.save. fold self'.
    erewrite bind_return by reflexivity.
    erewrite bind_return by apply recalculate_run.
    exact (save_tail_run self' (recalculated self' d1)).
  - rewrite tail_tables_collection. simpl. apply model_save_stores.
  - intros Hne. unfold self'. now rewrite bool_decide_eq_false_2.
  - intros He. unfold self'. now rewrite bool_decide_eq_true_2.
Qed.

Section NamedPermissions.

Lemma recorded_named d self_pk u c pm deny u' p :
  pm ∈ auth_permission d → codename pm = c → names_apart d →
  recorded d self_pk [user_is u; permission__codename_is c] deny u' p
  ↔ u' = u ∧ p = perm_pk pm ∧ recorded d self_pk [] deny u (perm_pk pm).
Proof.
  intros Hpm Hc Hnames. unfold recorded. split.
  - intros (r & Hr & Hct & Hid & Hd & Hkw & <- & <-).
    assert (Hu := Hkw (user_is u) ltac:(set_solver)).
    assert (Hcode := Hkw (permission__codename_is c) ltac:(set_solver)).
    simpl in Hu, Hcode. apply bool_decide_eq_true in Hu.
    apply existsb_exists in Hcode as (q & Hq & Hq').
    apply andb_true_iff in Hq' as [Hq1 Hq2].
    apply bool_decide_eq_true in Hq1, Hq2.
    assert (Hpk : perm_pk q = perm_pk pm).
    { apply Hnames; [now apply list_elem_of_In|done|congruence]. }
    split; [done|]. split; [congruence|].
    exists r. repeat split; try done; [|congruence].
    intros k Hk. now apply elem_of_nil in Hk.
  - intros (-> & -> & r & Hr & Hct & Hid & Hd & _ & Hu & Hp).
    exists r. repeat split; try done.
    intros k Hk. apply elem_of_cons in Hk as [->|Hk].
    { simpl. now apply bool_decide_eq_true. }
    apply list_elem_of_singleton in Hk as ->. simpl.
    apply existsb_exists. exists pm. split; [now apply list_elem_of_In|].
    apply andb_true_iff. split; now apply bool_decide_eq_true.
Qed.

Lemma effective_named d self_pk u c pm :
  pm ∈ auth_permission d → codename pm = c → names_apart d →
  effective d self_pk [user_is u; permission__codename_is c]
  = if bool_decide ((u, perm_pk pm) ∈ effective d self_pk [])
    then {[ (u, perm_pk pm) ]} else ∅.
Proof.
  intros Hpm Hc Hnames. apply set_eq. intros [u' p].
  rewrite elem_of_effective, !(recorded_named d self_pk u c pm) by done.
  case_bool_decide as Hin; rewrite elem_of_effective in Hin.
  - rewrite elem_of_singleton. split.
    + intros [(-> & -> & _) _]. done.
    + intros [= -> ->]. destruct Hin as [Hg Hd]. split; [done|].
      intros (_ & _ & ?). done.
  - rewrite elem_of_empty. split; [|done].
    intros [(-> & -> & Hg) Hd]. apply Hin. split; [done|].
    intros Hd'. apply Hd. done.
Qed.

Lemma has_perm_value pp self u perm a c pm w :
  pp perm collection_ct = Return (a, c) →
  pm ∈ auth_permission (db w) → codename pm = c → names_apart (db w) →
  has_perm pp self u perm w
  = (Return (bool_decide ((u, perm_pk pm) ∈ effective (db w) (pk self) [])), w).
Proof.
  intros Hpp Hpm Hc Hnames. unfold has_perm. rewrite Hpp.
  erewrite bind_return by reflexivity. cbv beta iota.
  erewrite bind_return by apply _effective_perms_run.
  rewrite (effective_named (db w) (pk self) u c pm) by done.
  unfold ret. f_equal. f_equal.
  destruct (decide ((u, perm_pk pm) ∈ effective (db w) (pk self) []))
    as [Hin|Hin].
  - rewrite !(bool_decide_eq_true_2 _ Hin), size_singleton.
    now rewrite bool_decide_eq_true_2.
  - rewrite !(bool_decide_eq_false_2 _ Hin), size_empty.
    now rewrite bool_decide_eq_false_2.
Qed.

Lemma has_perm_unknown pp self u perm a c w :
  pp perm collection_ct = Return (a, c) →
  (∀ p, p ∈ auth_permission (db w) → codename p ≠ c) →
  has_perm pp self u perm w = (Return false, w).
Proof.
  intros Hpp Hnone. unfold has_perm. rewrite Hpp.
  erewrite bind_return by reflexivity. cbv beta iota.
  erewrite bind_return by apply _effective_perms_run.
  assert (Hempty : effective (db w) (pk self)
                     [user_is u; permission__codename_is c] = ∅).
  { apply elem_of_equiv_empty_L. intros [u' p] Hup.
    apply elem_of_effective in Hup as [(r & _ & _ & _ & _ & Hkw & _) _].
    assert (Hcode := Hkw (permission__codename_is c) ltac:(set_solver)).
    simpl in Hcode. apply existsb_exists in Hcode as (q & Hq & Hq').
    apply andb_true_iff in Hq' as [_ Hq2]. apply bool_decide_eq_true in Hq2.
    apply (Hnone q); [now apply list_elem_of_In|done]. }
  rewrite Hempty. reflexivity.
Qed.

End NamedPermissions.

(** X6.  Where a codename names one permission, [has_perm] tells whether
    the user and that permission are a pair of the effective permissions
    of the collection; for a codename that names no permission it
    answers [False]. *)
Theorem has_perm_reads_effective_perms pp self u perm a c w :
  pp perm collection_ct = Return (a, c) →
  names_apart (db w) →
  (∀ pm, pm ∈ auth_permission (db w) → codename pm = c →
         ∃ perms,
           _effective_perms (pk self) [] w = (Return perms, w)
           ∧ has_perm pp self u perm w
             = (Return (bool_decide ((u, perm_pk pm) ∈ perms)), w))
  ∧ ((∀ p, p ∈ auth_permission (db w) → codename p ≠ c) →
     has_perm pp self u perm w = (Return false, w)).
Proof.
  intros Hpp Hnames. split.
  - intros pm Hpm Hc. exists (effective (db w) (pk self) []).
    split; [apply _effective_perms_run|].
    now apply (has_perm_value pp self u perm a c pm w).
  - now apply (has_perm_unknown pp self u perm a c w).
Qed.

Section Composition.

Lemma explicit_rows_cascaded cs : ∀ d,
  explicit_rows (cascaded cs d) = explicit_rows d.
Proof.
  induction cs as [|c cs IH]; intros d; simpl; [done|].
  destruct (has_assets d c).
  - apply explicit_rows_recalculated.
  - rewrite IH. apply explicit_rows_recalculated.
Qed.

Lemma rows_recalculated_origin c d r :
  r ∈ kpi_objectpermission (recalculated c d) →
  r ∈ kpi_objectpermission d ∨ (inherited r = true ∧ deny r = false).
Proof.
  unfold recalculated; simpl. rewrite elem_of_app. intros [Hr|Hr].
  - left. apply list_elem_of_In, filter_In in Hr as [Hr _].
    now apply list_elem_of_In.
  - right. now apply list_elem_of_In, in_map_iff in Hr as (up & <- & _).
Qed.

(** The loop never inserts anything but inherited grants. *)
Lemma rows_cascaded_origin cs : ∀ d r,
  r ∈ kpi_objectpermission (cascaded cs d) →
  r ∈ kpi_objectpermission d ∨ (inherited r = true ∧ deny r = false).
Proof.
  induction cs as [|c cs IH]; intros d r Hr; simpl in Hr; [now left|].
  destruct (has_assets d c).
  - now apply (rows_recalculated_origin c).
  - apply IH in Hr as [Hr|Hr]; [|now right].
    now apply (rows_recalculated_origin c).
Qed.

Lemma elem_of_rows_of d q r :
  r ∈ rows_of d q
  ↔ r ∈ kpi_objectpermission d ∧ selects (auth_permission d) q r = true.
Proof.
  unfold rows_of. now rewrite list_elem_of_In, filter_In, <- list_elem_of_In.
Qed.

Lemma recorded_unfiltered d self_pk deny u p :
  recorded d self_pk [] deny u p
  ↔ ∃ r, r ∈ kpi_objectpermission d
         ∧ object_ct r = collection_ct ∧ object_id r = self_pk
         ∧ ORM.deny r = deny ∧ user_id r = u ∧ permission_id r = p.
Proof.
  unfold recorded. split.
  - intros (r & ? & ? & ? & ? & _ & ? & ?). exists r. done.
  - intros (r & ? & ? & ? & ? & ? & ?). exists r. repeat split; try done.
    intros k Hk. now apply elem_of_nil in Hk.
Qed.

(** The inherited rows of a settled child, in terms of its parent. *)
Lemma settled_child_rows d c p :
  parent c = Some p → p ≠ pk c →
  rows_of (recalculated c d) (inherited_on (pk c))
  = rows_of d (inherited_on (pk c)) →
  ∀ r, r ∈ kpi_objectpermission d →
       object_ct r = collection_ct → object_id r = pk c →
       inherited r = true →
       ORM.deny r = false
       ∧ ((user_id r, permission_id r) ∈ effective d p []
          ∨ user_id r = owner c).
Proof.
  intros Hparent Hne Hsettled r Hr Hct Hid Hinh.
  assert (Hin : r ∈ rows_of d (inherited_on (pk c))).
  { apply elem_of_rows_of. split; [done|].
    unfold selects, inherited_on; simpl.
    rewrite !andb_true_iff, !bool_decide_eq_true. done. }
  rewrite <- Hsettled, inherited_rows_recalculated in Hin.
  apply list_elem_of_In, in_map_iff in Hin as ([u q] & <- & Hin).
  split; [done|]. simpl.
  unfold regenerated in Hin. rewrite Hparent in Hin.
  apply list_elem_of_In, elem_of_owner_override in Hin
    as [Hin|(perm & _ & [= -> _])]; [|now right].
  left. apply elem_of_elements in Hin.
  now rewrite effective_cleared_other in Hin.
Qed.

Lemma settled_child_inherits d c p u q :
  parent c = Some p → p ≠ pk c →
  rows_of (recalculated c d) (inherited_on (pk c))
  = rows_of d (inherited_on (pk c)) →
  (u, q) ∈ effective d p [] →
  inherited_grant c (u, q) ∈ kpi_objectpermission d.
Proof.
  intros Hparent Hne Hsettled Hin.
  assert (H : inherited_grant c (u, q) ∈ rows_of d (inherited_on (pk c))).
  { rewrite <- Hsettled, inherited_rows_recalculated.
    apply list_elem_of_In, in_map. apply list_elem_of_In.
    unfold regenerated. rewrite Hparent.
    apply elem_of_owner_override. left. apply elem_of_elements.
    now rewrite effective_cleared_other. }
  now apply elem_of_rows_of in H as [H _].
Qed.

End Composition.

Section AfterAssign.

(** A returning [assign_perm] that had a row to insert, taken apart. *)
Lemma assign_perm_inserted pp self u perm deny d w' :
  Forall (λ r, object_ct r = collection_ct → object_id r = pk self →
               user_id r = u → inherited r = false →
               ORM.deny r = negb deny) (kpi_objectpermission d) →
  assign_perm pp self u perm deny (reliable d) = (Return tt, w') →
  ∃ a c pm,
    pp perm collection_ct = Return (a, c)
    ∧ pm ∈ auth_permission d ∧ codename pm = c
    ∧ existsb (has_assets d) (descendants_of d self) = false
    ∧ w' = reliable (cascaded (descendants_of d self)
                       (assigned self u (perm_pk pm) deny d)).
Proof.
  intros Hfresh Hrun.
  pose proof (assign_perm_returns _ _ _ _ _ _ _ Hrun)
    as (a & c & pm & d' & Hpp & Hget & -> & _ & _).
  assert (Hid : rows_of d (identical_to self u (perm_pk pm) deny) = []).
  { apply filter_none. intros r Hr.
    destruct (selects _ _ r) eqn:E; [|done].
    apply selects_identical in E as ->.
    rewrite Forall_forall in Hfresh.
    specialize (Hfresh _ (proj2 (list_elem_of_In _ _) Hr)
                  eq_refl eq_refl eq_refl eq_refl).
    simpl in Hfresh. now destruct deny. }
  rewrite (assign_perm_run pp self u perm deny d a c pm Hpp Hget Hid) in Hrun.
  injection Hrun as Hout Hd'.
  apply tail_outcome_returns in Hout as (_ & Hassets & Htab).
  rewrite Htab in Hd'.
  apply permission_get_found in Hget as [Hpm Hc].
  exists a, c, pm. repeat split; try done. now rewrite <- Hd'.
Qed.

Lemma names_apart_same_auth d d' :
  auth_permission d' = auth_permission d → names_apart d → names_apart d'.
Proof. unfold names_apart. intros ->. done. Qed.

End AfterAssign.

(** X7.  Let a codename name one permission, let the descendants of
    collection A come parent first, A not among them, and let B be a
    child of A.  Say user [u] holds no explicit grant on A, A holds no
    inherited denial, and B holds no explicit denial for [u].  When
    [assign_perm(A, u, perm)] returns, [has_perm(B, u, perm)] answers
    [True]. *)
Theorem grant_on_parent_reaches_child pp A B u perm d w' :
  names_apart d →
  parent_first (descendants_of d A) →
  Forall (λ c, pk c ≠ pk A) (descendants_of d A) →
  B ∈ descendants_of d A →
  parent B = Some (pk A) →
  Forall (λ r, object_ct r = collection_ct → object_id r = pk A →
               user_id r = u → inherited r = false → deny r = true)
         (kpi_objectpermission d) →
  Forall (λ r, object_ct r = collection_ct → object_id r = pk A →
               inherited r = true → deny r = false)
         (kpi_objectpermission d) →
  Forall (λ r, object_ct r = collection_ct → object_id r = pk B →
               user_id r = u → inherited r = false → deny r = false)
         (kpi_objectpermission d) →
  assign_perm pp A u perm false (reliable d) = (Return tt, w') →
  has_perm pp B u perm w' = (Return true, w').
Proof.
  intros Hnames Hpf HnotA HB Hparent Hfresh HinhA HexpB Hrun.
  apply (assign_perm_inserted pp A u perm false d w' Hfresh) in Hrun
    as (a & c & pm & Hpp & Hpm & Hc & Hassets & ->).
  set (d1 := assigned A u (perm_pk pm) false d) in *.
  set (cs := descendants_of d A) in *.
  destruct (cascaded_auth cs d1) as (Hauth & _ & _).
  assert (HneAB : pk A ≠ pk B).
  { rewrite Forall_forall in HnotA. intros E. now apply (HnotA B HB). }
  rewrite Forall_forall in HinhA, HexpB.
  pose proof (cascaded_settled cs d1 B Hpf Hassets HB) as Hsettled.
  rewrite (has_perm_value pp B u perm a c pm); [|done| | |].
  2:{ simpl db. rewrite Hauth. exact Hpm. }
  2:{ done. }
  2:{ simpl db. now apply (names_apart_same_auth d). }
  f_equal. f_equal. apply bool_decide_eq_true_2. simpl db.
  apply elem_of_effective. split.
  - apply recorded_unfiltered. exists (inherited_grant B (u, perm_pk pm)).
    split; [|done].
    apply (settled_child_inherits _ B (pk A)); [done|done|done|].
    rewrite effective_cascaded_other by done.
    apply elem_of_effective. split.
    + apply recorded_unfiltered. exists (explicit_row A u (perm_pk pm) false).
      split; [|done]. unfold d1, assigned; simpl.
      apply elem_of_app. right. now apply list_elem_of_singleton.
    + rewrite recorded_unfiltered.
      intros (r & Hr & Hct & Hid & Hd & Hu & Hp).
      unfold d1, assigned in Hr; simpl in Hr.
      apply elem_of_app in Hr as [Hr|Hr].
      * apply list_elem_of_In, filter_In in Hr as [Hr Hsel].
        apply negb_true_iff in Hsel.
        destruct (inherited r) eqn:Hinh.
        -- specialize (HinhA r (proj2 (list_elem_of_In _ _) Hr) Hct Hid Hinh).
           congruence.
        -- assert (E : r = explicit_row A u (perm_pk pm) (negb false)).
           { destruct r; simpl in *; subst. done. }
           apply (selects_contradicting (auth_permission d)) in E.
           congruence.
      * apply list_elem_of_singleton in Hr as ->. done.
  - rewrite recorded_unfiltered.
    intros (r & Hr & Hct & Hid & Hd & Hu & Hp).
    destruct (inherited r) eqn:Hinh.
    + destruct (settled_child_rows _ B (pk A) Hparent HneAB Hsettled
                  r Hr Hct Hid Hinh) as [Hd' _]. congruence.
    + assert (Hexp : r ∈ explicit_rows (cascaded cs d1)).
      { now apply elem_of_explicit_rows. }
      rewrite explicit_rows_cascaded in Hexp.
      apply elem_of_explicit_rows in Hexp as [Hr1 _].
      unfold d1, assigned in Hr1; simpl in Hr1.
      apply elem_of_app in Hr1 as [Hr1|Hr1].
      * apply list_elem_of_In, filter_In in Hr1 as [Hr1 _].
        specialize (HexpB r (proj2 (list_elem_of_In _ _) Hr1)
                      Hct Hid Hu Hinh). congruence.
      * apply list_elem_of_singleton in Hr1 as ->. done.
Qed.

(** X8.  Let a codename name one permission, let the descendants of
    collection A come parent first, A not among them, and let B be a
    child of A owned by somebody else than user [u].  Say A holds no
    inherited row and B no explicit row for [u].  When
    [remove_perm(A, u, perm)] returns, [has_perm(B, u, perm)] answers
    [False]. *)
Theorem removal_on_parent_reaches_child pp A B u perm d w' :
  names_apart d →
  parent_first (descendants_of d A) →
  Forall (λ c, pk c ≠ pk A) (descendants_of d A) →
  B ∈ descendants_of d A →
  parent B = Some (pk A) →
  owner B ≠ u →
  Forall (λ r, object_ct r = collection_ct → object_id r = pk A →
               user_id r = u → inherited r = false)
         (kpi_objectpermission d) →
  Forall (λ r, object_ct r = collection_ct → object_id r = pk B →
               user_id r = u → inherited r = true)
         (kpi_objectpermission d) →
  remove_perm pp A u perm false (reliable d) = (Return tt, w') →
  has_perm pp B u perm w' = (Return false, w').
Proof.
  intros Hnames Hpf HnotA HB Hparent Howner HinhA HexpB Hrun.
  destruct (pp perm collection_ct) as [[a c]|e] eqn:Hpp.
  2:{ unfold remove_perm in Hrun. rewrite Hpp in Hrun.
      erewrite bind_raise in Hrun by reflexivity. congruence. }
  rewrite (remove_perm_run pp A u perm false d a c Hpp) in Hrun.
  injection Hrun as Hout <-.
  apply tail_outcome_returns in Hout as (_ & Hassets & ->).
  set (d1 := removed A u c false d) in *.
  change (descendants_of d1 A) with (descendants_of d A) in *.
  set (cs := descendants_of d A) in *.
  destruct (cascaded_auth cs d1) as (Hauth & _ & _).
  assert (HneAB : pk A ≠ pk B).
  { rewrite Forall_forall in HnotA. intros E. now apply (HnotA B HB). }
  rewrite Forall_forall in HinhA, HexpB.
  pose proof (cascaded_settled cs d1 B Hpf Hassets HB) as Hsettled.
  destruct (List.filter (λ p, bool_decide (codename p = c))
              (auth_permission d)) as [|pm l] eqn:Hfilter.
  { apply (has_perm_unknown pp B u perm a c); [done|].
    simpl db. rewrite Hauth. intros p Hp Hc.
    assert (Hin : In p (List.filter (λ p, bool_decide (codename p = c))
                          (auth_permission d))).
    { apply filter_In. split; [now apply list_elem_of_In|].
      now apply bool_decide_eq_true. }
    now rewrite Hfilter in Hin. }
  assert (Hpm : pm ∈ auth_permission d ∧ codename pm = c).
  { assert (Hin : In pm (List.filter (λ p, bool_decide (codename p = c))
                           (auth_permission d))).
    { rewrite Hfilter. now left. }
    apply filter_In in Hin as [Hin Hc]. apply bool_decide_eq_true in Hc.
    split; [now apply list_elem_of_In|done]. }
  destruct Hpm as [Hpm Hc].
  rewrite (has_perm_value pp B u perm a c pm); [|done| | |].
  2:{ simpl db. rewrite Hauth. exact Hpm. }
  2:{ done. }
  2:{ simpl db. now apply (names_apart_same_auth d). }
  f_equal. f_equal. apply bool_decide_eq_false_2. simpl db.
  rewrite elem_of_effective, recorded_unfiltered.
  intros [(r & Hr & Hct & Hid & Hd & Hu & Hp) _].
  destruct (inherited r) eqn:Hinh.
  - destruct (settled_child_rows _ B (pk A) Hparent HneAB Hsettled
                r Hr Hct Hid Hinh) as [_ [Hup|Hown]]; [|congruence].
    rewrite Hu, Hp in Hup.
    rewrite effective_cascaded_other in Hup by done.
    apply elem_of_effective in Hup as [Hgrant _].
    apply recorded_unfiltered in Hgrant
      as (r' & Hr' & Hct' & Hid' & Hd' & Hu' & Hp').
    unfold d1, removed in Hr'; simpl in Hr'.
    apply list_elem_of_In, filter_In in Hr' as [Hr' Hsel].
    apply negb_true_iff in Hsel.
    specialize (HinhA r' (proj2 (list_elem_of_In _ _) Hr') Hct' Hid' Hu').
    assert (Hyes : selects (auth_permission d) (removal A u c false) r'
                   = true).
    { apply selects_removal. repeat split; try done. exists pm. done. }
    fold (removal A u c false) in Hsel. congruence.
  - assert (Hexp : r ∈ explicit_rows (cascaded cs d1)).
    { now apply elem_of_explicit_rows. }
    rewrite explicit_rows_cascaded in Hexp.
    apply elem_of_explicit_rows in Hexp as [Hr1 _].
    unfold d1, removed in Hr1; simpl in Hr1.
    apply list_elem_of_In, filter_In in Hr1 as [Hr1 _].
    specialize (HexpB r (proj2 (list_elem_of_In _ _) Hr1) Hct Hid Hu).
    congruence.
Qed.

Section SameNode.

(** Every row a returning [assign_perm] leaves was there, or is an
    inherited grant, or is the explicit row asked for. *)
Lemma assign_perm_rows_origin pp self u perm deny d w' :
  assign_perm pp self u perm deny (reliable d) = (Return tt, w') →
  ∀ r, r ∈ kpi_objectpermission (db w') →
       r ∈ kpi_objectpermission d
       ∨ (inherited r = true ∧ ORM.deny r = false)
       ∨ (inherited r = false ∧ ORM.deny r = deny).
Proof.
  intros Hrun r Hr.
  pose proof (assign_perm_returns _ _ _ _ _ _ _ Hrun)
    as (a & c & pm & d' & Hpp & Hget & -> & _ & Hcase).
  destruct (rows_of d (identical_to self u (perm_pk pm) deny))
    as [|r0 rows] eqn:Hid.
  - rewrite (assign_perm_run pp self u perm deny d a c pm Hpp Hget Hid)
      in Hrun.
    injection Hrun as Hout Hd'.
    apply tail_outcome_returns in Hout as (_ & _ & Htab).
    rewrite Htab in Hd'. simpl in Hr. rewrite <- Hd' in Hr.
    apply rows_cascaded_origin in Hr as [Hr|Hr]; [|now right; left].
    unfold assigned in Hr; simpl in Hr.
    apply elem_of_app in Hr as [Hr|Hr].
    + left. apply list_elem_of_In, filter_In in Hr as [Hr _].
      now apply list_elem_of_In.
    + apply list_elem_of_singleton in Hr as ->. right. right. done.
  - destruct Hcase as [[_ ->]|[? _]]; [|congruence]. now left.
Qed.

Lemma assign_perm_exclusive pp self u perm deny d w' :
  exclusive d →
  assign_perm pp self u perm deny (reliable d) = (Return tt, w') →
  exclusive (db w').
Proof.
  intros Hex Hrun.
  apply assign_perm_returns in Hrun
    as (a & c & pm & d' & _ & _ & -> & _ & Hcase).
  destruct Hcase as [[_ ->]|[_ Hrows]]; [done|].
  now apply (exclusive_assigned d d' self u (perm_pk pm) deny).
Qed.

End SameNode.

(** X9.  Let a codename name one permission, and start from tables in
    which explicit grants and denials exclude each other and the
    collection holds no inherited denial.  When [assign_perm] of a grant
    returns, [has_perm] answers [True] for that user and permission on
    the collection. *)
Theorem granted_permission_is_held pp self u perm d w' :
  names_apart d →
  exclusive d →
  Forall (λ r, object_ct r = collection_ct → object_id r = pk self →
               inherited r = true → deny r = false)
         (kpi_objectpermission d) →
  assign_perm pp self u perm false (reliable d) = (Return tt, w') →
  has_perm pp self u perm w' = (Return true, w').
Proof.
  intros Hnames Hex Hinh Hrun.
  pose proof (assign_perm_exclusive _ _ _ _ _ _ _ Hex Hrun) as Hex'.
  pose proof (assign_perm_rows_origin _ _ _ _ _ _ _ Hrun) as Horigin.
  apply assign_perm_row in Hrun
    as (a & c & pm & d' & Hpp & Hpm & Hc & -> & Hauth & Hrow).
  simpl db in *. rewrite Forall_forall in Hinh.
  rewrite (has_perm_value pp self u perm a c pm); [|done| | |].
  2:{ simpl db. rewrite Hauth. exact Hpm. }
  2:{ done. }
  2:{ simpl db. now apply (names_apart_same_auth d). }
  f_equal. f_equal. apply bool_decide_eq_true_2. simpl db.
  apply elem_of_effective. split.
  - apply recorded_unfiltered.
    exists (explicit_row self u (perm_pk pm) false). done.
  - rewrite recorded_unfiltered.
    intros (r & Hr & Hct & Hid & Hd & Hu & Hp).
    destruct (inherited r) eqn:Hi.
    + destruct (Horigin r Hr) as [Hr0|[[_ Hd']|[Hi' _]]]; [|congruence..].
      specialize (Hinh r Hr0 Hct Hid Hi). congruence.
    + assert (E : r = explicit_row self u (perm_pk pm) (negb false)).
      { destruct r; simpl in *; subst. done. }
      rewrite E in Hr.
      now apply (opposite_absent d' self u (perm_pk pm) false).
Qed.

(** ** The signal receiver *)

Import AssetSignals.

(** X10.  The receiver run after an asset is deleted removes every
    permission row of the asset and no other row: the rows of other
    objects stay in place, so the effective permissions of every
    collection are what they were. *)
Theorem post_delete_asset_removes_asset_rows instance d :
  ∃ d',
    post_delete_asset instance (reliable d) = (Return tt, reliable d')
    ∧ (∀ kwargs,
         rows_of d' (filter_for_object asset_ct (asset_pk instance) kwargs)
         = [])
    ∧ kpi_objectpermission d'
      = List.filter
          (λ r, negb (bool_decide (object_ct r = asset_ct
                                   ∧ object_id r = asset_pk instance)))
          (kpi_objectpermission d)
    ∧ (∀ c kwargs,
         _effective_perms c kwargs (reliable d')
         = (fst (_effective_perms c kwargs (reliable d)), reliable d')).
Proof.
  exists (with_objectpermission d
            (rows_without d (filter_for_object asset_ct (asset_pk instance) []))).
  split; [reflexivity|].
  assert (Hsel : ∀ r,
    selects (auth_permission d)
      (filter_for_object asset_ct (asset_pk instance) []) r
    = bool_decide (object_ct r = asset_ct ∧ object_id r = asset_pk instance)).
  { intros r. unfold selects; simpl. rewrite andb_true_r.
    repeat case_bool_decide; simpl; tauto. }
  split; [|split].
  - intros kwargs. unfold rows_of; simpl. apply filter_none.
    intros r Hr. apply filter_In in Hr as [_ Hr].
    apply negb_true_iff in Hr. rewrite Hsel in Hr.
    unfold selects; simpl.
    destruct (bool_decide (object_ct r = asset_ct)) eqn:E1; [|done].
    destruct (bool_decide (object_id r = asset_pk instance)) eqn:E2; [|done].
    apply bool_decide_eq_true in E1, E2.
    rewrite bool_decide_eq_true_2 in Hr by done. done.
  - simpl. unfold rows_without. apply List.filter_ext.
    intros r. now rewrite Hsel.
  - intros c kwargs. rewrite !_effective_perms_run. simpl. f_equal.
    unfold effective, rows_of; simpl. unfold rows_without.
    rewrite !filter_filter_implied; [done|..];
      intros r Hr; apply negb_true_iff; rewrite Hsel;
      apply bool_decide_eq_false_2; intros [Hct _];
      unfold selects in Hr; simpl in Hr;
      apply andb_true_iff in Hr as [Hr _];
      apply andb_true_iff in Hr as [Hr _];
      apply bool_decide_eq_true in Hr; rewrite Hr in Hct; done.
Qed.

(** ** More on saving an asset *)

Section AssetSaveTables.

Variable adjust_content : string → string → json → outcome (string * json).
Variable analyzer_summary : json → outcome (gmap string json).
Variable populated_report_styles : string → json → json → outcome (json * json).

Lemma report_styles_content self w self1 w' :
  _populate_report_styles populated_report_styles self w = (Return self1, w') →
  is_Some (content self1) ∧ asset_uid self1 = asset_uid self.
Proof.
  unfold _populate_report_styles. destruct (content self) as [c|]; [|done].
  destruct (populated_report_styles _ _ c) as [[r c']|e] eqn:E; intros Hrun.
  - erewrite bind_return in Hrun by reflexivity.
    inversion Hrun; subst. split; [now exists c'|done].
  - erewrite bind_raise in Hrun by reflexivity. congruence.
Qed.

(** Every run of [save] on a store that accepts every write. *)
Lemma save_on_reliable (adj cv : bool) self d o w' :
  save adjust_content analyzer_summary populated_report_styles adj cv self
    (reliable d) = (o, w') →
  match o with
  | Raise _ => w' = reliable d
  | Return self' =>
      w' = reliable
             (with_assetversion (with_asset d (stored self' (kpi_asset d)))
                (kpi_assetversion d ++ (if cv then [snapshot self'] else [])))
      ∧ is_Some (content self')
      ∧ asset_pk self' = asset_pk self
      ∧ _deployment_data self' = _deployment_data self
  end.
Proof.
  unfold save.
  set (self0 := match content self with
                | Some _ => self
                | None => with_content self (asset_name self) (Some (JDict []))
                end).
  assert (H0 : same_row self0 self).
  { unfold self0. now destruct (content self). }
  clearbody self0. intros Hrun.
  destruct ((if adj then _adjust_content_on_save adjust_content self0
             else mret self0) (reliable d)) as [[self1|e] w1] eqn:E1.
  2:{ erewrite bind_raise in Hrun by exact E1. inversion Hrun; subst.
      destruct adj; [apply adjust_step in E1 as [-> _]; done|].
      now inversion E1. }
  assert (H1 : w1 = reliable d ∧ same_row self1 self0).
  { destruct adj.
    - apply adjust_step in E1 as [-> H]. split; [done|].
      now destruct (H self1 eq_refl) as [? _].
    - now inversion E1. }
  destruct H1 as [-> H1].
  erewrite bind_return in Hrun by exact E1. cbv beta in Hrun.
  destruct (_populate_summary analyzer_summary self1 (reliable d))
    as [[self2|e] w2] eqn:E2.
  2:{ erewrite bind_raise in Hrun by exact E2. inversion Hrun; subst.
      now apply summary_step in E2 as [-> _]. }
  apply summary_step in E2 as E2'. destruct E2' as [-> H2].
  destruct (H2 self2 eq_refl) as [H2r _].
  erewrite bind_return in Hrun by exact E2. cbv beta zeta in Hrun.
  destruct (_populate_report_styles populated_report_styles
              (infer_asset_type self2) (reliable d)) as [[self4|e] w4] eqn:E4.
  2:{ erewrite bind_raise in Hrun by exact E4. inversion Hrun; subst.
      now apply report_styles_step in E4 as [-> _]. }
  apply report_styles_step in E4 as E4'. destruct E4' as [-> H4].
  destruct (H4 self4 eq_refl) as [H4r _].
  apply report_styles_content in E4 as E4c. destruct E4c as [Hc4 _].
  erewrite bind_return in Hrun by exact E4. cbv beta zeta in Hrun.
  fold (snapshot self4) in Hrun.
  destruct (infer_asset_type_row self2) as (Hpk & Hdd & _).
  destruct H0 as (_ & H0p & H0d), H1 as (_ & H1p & H1d),
    H2r as (_ & H2p & H2d), H4r as (_ & H4p & H4d).
  destruct cv; inversion Hrun; subst;
    (split; [|split; [done|split; congruence]]).
  - reflexivity.
  - unfold reliable. f_equal. rewrite app_nil_r. now destruct d.
Qed.

End AssetSaveTables.

(** X11.  On a store that accepts every write, an [Asset.save] that
    raises has written nothing: no asset row, no version row, nothing
    else. *)
Theorem failed_asset_save_writes_nothing adjust analyze styles (adj cv : bool)
    self d e w' :
  save adjust analyze styles adj cv self (reliable d) = (Raise e, w') →
  w' = reliable d.
Proof.
  intros Hrun. now apply save_on_reliable in Hrun.
Qed.

(** ** Tag strings *)

Import Tags.

Section TagStrings.

Lemma split_nonempty sep s : split sep s ≠ [].
Proof.
  destruct s as [|a s]; simpl; [done|].
  case_bool_decide; [done|]. now destruct (split sep s).
Qed.

Lemma concat_split s : String.concat "," (split ","%char s) = s.
Proof.
  induction s as [|a s IH]; simpl; [done|].
  case_bool_decide as Ha.
  - subst a. pose proof (split_nonempty ","%char s) as Hne.
    destruct (split ","%char s) as [|x l] eqn:E; [done|].
    simpl in *. destruct l; now rewrite IH.
  - destruct (split ","%char s) as [|x l] eqn:E.
    + now destruct (split_nonempty ","%char s).
    + simpl in *. destruct l; simpl in *; now rewrite <- IH.
Qed.

Lemma split_comma_free s : comma_free s = true → split ","%char s = [s].
Proof.
  induction s as [|a s IH]; simpl; [done|].
  intros H. apply andb_true_iff in H as [Ha Hs].
  apply negb_true_iff in Ha. rewrite Ha, IH by done. done.
Qed.

Lemma split_app_comma s t :
  comma_free s = true →
  split ","%char (s ++ String ","%char t) = s :: split ","%char t.
Proof.
  induction s as [|a s IH]; simpl; [done|].
  intros H. apply andb_true_iff in H as [Ha Hs].
  apply negb_true_iff in Ha. rewrite Ha, IH by done. done.
Qed.

Lemma split_concat names :
  names ≠ [] → forallb comma_free names = true →
  split ","%char (String.concat "," names) = names.
Proof.
  induction names as [|x l IH]; [done|]. intros _ H.
  simpl in H. apply andb_true_iff in H as [Hx Hl].
  destruct l as [|y l].
  - simpl. now apply split_comma_free.
  - change (String.concat "," (x :: y :: l))
      with (x ++ String ","%char (String.concat "," (y :: l)))%string.
    rewrite split_app_comma by done. now rewrite IH.
Qed.

End TagStrings.

(** X13.  Joining the pieces of a tag string with commas gives the string
    back.  Splitting the tag string of a non-empty list of names without
    a comma gives the names back; for an object without tags the tag
    string is empty, and splitting it asks for one tag with the empty
    name. *)
Theorem tag_string_round_trip :
  (∀ value, tag_string (intended_tags value) = value)
  ∧ (∀ names, names ≠ [] → forallb comma_free names = true →
              intended_tags (tag_string names) = names)
  ∧ intended_tags (tag_string []) = [""].
Proof.
  split; [|split].
  - intros value. apply concat_split.
  - intros names Hne Hfree. now apply split_concat.
  - reflexivity.
Qed.

Section Stripping.

Lemma lstrip_length s : (String.length (lstrip s) ≤ String.length s)%nat.
Proof.
  induction s as [|a s IH]; simpl; [done|].
  destruct (is_space a); simpl; lia.
Qed.

Lemma lstrip_fixed a s : lstrip (String a s) = String a s → is_space a = false.
Proof.
  simpl. destruct (is_space a); [|done]. intros H.
  pose proof (lstrip_length s) as Hlen. rewrite H in Hlen. simpl in Hlen. lia.
Qed.

Lemma lstrip_lstrip s : lstrip (lstrip s) = lstrip s.
Proof.
  induction s as [|a s IH]; simpl; [done|].
  destruct (is_space a) eqn:E; [done|]. simpl. now rewrite E.
Qed.

Lemma rstrip_rstrip s : rstrip (rstrip s) = rstrip s.
Proof.
  induction s as [|a s IH]; simpl; [done|].
  destruct (rstrip s) as [|b t] eqn:E.
  - destruct (is_space a) eqn:Ea; [done|]. simpl. now rewrite Ea.
  - simpl in *. now rewrite IH.
Qed.

Lemma rstrip_head a s :
  is_space a = false → ∃ t, rstrip (String a s) = String a t.
Proof.
  intros Ha. simpl. destruct (rstrip s); [rewrite Ha|]; eauto.
Qed.

Lemma lstrip_rstrip s : lstrip s = s → lstrip (rstrip s) = rstrip s.
Proof.
  destruct s as [|a s]; [done|]. intros H. apply lstrip_fixed in H.
  destruct (rstrip_head a s H) as [t ->]. simpl. now rewrite H.
Qed.

Lemma strip_fixed s :
  lstrip (strip s) = strip s ∧ rstrip (strip s) = strip s.
Proof.
  unfold strip. split.
  - apply lstrip_rstrip, lstrip_lstrip.
  - apply rstrip_rstrip.
Qed.

Lemma replaced_not_space a :
  is_space a = false →
  (if bool_decide (a = " "%char) then "-"%char else a) = a.
Proof.
  intros Ha. case_bool_decide as E; [|done]. subst a. done.
Qed.

Lemma lstrip_replace s :
  lstrip s = s → lstrip (replace_spaces s) = replace_spaces s.
Proof.
  destruct s as [|a s]; [done|]. intros H. apply lstrip_fixed in H.
  simpl. rewrite (replaced_not_space a H). now rewrite H.
Qed.

Lemma rstrip_fixed_inv a s :
  rstrip (String a s) = String a s →
  (s = "" ∧ is_space a = false) ∨ (s ≠ "" ∧ rstrip s = s).
Proof.
  simpl. destruct (rstrip s) as [|b t] eqn:E.
  - destruct (is_space a); [done|]. intros [= <-]. now left.
  - intros [= <-]. right. done.
Qed.

Lemma rstrip_replace s :
  rstrip s = s → rstrip (replace_spaces s) = replace_spaces s.
Proof.
  induction s as [|a s IH]; [done|]. intros H.
  apply rstrip_fixed_inv in H as [[-> Ha]|[Hne Hs]].
  - simpl. rewrite (replaced_not_space a Ha). now rewrite Ha.
  - simpl. rewrite (IH Hs). destruct s as [|b s]; [done|]. done.
Qed.

Lemma replace_replace s : replace_spaces (replace_spaces s) = replace_spaces s.
Proof.
  induction s as [|a s IH]; simpl; [done|]. rewrite IH. f_equal.
  destruct (decide (a = " "%char)) as [->|Ha]; [done|].
  rewrite !(bool_decide_eq_false_2 _ Ha). simpl.
  now rewrite ?(bool_decide_eq_false_2 _ Ha).
Qed.

Lemma replace_no_space s : occurs " "%char (replace_spaces s) = false.
Proof.
  induction s as [|a s IH]; simpl; [done|]. rewrite IH, orb_false_r.
  destruct (decide (a = " "%char)) as [->|Ha]; [done|].
  rewrite (bool_decide_eq_false_2 _ Ha). now apply bool_decide_eq_false_2.
Qed.

Lemma strip_clean s :
  strip (replace_spaces (strip s)) = replace_spaces (strip s).
Proof.
  destruct (strip_fixed s) as [Hl Hr]. unfold strip at 1.
  rewrite (lstrip_replace _ Hl). now apply rstrip_replace.
Qed.

End Stripping.

(** X14.  The names [KpiTaggableManager.add] hands on hold no space and
    have no white space at either end; tag objects are handed on as they
    are, each at its place; and cleaning the cleaned list changes
    nothing. *)
Theorem tags_out_clean tags :
  tags_out (tags_out tags) = tags_out tags
  ∧ (∀ name, TagName name ∈ tags_out tags →
             occurs " "%char name = false ∧ strip name = name)
  ∧ (∀ i k, tags_out tags !! i = Some (TagObject k)
            ↔ tags !! i = Some (TagObject k)).
Proof.
  split; [|split].
  - unfold tags_out. rewrite map_map. apply map_ext. intros [name|k]; [|done].
    now rewrite strip_clean, replace_replace.
  - intros name Hin. apply list_elem_of_In, in_map_iff in Hin as (t & Ht & _).
    destruct t as [n|k]; [|done]. injection Ht as <-.
    split; [apply replace_no_space|apply strip_clean].
  - intros i k. unfold tags_out.
    change (map ?f tags) with (f <$> tags). rewrite list_lookup_fmap.
    destruct (tags !! i) as [[n|j]|]; simpl; split; congruence.
Qed.

(** ** The content utilities *)

Import Py FormpackXLSFormUtils.

Section Dicts.

Lemma lookup_store key k v items :
  dict_lookup k (dict_store key v items)
  = if bool_decide (k = key) then Some v else dict_lookup k items.
Proof.
  induction items as [|[k0 x] items IH]; simpl.
  - destruct (decide (k = key)) as [->|Hne].
    + now rewrite !bool_decide_eq_true_2.
    + rewrite (bool_decide_eq_false_2 (key = k)) by congruence.
      now rewrite bool_decide_eq_false_2.
  - destruct (decide (k0 = key)) as [->|Hk0].
    + rewrite (bool_decide_eq_true_2 (key = key)) by done. simpl.
      destruct (decide (k = key)) as [->|Hne].
      * now rewrite !bool_decide_eq_true_2.
      * rewrite (bool_decide_eq_false_2 (key = k)) by congruence.
        now rewrite bool_decide_eq_false_2.
    + rewrite (bool_decide_eq_false_2 (k0 = key)) by done. simpl.
      rewrite IH. destruct (decide (k0 = k)) as [->|Hk].
      * rewrite (bool_decide_eq_true_2 (k = k)) by done.
        now rewrite (bool_decide_eq_false_2 (k = key)).
      * now rewrite (bool_decide_eq_false_2 (k0 = k)).
Qed.

Lemma lookup_remove key k items :
  dict_lookup k (dict_remove key items)
  = if bool_decide (k = key) then None else dict_lookup k items.
Proof.
  induction items as [|[k0 x] items IH]; simpl.
  - now destruct (bool_decide (k = key)).
  - destruct (decide (k0 = key)) as [->|Hk0].
    + rewrite (bool_decide_eq_true_2 (key = key)) by done. rewrite IH.
      destruct (decide (k = key)) as [->|Hne].
      * now rewrite !bool_decide_eq_true_2.
      * rewrite (bool_decide_eq_false_2 (key = k)) by congruence.
        now rewrite bool_decide_eq_false_2.
    + rewrite (bool_decide_eq_false_2 (k0 = key)) by done. simpl.
      rewrite IH. destruct (decide (k0 = k)) as [->|Hk].
      * rewrite (bool_decide_eq_true_2 (k = k)) by done.
        now rewrite (bool_decide_eq_false_2 (k = key)).
      * now rewrite (bool_decide_eq_false_2 (k0 = k)).
Qed.

Lemma lookup_store_eq key v items :
  dict_lookup key (dict_store key v items) = Some v.
Proof. rewrite lookup_store. now rewrite bool_decide_eq_true_2. Qed.

Lemma lookup_store_ne key k v items :
  k ≠ key → dict_lookup k (dict_store key v items) = dict_lookup k items.
Proof. intros H. rewrite lookup_store. now rewrite bool_decide_eq_false_2. Qed.

End Dicts.

(** X15.  [pop_setting] on a content that is a dict.  Without a
    [settings] key it returns [None] and leaves the content alone.  With
    settings that hold the key it returns the value and takes the key,
    and nothing else, out of the settings.  With settings that lack the
    key it returns the default and leaves the content alone, or raises
    [KeyError] when no default was given. *)
Theorem pop_setting_takes_the_key items key dflt :
  (dict_lookup "settings" items = None →
   pop_setting (JDict items) key dflt = Return (JNull, JDict items))
  ∧ (∀ settings v,
       dict_lookup "settings" items = Some (JDict settings) →
       dict_lookup key settings = Some v →
       ∃ items' settings',
         pop_setting (JDict items) key dflt = Return (v, JDict items')
         ∧ dict_lookup "settings" items' = Some (JDict settings')
         ∧ dict_lookup key settings' = None
         ∧ (∀ k, k ≠ key → dict_lookup k settings' = dict_lookup k settings)
         ∧ (∀ k, k ≠ "settings" → dict_lookup k items' = dict_lookup k items))
  ∧ (∀ settings,
       dict_lookup "settings" items = Some (JDict settings) →
       dict_lookup key settings = None →
       pop_setting (JDict items) key dflt
       = match dflt with
         | Some v => Return (v, JDict items)
         | None => Raise KeyError
         end).
Proof.
  split; [|split].
  - intros Hnone. unfold pop_setting; simpl. rewrite Hnone.
    rewrite bool_decide_eq_false_2; [done|]. now intros [? ?].
  - intros settings v Hs Hv. unfold pop_setting; simpl. rewrite Hs.
    rewrite bool_decide_eq_true_2 by eauto. simpl. rewrite Hv. simpl.
    eexists _, _. split; [reflexivity|].
    split; [apply lookup_store_eq|]. split.
    + rewrite lookup_remove. now rewrite bool_decide_eq_true_2.
    + split.
      * intros k Hk. rewrite lookup_remove.
        now rewrite bool_decide_eq_false_2.
      * intros k Hk. now apply lookup_store_ne.
  - intros settings Hs Hv. unfold pop_setting; simpl. rewrite Hs.
    rewrite bool_decide_eq_true_2 by eauto. simpl. rewrite Hv.
    now destruct dflt.
Qed.

Section Translations.

Lemma index_of_none_spec l i :
  index_of_none l = Some i →
  l !! i = Some JNull ∧ ∀ j, (j < i)%nat → l !! j ≠ Some JNull.
Proof.
  revert i. induction l as [|x l IH]; intros i; simpl; [done|].
  assert (Hrest : S <$> index_of_none l = Some i →
                  x ≠ JNull →
                  (x :: l) !! i = Some JNull
                  ∧ ∀ j, (j < i)%nat → (x :: l) !! j ≠ Some JNull).
  { intros H Hx. destruct (index_of_none l) as [i'|]; [|done].
    simpl in H. injection H as <-. destruct (IH i' eq_refl) as [Hi Hlt].
    split; [done|]. intros [|j] Hj; simpl.
    - congruence.
    - apply Hlt. lia. }
  destruct x; try (intros H; now apply Hrest).
  intros [= <-]. split; [done|]. intros j Hj. lia.
Qed.

Lemma index_of_none_absent l :
  index_of_none l = None → JNull ∉ l.
Proof.
  induction l as [|x l IH]; simpl; [intros _; apply not_elem_of_nil|].
  assert (Hrest : S <$> index_of_none l = None → x ≠ JNull → JNull ∉ x :: l).
  { intros H Hx. destruct (index_of_none l); [done|].
    rewrite not_elem_of_cons. split; [congruence|]. now apply IH. }
  destruct x; intros H; now apply Hrest.
Qed.

Lemma existsb_insert (f : json → bool) l i x :
  (i < length l)%nat → f x = true → existsb f (<[i := x]> l) = true.
Proof.
  revert i. induction l as [|y l IH]; intros [|i] Hi Hx; simpl in *;
    try lia.
  - now rewrite Hx.
  - rewrite IH by (done || lia). apply orb_true_r.
Qed.

End Translations.

(** X16.  When [_rename_null_translation] returns, the content is a dict
    whose translations are a list, the new name was not among them and is
    not [None], and the first [None] of the list, and only that entry,
    has been replaced by the new name.  Renaming again to the same name
    raises [ValueError]. *)
Theorem rename_null_translation_replaces_first_none content new_name content' :
  _rename_null_translation content new_name = Return content' →
  ∃ items l i,
    content = JDict items
    ∧ dict_lookup "translations" items = Some (JList l)
    ∧ existsb (py_eq new_name) l = false
    ∧ new_name ≠ JNull
    ∧ l !! i = Some JNull
    ∧ (∀ j, (j < i)%nat → l !! j ≠ Some JNull)
    ∧ content' = JDict (dict_store "translations"
                          (JList (<[i := new_name]> l)) items)
    ∧ (py_eq new_name new_name = true →
       _rename_null_translation content' new_name = Raise ValueError).
Proof.
  unfold _rename_null_translation. intros Hrun.
  destruct content as [| | | | |items]; try discriminate.
  simpl in Hrun.
  destruct (dict_lookup "translations" items) as [translations|] eqn:Ht;
    [|discriminate].
  simpl in Hrun.
  destruct translations as [| | | |l|its]; try discriminate.
  - destruct new_name; simpl in Hrun; try discriminate.
    destruct (contains _ _); discriminate.
  - simpl in Hrun.
    destruct (existsb (py_eq new_name) l) eqn:Htaken; [discriminate|].
    destruct (index_of_none l) as [i|] eqn:Hi; [|discriminate].
    simpl in Hrun. injection Hrun as <-.
    destruct (index_of_none_spec _ _ Hi) as [Hnull Hfirst].
    exists items, l, i. repeat split; try done.
    + intros ->.
      assert (Hin : existsb (py_eq JNull) l = true).
      { apply existsb_exists. exists JNull. split; [|done].
        apply list_elem_of_In. eapply list_elem_of_lookup_2; eauto. }
      congruence.
    + intros Hrefl. simpl. rewrite lookup_store_eq. simpl.
      rewrite existsb_insert; [done| |done].
      eapply lookup_lt_Some; eauto.
  - destruct new_name; simpl in Hrun; try discriminate.
    destruct (bool_decide _); discriminate.
Qed.

Section Stripped.

Lemma store_same key v items :
  dict_lookup key items = Some v → dict_store key v items = items.
Proof.
  induction items as [|[k x] items IH]; simpl; [done|].
  case_bool_decide as Hk.
  - now intros [= ->].
  - intros H. now rewrite IH.
Qed.

Lemma holds_true key row :
  holds key row = true ↔ has_key key row = Return true.
Proof.
  unfold holds. destruct (has_key key row) as [[]|]; split; congruence.
Qed.

Lemma rows_with_filter key arr kept :
  rows_with key arr = Return kept → kept = List.filter (holds key) arr.
Proof.
  revert kept. induction arr as [|row arr IH]; intros kept; simpl.
  - now intros [= <-].
  - unfold holds. destruct (has_key key row) as [keep|]; [|done]. simpl.
    destruct (rows_with key arr) as [kept0|]; [|done]. simpl.
    intros [= <-]. rewrite (IH kept0 eq_refl). now destruct keep.
Qed.

Lemma rows_with_clean key arr :
  Forall (λ row, holds key row = true) arr → rows_with key arr = Return arr.
Proof.
  induction 1 as [|row arr Hrow _ IH]; simpl; [done|].
  apply holds_true in Hrow. now rewrite Hrow, IH.
Qed.

Lemma filter_holds key arr :
  Forall (λ row, holds key row = true) (List.filter (holds key) arr).
Proof.
  apply Forall_forall. intros row Hin. apply list_elem_of_In in Hin.
  now apply filter_In in Hin.
Qed.

Lemma filter_keeps_clean key key' arr :
  Forall (λ row, holds key' row = true) arr →
  Forall (λ row, holds key' row = true) (List.filter (holds key) arr).
Proof.
  rewrite !Forall_forall. intros H row Hin. apply H.
  apply list_elem_of_In. apply list_elem_of_In in Hin.
  now apply filter_In in Hin.
Qed.

Lemma strip_sheet_run items sheet content' :
  strip_sheet (JDict items) sheet = Return content' →
  ∃ items', content' = JDict items'
    ∧ stripped sheet.1 sheet.2 items items'
    ∧ (∀ k, k ≠ sheet.1 → dict_lookup k items' = dict_lookup k items).
Proof.
  unfold strip_sheet, stripped.
  destruct (dict_lookup sheet.1 items) as [[| | | |arr|]|] eqn:Hl;
    try discriminate.
  - destruct (rows_with sheet.2 arr) as [kept|] eqn:Hk; [|discriminate].
    simpl. intros [= <-]. eexists. split; [reflexivity|]. split.
    + rewrite lookup_store_eq. now rewrite (rows_with_filter _ _ _ Hk).
    + intros k Hne. now apply lookup_store_ne.
  - intros [= <-]. exists items. now rewrite Hl.
Qed.

Lemma strip_sheet_clean items sheet items' other :
  stripped sheet.1 sheet.2 items items' →
  (∀ k, k ≠ sheet.1 → dict_lookup k items' = dict_lookup k items) →
  (sheet_clean items' sheet)
  ∧ (sheet_clean items other → sheet_clean items' other).
Proof.
  unfold stripped, sheet_clean. intros Hs Hother. split.
  - destruct (dict_lookup sheet.1 items) as [[| | | |arr|]|]; try done.
    + rewrite Hs. apply filter_holds.
    + now rewrite Hs.
  - destruct (decide (other.1 = sheet.1)) as [->|Hne].
    + destruct (dict_lookup sheet.1 items) as [[| | | |arr|]|]; try done.
      * rewrite Hs. apply filter_keeps_clean.
      * now rewrite Hs.
    + now rewrite (Hother _ Hne).
Qed.

Lemma strip_sheets_clean vals : ∀ items content',
  strip_sheets (JDict items) vals = Return content' →
  ∃ items', content' = JDict items'
    ∧ Forall (sheet_clean items') vals
    ∧ (∀ other, sheet_clean items other → sheet_clean items' other).
Proof.
  induction vals as [|sheet vals IH]; intros items content' Hrun.
  - injection Hrun as <-. exists items.
    split; [done|]. split; [constructor|done].
  - change (strip_sheet (JDict items) sheet
            ≫= (λ c, strip_sheets c vals) = Return content') in Hrun.
    destruct (strip_sheet (JDict items) sheet) as [content1|] eqn:H1;
      [|discriminate].
    assert (Hrest : strip_sheets content1 vals = Return content') by exact Hrun.
    destruct (strip_sheet_run _ _ _ H1) as (items1 & -> & Hs & Hother).
    destruct (IH _ _ Hrest) as (items' & -> & Hclean & Hkeep).
    exists items'. split; [done|]. split.
    + constructor; [|done].
      apply Hkeep.
      exact (proj1 (strip_sheet_clean items sheet items1 sheet Hs Hother)).
    + intros other Ho. apply Hkeep.
      exact (proj2 (strip_sheet_clean items sheet items1 other Hs Hother) Ho).
Qed.

Lemma strip_sheets_fixed vals items :
  Forall (sheet_clean items) vals →
  strip_sheets (JDict items) vals = Return (JDict items).
Proof.
  induction 1 as [|sheet vals Hsheet _ IH]; [done|].
  change (strip_sheet (JDict items) sheet
          ≫= (λ c, strip_sheets c vals) = Return (JDict items)).
  assert (H1 : strip_sheet (JDict items) sheet = Return (JDict items)).
  { unfold strip_sheet. unfold sheet_clean in Hsheet.
    destruct (dict_lookup sheet.1 items) as [[| | | |arr|]|] eqn:Hl;
      try done.
    rewrite (rows_with_clean _ _ Hsheet). simpl.
    now rewrite (store_same _ _ _ Hl). }
  now rewrite H1.
Qed.

End Stripped.

(** X17.  When [_strip_empty_rows] returns with its default sheets, the
    content is a dict; the [survey] list keeps, in their order, exactly
    the rows that contain [type] and the [choices] list exactly the rows
    that contain [list_name]; a sheet that is absent stays absent, and
    every other key of the content is unchanged. *)
Theorem strip_empty_rows_keeps_rows_with_key content content' :
  _strip_empty_rows content None = Return content' →
  ∃ items items',
    content = JDict items ∧ content' = JDict items'
    ∧ stripped "survey" "type" items items'
    ∧ stripped "choices" "list_name" items items'
    ∧ (∀ k, k ≠ "survey" → k ≠ "choices" →
         dict_lookup k items' = dict_lookup k items).
Proof.
  unfold _strip_empty_rows. simpl. intros Hrun.
  destruct (strip_sheet content ("survey", "type")) as [content1|] eqn:H1;
    [|discriminate].
  simpl in Hrun.
  destruct (strip_sheet content1 ("choices", "list_name")) as [content2|] eqn:H2;
    [|discriminate].
  simpl in Hrun. injection Hrun as <-.
  destruct content as [| | | | |items]; try discriminate.
  destruct (strip_sheet_run _ _ _ H1) as (items1 & -> & Hs1 & Ho1).
  destruct (strip_sheet_run _ _ _ H2) as (items2 & -> & Hs2 & Ho2).
  simpl in *. exists items, items2. repeat split; try done.
  - unfold stripped in *. rewrite (Ho2 "survey") by done.
    destruct (dict_lookup "survey" items) as [[| | | |arr|]|]; done.
  - unfold stripped in *. rewrite (Ho1 "choices") in Hs2 by done.
    destruct (dict_lookup "choices" items) as [[| | | |arr|]|]; done.
  - intros k Hk1 Hk2. rewrite Ho2 by done. now apply Ho1.
Qed.

(** X18.  [_strip_empty_rows] is idempotent, for any table of sheets and
    required keys: when it returns, a second call on the content it left
    returns and changes nothing. *)
Theorem strip_empty_rows_idempotent content vals content' :
  _strip_empty_rows content vals = Return content' →
  _strip_empty_rows content' vals = Return content'.
Proof.
  unfold _strip_empty_rows.
  destruct (default [("survey", "type"); ("choices", "list_name")] vals)
    as [|sheet rest] eqn:Hvals.
  - now intros [= <-].
  - intros Hrun.
    destruct content as [| | | | |items]; try discriminate.
    destruct (strip_sheets_clean _ _ _ Hrun) as (items' & -> & Hclean & _).
    now apply strip_sheets_fixed.
Qed.

Section Kuids.

Variable random_id : nat → string.

Lemma assign_kuid_run n row n' row' :
  assign_kuid random_id n row = Return (n', row') →
  kuid_assigned row row' ∧ (n ≤ n')%nat.
Proof.
  unfold assign_kuid, kuid_assigned.
  destruct (has_key "$kuid" row) as [[]|] eqn:Hk; simpl; [| |done].
  - intros [= <- <-]. repeat split; try done.
  - destruct row as [| | | | |ri]; try done. simpl.
    intros [= <- <-]. repeat split; try lia.
    + cbn [has_key]. rewrite lookup_store_eq.
      now rewrite bool_decide_eq_true_2.
    + discriminate.
    + intros k Hne. cbn [getitem]. now rewrite lookup_store_ne.
Qed.

Lemma fold_assign_run rows : ∀ n n' rows',
  fold_rows (assign_kuid random_id) n rows = Return (n', rows') →
  Forall2 kuid_assigned rows rows' ∧ (n ≤ n')%nat.
Proof.
  induction rows as [|row rows IH]; intros n n' rows' Hrun.
  - injection Hrun as <- <-. split; [constructor|lia].
  - change (assign_kuid random_id n row
            ≫= (λ '(s1, y),
                  fold_rows (assign_kuid random_id) s1 rows
                  ≫= λ '(s2, ys), Return (s2, y :: ys))
            = Return (n', rows')) in Hrun.
    destruct (assign_kuid random_id n row) as [[n1 row1]|] eqn:H1;
      [|discriminate].
    cbn [mbind outcome_bind] in Hrun.
    destruct (fold_rows (assign_kuid random_id) n1 rows) as [[n2 rows2]|] eqn:H2;
      [|discriminate].
    injection Hrun as <- <-.
    destruct (assign_kuid_run _ _ _ _ H1) as [Hrow Hn1].
    destruct (IH _ _ _ H2) as [Hrows Hn2].
    split; [now constructor|lia].
Qed.

Lemma assign_sheet_run n sheet n' sheet' :
  assign_sheet random_id n sheet = Return (n', sheet') →
  sheet_assigned sheet sheet' ∧ (n ≤ n')%nat.
Proof.
  unfold assign_sheet, sheet_assigned.
  assert (Hother : ∀ rows,
            (fold_rows (assign_kuid random_id) n rows
             ≫= λ '(n', _), Return (n', sheet)) = Return (n', sheet') →
            sheet' = sheet ∧ (n ≤ n')%nat).
  { intros rows.
    destruct (fold_rows (assign_kuid random_id) n rows) as [[n2 rows2]|] eqn:H2;
      [|discriminate].
    intros [= <- <-]. split; [done|].
    now destruct (fold_assign_run _ _ _ _ H2). }
  destruct sheet as [| | |s|rows|its]; try discriminate.
  - apply Hother.
  - destruct (fold_rows (assign_kuid random_id) n rows) as [[n2 rows2]|] eqn:H2;
      [|discriminate].
    intros [= <- <-]. destruct (fold_assign_run _ _ _ _ H2) as [Hrows Hn].
    split; [|done]. now exists rows2.
  - apply Hother.
Qed.

Lemma fold_assign_returns rows : ∀ n,
  forallb is_dict rows = true →
  ∃ n' rows', fold_rows (assign_kuid random_id) n rows = Return (n', rows').
Proof.
  induction rows as [|row rows IH]; intros n Hrows.
  - now exists n, [].
  - simpl in Hrows. apply andb_true_iff in Hrows as [Hrow Hrows].
    destruct row as [| | | | |ri]; try discriminate.
    change (∃ n' rows',
              assign_kuid random_id n (JDict ri)
              ≫= (λ '(s1, y),
                    fold_rows (assign_kuid random_id) s1 rows
                    ≫= λ '(s2, ys), Return (s2, y :: ys))
              = Return (n', rows')).
    assert (H1 : ∃ n1 row1,
              assign_kuid random_id n (JDict ri) = Return (n1, row1)).
    { unfold assign_kuid. simpl. destruct (bool_decide _); simpl; eauto. }
    destruct H1 as (n1 & row1 & ->). cbn [mbind outcome_bind].
    destruct (IH n1 Hrows) as (n' & rows' & ->). simpl. eauto.
Qed.

End Kuids.

(** X19.  When [_assign_kuids] returns, the content is a dict with a
    [survey]; every row of the [survey] list and of the [choices] list
    contains [$kuid] afterwards; a row that had one is unchanged, a row
    that had none is the same dict with only that key added; a sheet
    that is not a list, and every other key of the content, is
    unchanged.  The count of draws does not go down. *)
Theorem assign_kuids_gives_every_row_a_kuid random_id n content n' content' :
  _assign_kuids random_id n content = Return (n', content') →
  ∃ items items' survey survey',
    content = JDict items ∧ content' = JDict items'
    ∧ (n ≤ n')%nat
    ∧ dict_lookup "survey" items = Some survey
    ∧ dict_lookup "survey" items' = Some survey'
    ∧ sheet_assigned survey survey'
    ∧ match dict_lookup "choices" items with
      | Some choices =>
          ∃ choices', dict_lookup "choices" items' = Some choices'
                      ∧ sheet_assigned choices choices'
      | None => dict_lookup "choices" items' = None
      end
    ∧ (∀ k, k ≠ "survey" → k ≠ "choices" →
         dict_lookup k items' = dict_lookup k items).
Proof.
  unfold _assign_kuids. intros Hrun.
  destruct content as [| | | | |items]; try discriminate.
  cbn [getitem] in Hrun.
  destruct (dict_lookup "survey" items) as [survey|] eqn:Hsurvey;
    [|discriminate].
  cbn [mbind outcome_bind] in Hrun.
  destruct (assign_sheet random_id n survey) as [[n1 survey']|] eqn:H1;
    [|discriminate].
  cbn [mbind outcome_bind setitem] in Hrun.
  destruct (assign_sheet_run _ _ _ _ _ H1) as [Hs1 Hn1].
  rewrite lookup_store_ne in Hrun by done.
  destruct (dict_lookup "choices" items) as [choices|] eqn:Hchoices.
  - destruct (assign_sheet random_id n1 choices) as [[n2 choices']|] eqn:H2;
      [|discriminate].
    injection Hrun as <- <-.
    destruct (assign_sheet_run _ _ _ _ _ H2) as [Hs2 Hn2].
    eexists items, _, survey, survey'. rewrite Hchoices.
    repeat split; try done; try lia.
    + rewrite lookup_store_ne by done. apply lookup_store_eq.
    + exists choices'. split; [apply lookup_store_eq|done].
    + intros k Hk1 Hk2. now rewrite !lookup_store_ne.
  - injection Hrun as <- <-.
    eexists items, _, survey, survey'. rewrite Hchoices.
    repeat split; try done; try lia.
    + apply lookup_store_eq.
    + now rewrite lookup_store_ne.
    + intros k Hk1 Hk2. now rewrite lookup_store_ne.
Qed.

Section Linking.

Lemma link_rows_run rows : ∀ before rows',
  link_rows before rows = Return rows' → linked before rows rows'.
Proof.
  induction rows as [|row rows IH]; intros before rows' Hrun.
  - injection Hrun as <-. repeat split; intros; simplify_eq.
  - change (getitem "$kuid" before
            ≫= (λ kuid, setitem "$prev" kuid row
                  ≫= λ row1, link_rows row1 rows
                       ≫= λ rest', Return (row1 :: rest'))
            = Return rows') in Hrun.
    destruct (getitem "$kuid" before) as [kuid|] eqn:Hkuid; [|discriminate].
    cbn [mbind outcome_bind] in Hrun.
    destruct row as [| | | | |ri]; try discriminate.
    cbn [setitem mbind outcome_bind] in Hrun.
    destruct (link_rows (JDict (dict_store "$prev" kuid ri)) rows)
      as [rest'|] eqn:Hrest; [|discriminate].
    injection Hrun as <-.
    destruct (IH _ _ Hrest) as (Hlen & Hchain & Hkeep).
    repeat split.
    + simpl. now rewrite Hlen.
    + intros [|i] prev row' Hprev Hrow'; simpl in Hprev, Hrow'.
      * injection Hprev as <-. injection Hrow' as <-.
        exists kuid. split; [done|]. cbn [getitem].
        now rewrite lookup_store_eq.
      * now apply (Hchain i).
    + intros [|i] row row' k Hk Hrow Hrow'; simpl in Hrow, Hrow'.
      * injection Hrow as <-. injection Hrow' as <-. cbn [getitem].
        now rewrite lookup_store_ne.
      * now apply (Hkeep i).
Qed.

Lemma link_rows_returns rows : ∀ before,
  is_dict before = true →
  has_key "$kuid" before = Return true →
  Forall (λ row, is_dict row = true ∧ has_key "$kuid" row = Return true)
         rows →
  ∃ rows', link_rows before rows = Return rows'.
Proof.
  induction rows as [|row rows IH]; intros before Hdict Hkuid Hrows.
  - now exists [].
  - apply Forall_cons in Hrows as [[Hrow Hrk] Hrows].
    destruct before as [| | | | |bi]; try discriminate.
    destruct row as [| | | | |ri]; try discriminate.
    cbn [has_key] in Hkuid, Hrk.
    injection Hkuid as Hkuid. apply bool_decide_eq_true_1 in Hkuid.
    destruct Hkuid as [kuid Hkuid].
    change (∃ rows',
              getitem "$kuid" (JDict bi)
              ≫= (λ kuid, setitem "$prev" kuid (JDict ri)
                    ≫= λ row1, link_rows row1 rows
                         ≫= λ rest', Return (row1 :: rest'))
              = Return rows').
    cbn [getitem]. rewrite Hkuid. cbn [mbind outcome_bind setitem].
    destruct (IH (JDict (dict_store "$prev" kuid ri))) as [rest' ->];
      [done| |done|].
    + cbn [has_key]. now rewrite lookup_store_ne.
    + simpl. eauto.
Qed.

Lemma assigned_rows_link rows rows' :
  forallb is_dict rows = true →
  Forall2 kuid_assigned rows rows' →
  Forall (λ row, is_dict row = true ∧ has_key "$kuid" row = Return true)
         rows'.
Proof.
  intros Hdicts H. induction H as [|row row' rows rows' Hrow _ IH].
  - constructor.
  - simpl in Hdicts. apply andb_true_iff in Hdicts as [Hd Hds].
    destruct Hrow as (Hk & _ & Hsame & _).
    constructor; [|now apply IH]. split; [congruence|done].
Qed.

End Linking.

(** X20.  When [_link_list_items] returns, the content is a dict with a
    [survey].  For a [survey] that is a list, the rows keep their number
    and every key other than [$prev]; the first row has [$prev] set to
    [None], and every later row has [$prev] set to the [$kuid] of the row
    before it, which therefore has one.  A survey that is not a list
    leaves the content as it was. *)
Theorem link_list_items_chains_rows content content' :
  _link_list_items content = Return content' →
  ∃ items survey,
    content = JDict items
    ∧ dict_lookup "survey" items = Some survey
    ∧ match survey with
      | JList rows =>
          ∃ rows',
            content' = JDict (dict_store "survey" (JList rows') items)
            ∧ length rows' = length rows
            ∧ (∀ first, rows' !! 0%nat = Some first →
                 getitem "$prev" first = Return JNull)
            ∧ (∀ i prev row', rows' !! i = Some prev →
                 rows' !! S i = Some row' →
                 ∃ kuid, getitem "$kuid" prev = Return kuid
                         ∧ getitem "$prev" row' = Return kuid)
            ∧ (∀ i row row' k, k ≠ "$prev" → rows !! i = Some row →
                 rows' !! i = Some row' → getitem k row' = getitem k row)
      | _ => content' = content
      end.
Proof.
  unfold _link_list_items. intros Hrun.
  destruct content as [| | | | |items]; try discriminate.
  cbn [getitem] in Hrun.
  destruct (dict_lookup "survey" items) as [survey|] eqn:Hsurvey;
    [|discriminate].
  cbn [mbind outcome_bind] in Hrun.
  exists items, survey. split; [done|]. split; [done|].
  destruct survey as [| | |s|rows|its]; try discriminate.
  - destruct s; [|discriminate]. now injection Hrun as <-.
  - destruct rows as [|first rows].
    + injection Hrun as <-. exists []. repeat split; intros; simplify_eq.
      now rewrite (store_same _ _ _ Hsurvey).
    + destruct first as [| | | | |fi]; try discriminate.
      cbn [setitem mbind outcome_bind] in Hrun.
      destruct (link_rows (JDict (dict_store "$prev" JNull fi)) rows)
        as [rest'|] eqn:Hrest; [|discriminate].
      cbn [mbind outcome_bind] in Hrun. injection Hrun as <-.
      destruct (link_rows_run _ _ _ Hrest) as (Hlen & Hchain & Hkeep).
      eexists. split; [reflexivity|]. repeat split.
      * simpl. now rewrite Hlen.
      * intros first [= <-]. cbn [getitem]. now rewrite lookup_store_eq.
      * intros i prev row' Hprev Hrow'. now apply (Hchain i).
      * intros [|i] row row' k Hk Hrow Hrow'; simpl in Hrow, Hrow'.
        -- injection Hrow as <-. injection Hrow' as <-. cbn [getitem].
           now rewrite lookup_store_ne.
        -- now apply (Hkeep i).
  - destruct its; [|discriminate]. now injection Hrun as <-.
Qed.

(** X21.  On a content whose [survey] is a list of dicts and whose
    [choices], when present, is a list of dicts, [_assign_kuids] returns
    and [_link_list_items] then returns on the content it left: no row
    is left without the [$kuid] the linking reads. *)
Theorem assign_then_link_returns random_id n items rows :
  dict_lookup "survey" items = Some (JList rows) →
  forallb is_dict rows = true →
  (∀ choices, dict_lookup "choices" items = Some choices →
     ∃ crows, choices = JList crows ∧ forallb is_dict crows = true) →
  ∃ n' content1 content2,
    _assign_kuids random_id n (JDict items) = Return (n', content1)
    ∧ _link_list_items content1 = Return content2.
Proof.
  intros Hsurvey Hrows Hchoices.
  destruct (fold_assign_returns random_id rows n Hrows)
    as (n1 & rows' & Hfold).
  assert (Hassign : ∃ n' items',
            _assign_kuids random_id n (JDict items) = Return (n', JDict items')
            ∧ dict_lookup "survey" items' = Some (JList rows')).
  { unfold _assign_kuids. cbn [getitem]. rewrite Hsurvey.
    cbn [mbind outcome_bind assign_sheet]. rewrite Hfold.
    cbn [mbind outcome_bind setitem]. rewrite lookup_store_ne by done.
    destruct (dict_lookup "choices" items) as [choices|].
    - destruct (Hchoices choices eq_refl) as (crows & -> & Hcrows).
      cbn [assign_sheet].
      destruct (fold_assign_returns random_id crows n1 Hcrows)
        as (n2 & rows2 & ->).
      cbn [mbind outcome_bind]. eexists _, _. split; [reflexivity|].
      rewrite lookup_store_ne by done. apply lookup_store_eq.
    - eexists _, _. split; [reflexivity|]. apply lookup_store_eq. }
  destruct Hassign as (n' & items' & Hassign & Hs').
  exists n', (JDict items').
  destruct (fold_assign_run _ _ _ _ _ Hfold) as [Hrows' _].
  pose proof (assigned_rows_link _ _ Hrows Hrows') as Hlink.
  enough (∃ content2, _link_list_items (JDict items') = Return content2)
    as [content2 H2] by eauto.
  unfold _link_list_items. cbn [getitem]. rewrite Hs'.
  cbn [mbind outcome_bind].
  destruct rows' as [|first rest]; [eauto|].
  apply Forall_cons in Hlink as [[Hfirst Hfk] Hrest].
  destruct first as [| | | | |fi]; try discriminate.
  cbn [setitem mbind outcome_bind].
  destruct (link_rows_returns rest (JDict (dict_store "$prev" JNull fi)))
    as [rest' ->]; [done| |done|].
  - cbn [has_key] in *. now rewrite lookup_store_ne.
  - cbn [mbind outcome_bind]. eauto.
Qed.

Section Appending.

Lemma fold_store_lookup new : ∀ cur k,
  dict_lookup k (fold_left (λ acc (kv : string * json),
                              dict_store kv.1 kv.2 acc) new cur)
  = match dict_lookup k (reverse new) with
    | Some v => Some v
    | None => dict_lookup k cur
    end.
Proof.
  induction new as [|[k0 v0] new IH] using rev_ind; intros cur k.
  - done.
  - rewrite fold_left_app, reverse_snoc. simpl.
    rewrite lookup_store, IH.
    destruct (decide (k = k0)) as [->|Hne].
    + now rewrite !bool_decide_eq_true_2.
    + rewrite (bool_decide_eq_false_2 (k = k0)) by done.
      now rewrite (bool_decide_eq_false_2 (k0 = k)) by congruence.
Qed.

Lemma append_sheet_run items sheet content' :
  append_sheet (JDict items) sheet = Return content' →
  ∃ items', content' = JDict items'
    ∧ match dict_lookup sheet.1 items with
      | None => items' = items
      | Some (JList l) => items' = dict_store sheet.1 (JList (l ++ sheet.2)) items
      | Some _ => False
      end.
Proof.
  unfold append_sheet. cbn [has_key mbind outcome_bind getitem].
  destruct (dict_lookup sheet.1 items) as [current|] eqn:Hl.
  - rewrite bool_decide_eq_true_2 by eauto. cbn [mbind outcome_bind].
    destruct current as [| | | |l|]; try discriminate.
    cbn [setitem]. intros [= <-]. eauto.
  - rewrite bool_decide_eq_false_2 by (now intros [? ?]).
    intros [= <-]. eauto.
Qed.

Lemma append_sheets_run sheets : ∀ items content',
  NoDup sheets.*1 →
  append_sheets (JDict items) sheets = Return content' →
  ∃ items', content' = JDict items'
    ∧ (∀ name rows, (name, rows) ∈ sheets →
         match dict_lookup name items with
         | None => dict_lookup name items' = None
         | Some (JList l) => dict_lookup name items' = Some (JList (l ++ rows))
         | Some _ => False
         end)
    ∧ (∀ name, name ∉ sheets.*1 →
         dict_lookup name items' = dict_lookup name items).
Proof.
  induction sheets as [|[s rows] sheets IH]; intros items content' Hnd Hrun.
  - injection Hrun as <-. exists items. split; [done|]. split; [|done].
    intros name rows Hin. now apply elem_of_nil in Hin.
  - change (append_sheet (JDict items) (s, rows)
            ≫= (λ c, append_sheets c sheets) = Return content') in Hrun.
    destruct (append_sheet (JDict items) (s, rows)) as [content1|] eqn:H1;
      [|discriminate].
    cbn [mbind outcome_bind] in Hrun.
    destruct (append_sheet_run _ _ _ H1) as (items1 & -> & Hitems1).
    simpl in Hitems1, Hnd. apply NoDup_cons in Hnd as [Hs Hnd].
    destruct (IH _ _ Hnd Hrun) as (items' & -> & Hin & Hout).
    exists items'. split; [done|].
    assert (Hother : ∀ name, name ≠ s →
              dict_lookup name items1 = dict_lookup name items).
    { intros name Hne.
      destruct (dict_lookup s items) as [[| | | |l|]|]; try done;
        subst items1; [|done].
      now apply lookup_store_ne. }
    split.
    + intros name rows' Hmem. apply elem_of_cons in Hmem as [[= -> ->]|Hmem].
      * rewrite (Hout s Hs).
        destruct (dict_lookup s items) as [[| | | |l|]|] eqn:Hl; try done;
          subst items1; [|done].
        apply lookup_store_eq.
      * assert (Hne : name ≠ s).
        { intros ->. apply Hs. apply list_elem_of_fmap.
          now exists (s, rows'). }
        specialize (Hin name rows' Hmem). now rewrite (Hother name Hne) in Hin.
    + intros name Hname. simpl in Hname.
      apply not_elem_of_cons in Hname as [Hne Hname].
      rewrite (Hout name Hname). now apply Hother.
Qed.

End Appending.

(** X22.  When [_append] returns on a content that is a dict, for sheets
    with distinct names: a sheet that the content holds is a list, and it
    has the given rows appended at its end; a sheet that the content does
    not hold is not added; non-empty settings are merged into the
    settings of the content, a given key taking its new value and the
    others keeping theirs; every other key of the content is
    unchanged. *)
Theorem append_extends_sheets items settings sheet_data content' :
  NoDup sheet_data.*1 →
  "settings" ∉ sheet_data.*1 →
  _append (JDict items) settings sheet_data = Return content' →
  ∃ items',
    content' = JDict items'
    ∧ (∀ name rows, (name, rows) ∈ sheet_data →
         match dict_lookup name items with
         | None => dict_lookup name items' = None
         | Some (JList l) => dict_lookup name items' = Some (JList (l ++ rows))
         | Some _ => False
         end)
    ∧ match settings with
      | Some (kv :: new) =>
          ∃ cur merged,
            dict_lookup "settings" items = Some (JDict cur)
            ∧ dict_lookup "settings" items' = Some (JDict merged)
            ∧ ∀ k, dict_lookup k merged
                   = match dict_lookup k (reverse (kv :: new)) with
                     | Some v => Some v
                     | None => dict_lookup k cur
                     end
      | _ => dict_lookup "settings" items' = dict_lookup "settings" items
      end
    ∧ (∀ name, name ≠ "settings" → name ∉ sheet_data.*1 →
         dict_lookup name items' = dict_lookup name items).
Proof.
  intros Hnd Hsettings Hrun. unfold _append in Hrun.
  assert (Hplain : ∀ content',
            append_sheets (JDict items) sheet_data = Return content' →
            ∃ items', content' = JDict items'
              ∧ (∀ name rows, (name, rows) ∈ sheet_data →
                   match dict_lookup name items with
                   | None => dict_lookup name items' = None
                   | Some (JList l) =>
                       dict_lookup name items' = Some (JList (l ++ rows))
                   | Some _ => False
                   end)
              ∧ dict_lookup "settings" items' = dict_lookup "settings" items
              ∧ (∀ name, name ≠ "settings" → name ∉ sheet_data.*1 →
                   dict_lookup name items' = dict_lookup name items)).
  { intros c Hc.
    destruct (append_sheets_run _ _ _ Hnd Hc) as (items' & -> & Hin & Hout).
    exists items'. repeat split; auto. }
  destruct settings as [[|kv new]|].
  - cbn [mbind outcome_bind] in Hrun.
    destruct (Hplain _ Hrun) as (items' & -> & Hin & Hset & Hout).
    now exists items'.
  - cbn [getitem] in Hrun.
    destruct (dict_lookup "settings" items) as [current|] eqn:Hcur;
      [|discriminate].
    cbn [mbind outcome_bind] in Hrun.
    destruct current as [| | | | |cur]; try discriminate.
    cbn [setitem mbind outcome_bind] in Hrun.
    destruct (append_sheets_run _ _ _ Hnd Hrun) as (items' & -> & Hin & Hout).
    exists items'. split; [done|]. split; [|split].
    + intros name rows Hmem. specialize (Hin name rows Hmem).
      assert (Hne : name ≠ "settings").
      { intros ->. apply Hsettings. apply list_elem_of_fmap.
        now exists ("settings", rows). }
      now rewrite lookup_store_ne in Hin.
    + eexists cur, _. split; [done|]. split.
      * rewrite (Hout _ Hsettings). apply lookup_store_eq.
      * intros k. apply fold_store_lookup.
    + intros name Hne Hname. rewrite (Hout _ Hname).
      now apply lookup_store_ne.
  - cbn [mbind outcome_bind] in Hrun.
    destruct (Hplain _ Hrun) as (items' & -> & Hin & Hset & Hout).
    now exists items'.
Qed.

Section AdjustedContent.

Variable _standardize _autoname _remove_empty_expressions : json → outcome json.
Variable random_id : nat → string.

Lemma pop_form_title content present title content' :
  has_key "settings" content = Return present →
  pop_setting content "form_title" (Some JNull) = Return (title, content') →
  (present = false →
   title = JNull ∧ has_key "settings" content' = Return false)
  ∧ (∀ settings, getitem "settings" content' = Return settings →
       ∃ items, settings = JDict items
                ∧ dict_lookup "form_title" items = None).
Proof.
  intros Hpresent. unfold pop_setting. rewrite Hpresent.
  cbn [mbind outcome_bind]. destruct present.
  - destruct content as [| | | | |items]; try discriminate.
    cbn [getitem].
    destruct (dict_lookup "settings" items) as [settings|] eqn:Hs;
      [|discriminate].
    cbn [mbind outcome_bind].
    destruct settings as [| | | | |si]; try discriminate.
    destruct (dict_lookup "form_title" si) as [v|] eqn:Hv.
    + cbn [setitem mbind outcome_bind]. intros [= <- <-].
      split; [done|]. intros settings. cbn [getitem].
      rewrite lookup_store_eq. intros [= <-]. eexists. split; [done|].
      rewrite lookup_remove. now rewrite bool_decide_eq_true_2.
    + intros [= <- <-]. split; [done|]. intros settings.
      cbn [getitem]. rewrite Hs. intros [= <-]. eauto.
  - intros [= <- <-]. split; [done|]. intros settings Hget.
    destruct content as [| | | | |items]; try discriminate.
    cbn [getitem has_key] in *.
    injection Hpresent as Hpresent.
    apply bool_decide_eq_false_1 in Hpresent.
    destruct (dict_lookup "settings" items); [|discriminate].
    exfalso. apply Hpresent. eauto.
Qed.

Lemma adjust_tail (n : nat) asset_type content n' title content' :
  (drop ← (if bool_decide (asset_type ≠ "survey")
           then has_key "settings" content
           else Return false);
   if (drop : bool) then
     content ← AssetContent.del_settings content;
     Return (n, JNull, content)
   else
     '(_title, content) ← pop_setting content "form_title" (Some JNull);
     Return (n, _title, content))
  = Return (n', title, content') →
  (asset_type ≠ "survey" →
   title = JNull ∧ has_key "settings" content' = Return false)
  ∧ (∀ settings, getitem "settings" content' = Return settings →
       ∃ items, settings = JDict items
                ∧ dict_lookup "form_title" items = None).
Proof.
  case_bool_decide as Htype.
  - destruct (has_key "settings" content) as [[]|] eqn:Hk; [| |discriminate].
    + cbn [mbind outcome_bind]. unfold AssetContent.del_settings.
      destruct content as [| | | | |items]; try discriminate.
      destruct (dict_lookup "settings" items); [|discriminate].
      cbn [mbind outcome_bind]. intros [= <- <- <-]. split.
      * intros _. split; [done|]. cbn [has_key]. rewrite lookup_remove.
        rewrite (bool_decide_eq_true_2 ("settings" = "settings")) by done.
        rewrite bool_decide_eq_false_2; [done|]. now intros [? ?].
      * intros settings. cbn [getitem]. rewrite lookup_remove.
        now rewrite (bool_decide_eq_true_2 ("settings" = "settings")).
    + cbn [mbind outcome_bind]. intros Hrun.
      destruct (pop_setting content "form_title" (Some JNull))
        as [[t c]|] eqn:Hp; [|discriminate].
      injection Hrun as <- <- <-.
      destruct (pop_form_title _ _ _ _ Hk Hp) as [H1 H2]. split; [|done].
      intros _. now apply H1.
  - cbn [mbind outcome_bind]. intros Hrun. split; [done|].
    destruct (pop_setting content "form_title" (Some JNull))
      as [[t c]|] eqn:Hp; [|discriminate].
    injection Hrun as <- <- <-.
    destruct (has_key "settings" content) as [present|] eqn:Hk.
    + now destruct (pop_form_title _ _ _ _ Hk Hp).
    + unfold pop_setting in Hp. rewrite Hk in Hp. discriminate.
Qed.

(** X23.  When [_adjust_content_on_save] returns, whatever the utilities
    outside the model made of the content: for an asset that is not a
    survey the content holds no [settings] and the name is left alone;
    for every asset, settings that the content still holds are a dict
    without [form_title]. *)
Theorem adjusted_content_settings n asset_type content n' title content' :
  AssetContent._adjust_content_on_save _standardize _autoname
    _remove_empty_expressions random_id n asset_type content
  = Return (n', title, content') →
  (asset_type ≠ "survey" →
   title = JNull ∧ has_key "settings" content' = Return false)
  ∧ (∀ settings, getitem "settings" content' = Return settings →
       ∃ items, settings = JDict items
                ∧ dict_lookup "form_title" items = None).
Proof.
  unfold AssetContent._adjust_content_on_save. intros Hrun.
  destruct (_standardize content) as [c0|]; [|discriminate].
  cbn [mbind outcome_bind] in Hrun.
  destruct (has_key "#null_translation" c0) as [present|]; [|discriminate].
  cbn [mbind outcome_bind] in Hrun.
  destruct (if present
            then AssetContent.pop_null_translation c0
                 ≫= λ '(new_name, content),
                      _rename_null_translation content new_name
            else Return c0) as [c1|]; [|discriminate].
  cbn [mbind outcome_bind] in Hrun.
  destruct (_strip_empty_rows c1 None) as [c2|]; [|discriminate].
  cbn [mbind outcome_bind] in Hrun.
  destruct (_assign_kuids random_id n c2) as [[n1 c3]|]; [|discriminate].
  cbn [mbind outcome_bind] in Hrun.
  destruct (_autoname c3) as [c4|]; [|discriminate].
  cbn [mbind outcome_bind] in Hrun.
  destruct (_link_list_items c4) as [c5|]; [|discriminate].
  cbn [mbind outcome_bind] in Hrun.
  destruct (_remove_empty_expressions c5) as [c6|]; [|discriminate].
  exact (adjust_tail _ _ _ _ _ _ Hrun).
Qed.

(** X24.  When the standardized content is a dict that names its null
    translation with [#null_translation] and the name is already one of
    its translations, [_adjust_content_on_save] raises [ValueError]. *)
Theorem adjust_content_rejects_duplicate_translation
    n asset_type content items new_name translations :
  _standardize content = Return (JDict items) →
  dict_lookup "#null_translation" items = Some new_name →
  dict_lookup "translations" items = Some (JList translations) →
  existsb (py_eq new_name) translations = true →
  AssetContent._adjust_content_on_save _standardize _autoname
    _remove_empty_expressions random_id n asset_type content
  = Raise ValueError.
Proof.
  intros Hstd Hname Htrans Htaken.
  unfold AssetContent._adjust_content_on_save. rewrite Hstd.
  cbn [mbind outcome_bind has_key]. rewrite Hname.
  rewrite (bool_decide_eq_true_2 (is_Some (Some new_name))) by eauto.
  cbn [AssetContent.pop_null_translation]. rewrite Hname.
  cbn [mbind outcome_bind].
  unfold _rename_null_translation. cbn [getitem].
  rewrite lookup_remove.
  rewrite (bool_decide_eq_false_2 ("translations" = "#null_translation"))
    by done.
  rewrite Htrans. cbn [mbind outcome_bind py_in]. rewrite Htaken.
  reflexivity.
Qed.

End AdjustedContent.

(** ** The cells of an exported sheet *)

Import XlsExportable.

Section Sheets.

Lemma add_keys_elem keys : ∀ cols col,
  col ∈ add_keys cols keys ↔ col ∈ cols ∨ col ∈ keys.
Proof.
  induction keys as [|key keys IH]; intros cols col; simpl.
  - rewrite elem_of_nil. tauto.
  - unfold add_keys in *. simpl. rewrite IH, elem_of_cons.
    case_bool_decide as Hin.
    + split; [tauto|]. intros [H|[->|H]]; tauto.
    + rewrite elem_of_app, list_elem_of_singleton. tauto.
Qed.

Lemma add_keys_NoDup keys : ∀ cols, NoDup cols → NoDup (add_keys cols keys).
Proof.
  induction keys as [|key keys IH]; intros cols Hnd; [done|].
  unfold add_keys in *. simpl. apply IH. case_bool_decide as Hin; [done|].
  apply NoDup_app. split; [done|]. split; [|apply NoDup_singleton].
  intros x Hx ->%list_elem_of_singleton. done.
Qed.

Lemma key_elem col items :
  col ∈ items.*1 ↔ is_Some (dict_lookup col items).
Proof.
  induction items as [|[k v] items IH]; simpl.
  - rewrite elem_of_nil. split; [done|]. now intros [? ?].
  - rewrite elem_of_cons, IH. case_bool_decide as Hk.
    + split; [eauto|]. intros _. left. congruence.
    + split; [|tauto]. intros [->|H]; [done|tauto].
Qed.

Lemma columns_run contents : ∀ cols cols',
  columns cols contents = Return cols' →
  NoDup cols →
  NoDup cols'
  ∧ Forall (λ row, is_dict row = true) contents
  ∧ ∀ col, col ∈ cols' ↔
      col ∈ cols
      ∨ ∃ items, JDict items ∈ contents ∧ is_Some (dict_lookup col items).
Proof.
  induction contents as [|row contents IH]; intros cols cols' Hrun Hnd.
  - injection Hrun as <-. split; [done|]. split; [constructor|].
    intros col. split; [tauto|]. intros [H|(items & H & _)]; [done|].
    now apply elem_of_nil in H.
  - destruct row as [| | | | |items]; try discriminate.
    simpl in Hrun.
    destruct (IH _ _ Hrun (add_keys_NoDup _ _ Hnd)) as (Hnd' & Hdicts & Hcols).
    split; [done|]. split; [now constructor|].
    intros col. rewrite Hcols, add_keys_elem, key_elem. split.
    + intros [[H|H]|(items' & Hin & Hk)]; [tauto| |].
      * right. exists items. split; [apply elem_of_cons; tauto|done].
      * right. exists items'. split; [apply elem_of_cons; tauto|done].
    + intros [H|(items' & Hin & Hk)]; [tauto|].
      apply elem_of_cons in Hin as [[= ->]|Hin]; [tauto|].
      right. eauto.
Qed.

Lemma header_elem cols : ∀ ci r c v,
  (r, c, v) ∈ header ci cols ↔
  r = 0%nat ∧ ∃ j col, c = (ci + j)%nat ∧ cols !! j = Some col ∧ v = JStr col.
Proof.
  induction cols as [|col cols IH]; intros ci r c v; simpl.
  - rewrite elem_of_nil. split; [done|]. now intros (_ & j & ? & _ & ? & _).
  - rewrite elem_of_cons, IH. split.
    + intros [[= -> -> ->]|(-> & j & col' & -> & Hj & ->)].
      * split; [done|]. exists 0%nat, col. split; [lia|done].
      * split; [done|]. exists (S j), col'. split; [lia|done].
    + intros (-> & [|j] & col' & -> & Hj & ->); simpl in Hj.
      * left. injection Hj as <-. do 2 f_equal. lia.
      * right. split; [done|]. exists j, col'. split; [lia|done].
Qed.

Lemma row_cells_elem items cols : ∀ ri ci r c v,
  (r, c, v) ∈ row_cells ri ci items cols ↔
  r = S ri
  ∧ ∃ j col, c = (ci + j)%nat ∧ cols !! j = Some col
             ∧ v = default JNull (dict_lookup col items)
             ∧ truthy v = true.
Proof.
  induction cols as [|col cols IH]; intros ri ci r c v; simpl.
  - rewrite elem_of_nil. split; [done|]. now intros (_ & j & ? & _ & ? & _).
  - rewrite elem_of_app, IH. split.
    + intros [Hhead|(-> & j & col' & -> & Hj & -> & Ht)].
      * destruct (truthy (default JNull (dict_lookup col items))) eqn:Ht;
          [|now apply elem_of_nil in Hhead].
        apply list_elem_of_singleton in Hhead. injection Hhead as -> -> ->.
        split; [done|]. exists 0%nat, col. split; [lia|done].
      * split; [done|]. exists (S j), col'. split; [lia|done].
    + intros (-> & [|j] & col' & -> & Hj & -> & Ht); simpl in Hj.
      * left. injection Hj as <-. rewrite Ht.
        apply list_elem_of_singleton. do 2 f_equal. lia.
      * right. split; [done|]. exists j, col'. split; [lia|done].
Qed.

Lemma rows_cells_elem cols contents : ∀ ri cells r c v,
  rows_cells ri cols contents = Return cells →
  (r, c, v) ∈ cells ↔
  ∃ i items col,
    r = S (ri + i) ∧ contents !! i = Some (JDict items)
    ∧ cols !! c = Some col
    ∧ v = default JNull (dict_lookup col items)
    ∧ truthy v = true.
Proof.
  induction contents as [|row contents IH]; intros ri cells r c v Hrun.
  - injection Hrun as <-. rewrite elem_of_nil. split; [done|].
    now intros (i & ? & ? & _ & ? & _).
  - destruct row as [| | | | |items]; try discriminate.
    simpl in Hrun.
    destruct (rows_cells (S ri) cols contents) as [rest|] eqn:Hrest;
      [|discriminate].
    injection Hrun as <-.
    rewrite elem_of_app, row_cells_elem, (IH _ _ r c v Hrest). split.
    + intros [(-> & j & col & -> & Hj & -> & Ht)
             |(i & items' & col & -> & Hi & Hc & -> & Ht)].
      * exists 0%nat, items, col. repeat split; try done; try lia.
      * exists (S i), items', col. repeat split; try done; try lia.
    + intros ([|i] & items' & col & -> & Hi & Hc & -> & Ht); simpl in Hi.
      * left. injection Hi as <-. split; [lia|].
        exists c, col. repeat split; done.
      * right. exists i, items', col. repeat split; try done; try lia.
Qed.

Lemma header_positions cols : ∀ ci, NoDup (position <$> header ci cols).
Proof.
  induction cols as [|col cols IH]; intros ci; simpl; [constructor|].
  constructor; [|apply IH].
  intros Hin. apply list_elem_of_fmap in Hin as ([[r c] v] & Heq & Hin).
  unfold position in Heq. simpl in Heq. injection Heq as <- <-.
  apply header_elem in Hin as (_ & j & col' & Hc & _). lia.
Qed.

Lemma row_cells_positions items cols : ∀ ri ci,
  NoDup (position <$> row_cells ri ci items cols).
Proof.
  induction cols as [|col cols IH]; intros ri ci; simpl; [constructor|].
  rewrite fmap_app. apply NoDup_app. split; [|split; [|apply IH]].
  - destruct (truthy _); [apply NoDup_singleton|constructor].
  - intros p Hp Hin.
    destruct (truthy _); [|now apply elem_of_nil in Hp].
    apply list_elem_of_singleton in Hp as ->.
    apply list_elem_of_fmap in Hin as ([[r c] v] & Heq & Hin).
    unfold position in Heq. simpl in Heq. injection Heq as <- <-.
    apply row_cells_elem in Hin as (_ & j & col' & Hc & _). lia.
Qed.

Lemma rows_cells_positions cols contents : ∀ ri cells,
  rows_cells ri cols contents = Return cells → NoDup (position <$> cells).
Proof.
  induction contents as [|row contents IH]; intros ri cells Hrun.
  - injection Hrun as <-. constructor.
  - destruct row as [| | | | |items]; try discriminate.
    simpl in Hrun.
    destruct (rows_cells (S ri) cols contents) as [rest|] eqn:Hrest;
      [|discriminate].
    injection Hrun as <-. rewrite fmap_app. apply NoDup_app.
    split; [apply row_cells_positions|]. split; [|now apply (IH (S ri))].
    intros p Hp Hin.
    apply list_elem_of_fmap in Hp as ([[r c] v] & -> & Hp).
    apply list_elem_of_fmap in Hin as ([[r' c'] v'] & Heq & Hin).
    unfold position in Heq. simpl in Heq. injection Heq as -> ->.
    apply row_cells_elem in Hp as (Hr & _).
    apply (rows_cells_elem _ _ _ _ _ _ _ Hrest) in Hin
      as (i & ? & ? & Hr' & _). lia.
Qed.

End Sheets.

(** X25.  When [_add_contents_to_sheet] returns, every row of the
    contents is a dict and no cell of the sheet is written twice.  The
    columns are the keys of the rows, each once; column [c] has its name
    written in row 0; and cell [(r + 1, c)] is written exactly when row
    [r] holds a value that counts as true for column [c], with that
    value. *)
Theorem add_contents_writes_each_cell_once contents cols cells :
  _add_contents_to_sheet contents = Return (cols, cells) →
  Forall (λ row, is_dict row = true) contents
  ∧ NoDup cols
  ∧ (∀ col, col ∈ cols ↔
       ∃ items, JDict items ∈ contents ∧ is_Some (dict_lookup col items))
  ∧ NoDup (position <$> cells)
  ∧ (∀ c v, (0%nat, c, v) ∈ cells ↔ ∃ col, cols !! c = Some col ∧ v = JStr col)
  ∧ (∀ r c v, (S r, c, v) ∈ cells ↔
       ∃ items col,
         contents !! r = Some (JDict items) ∧ cols !! c = Some col
         ∧ v = default JNull (dict_lookup col items)
         ∧ truthy v = true).
Proof.
  unfold _add_contents_to_sheet. intros Hrun.
  destruct (columns [] contents) as [cols0|] eqn:Hcols; [|discriminate].
  cbn [mbind outcome_bind] in Hrun.
  destruct (rows_cells 0 cols0 contents) as [rest|] eqn:Hrest; [|discriminate].
  injection Hrun as <- <-.
  destruct (columns_run _ _ _ Hcols (NoDup_nil_2 (A:=string))) as (Hnd & Hdicts & Helem).
  split; [done|]. split; [done|]. split; [|split; [|split]].
  - intros col. rewrite Helem. rewrite elem_of_nil. tauto.
  - rewrite fmap_app. apply NoDup_app. split; [apply header_positions|].
    split; [|now apply (rows_cells_positions _ _ _ _ Hrest)].
    intros p Hp Hin.
    apply list_elem_of_fmap in Hp as ([[r c] v] & -> & Hp).
    apply list_elem_of_fmap in Hin as ([[r' c'] v'] & Heq & Hin).
    unfold position in Heq. simpl in Heq. injection Heq as -> ->.
    apply header_elem in Hp as (Hr & _).
    apply (rows_cells_elem _ _ _ _ _ _ _ Hrest) in Hin
      as (i & ? & ? & Hr' & _). lia.
  - intros c v. rewrite elem_of_app, header_elem.
    rewrite (rows_cells_elem _ _ _ _ _ _ _ Hrest). split.
    + intros [(_ & j & col & -> & Hj & ->)|(i & ? & ? & Hr & _)]; [|lia].
      now exists col.
    + intros (col & Hc & ->). left. split; [done|]. now exists c, col.
  - intros r c v. rewrite elem_of_app, header_elem.
    rewrite (rows_cells_elem _ _ _ _ _ _ _ Hrest). split.
    + intros [(Hr & _)|(i & items & col & Hr & Hi & Hc & Hv & Ht)]; [lia|].
      assert (i = r) as -> by lia. now exists items, col.
    + intros (items & col & Hr & Hc & Hv & Ht). right.
      now exists r, items, col.
Qed.

(** ** The further theorems at work on the scenarios *)

(** X2 on the scenario: the grant of user 3 on A is removed. *)
Lemma remove_perm_deletes_named_rows_witness :
  ∃ w',
    remove_perm Scenario.perm_parse Scenario.A 3 "view_collection" false
      (reliable Scenario.shared_db) = (Return tt, w')
    ∧ ∀ r, (r ∈ kpi_objectpermission (db w') ∧ inherited r = false)
           ↔ (r ∈ kpi_objectpermission Scenario.shared_db
              ∧ inherited r = false
              ∧ ¬ (object_ct r = collection_ct ∧ object_id r = 1
                   ∧ user_id r = 3 ∧ ORM.deny r = false
                   ∧ ∃ p, p ∈ auth_permission Scenario.shared_db
                          ∧ perm_pk p = permission_id r
                          ∧ codename p = "view_collection")).
Proof.
  eexists.
  match goal with
  | |- ?run = ?res ∧ _ =>
      assert (Hrun : run = res) by (vm_compute; reflexivity)
  end.
  split; [exact Hrun|].
  exact (remove_perm_deletes_named_rows Scenario.perm_parse Scenario.A 3
           "view_collection" false Scenario.shared_db _ _ _ eq_refl Hrun).
Defined.

(** X3 on the scenario: user 3, who holds nothing on A, is granted
    [view_collection] on A and loses it again. *)
Lemma assign_then_remove_restores_explicit_rows_witness :
  ∃ w',
    (assign_perm Scenario.perm_parse Scenario.A 3 "view_collection" false;;
     remove_perm Scenario.perm_parse Scenario.A 3 "view_collection" false)
      (reliable Scenario.tree_db) = (Return tt, w')
    ∧ List.filter (λ r, negb (inherited r)) (kpi_objectpermission (db w'))
      = List.filter (λ r, negb (inherited r))
          (kpi_objectpermission Scenario.tree_db).
Proof.
  eexists.
  match goal with
  | |- ?run = ?res ∧ _ =>
      assert (Hrun : run = res) by (vm_compute; reflexivity)
  end.
  split; [exact Hrun|].
  refine (assign_then_remove_restores_explicit_rows Scenario.perm_parse
            Scenario.A 3 "view_collection" false Scenario.tree_db _ _ _
            eq_refl _ Hrun).
  vm_compute; reflexivity.
Defined.

(** X4 on the scenario: after the grant of user 3 on A is removed, B is
    settled. *)
Lemma cascade_settles_descendants_witness :
  parent_first (descendants_of Scenario.shared_db Scenario.A)
  ∧ ∃ w',
      remove_perm Scenario.perm_parse Scenario.A 3 "view_collection" false
        (reliable Scenario.shared_db) = (Return tt, w')
      ∧ ∀ c, c ∈ descendants_of Scenario.shared_db Scenario.A → settled w' c.
Proof.
  assert (Hpf : parent_first (descendants_of Scenario.shared_db Scenario.A)).
  { apply (bool_decide_unpack _). vm_compute. exact I. }
  split; [exact Hpf|].
  eexists.
  match goal with
  | |- ?run = ?res ∧ _ =>
      assert (Hrun : run = res) by (vm_compute; reflexivity)
  end.
  split; [exact Hrun|].
  exact (proj1 (cascade_settles_descendants Scenario.perm_parse Scenario.A 3
                  "view_collection" false Scenario.shared_db Hpf) _ Hrun).
Defined.

(** X6 on the scenario: [has_perm] of user 3 on B looks [view_collection]
    up in the effective permissions of B. *)
Lemma has_perm_reads_effective_perms_witness :
  ∃ perms,
    _effective_perms 2 [] (reliable Scenario.shared_db)
    = (Return perms, reliable Scenario.shared_db)
    ∧ has_perm Scenario.perm_parse Scenario.B 3 "view_collection"
        (reliable Scenario.shared_db)
      = (Return (bool_decide ((3, 4) ∈ perms)), reliable Scenario.shared_db).
Proof.
  refine (proj1 (has_perm_reads_effective_perms Scenario.perm_parse
                   Scenario.B 3 "view_collection" _ _
                   (reliable Scenario.shared_db) eq_refl _)
            (Scenario.collection_perm 4 "view_collection") _ eq_refl).
  - exact scenario_names_apart.
  - apply list_elem_of_In. simpl. tauto.
Defined.

(** X7 on the scenario: user 3 is granted [view_collection] on A, and
    holds it on B. *)
Lemma grant_on_parent_reaches_child_witness :
  ∃ w',
    assign_perm Scenario.perm_parse Scenario.A 3 "view_collection" false
      (reliable Scenario.tree_db) = (Return tt, w')
    ∧ has_perm Scenario.perm_parse Scenario.B 3 "view_collection" w'
      = (Return true, w').
Proof.
  eexists.
  match goal with
  | |- ?run = ?res ∧ _ =>
      assert (Hrun : run = res) by (vm_compute; reflexivity)
  end.
  split; [exact Hrun|].
  refine (grant_on_parent_reaches_child Scenario.perm_parse Scenario.A
            Scenario.B 3 "view_collection" Scenario.tree_db _
            scenario_names_apart _ _ _ eq_refl _ _ _ Hrun).
  - apply (bool_decide_unpack _). vm_compute. exact I.
  - repeat constructor; simpl; lia.
  - apply list_elem_of_In. vm_compute. left. reflexivity.
  - repeat constructor; simpl; intros; (congruence || lia).
  - repeat constructor; simpl; intros; (congruence || lia).
  - repeat constructor; simpl; intros; (congruence || lia).
Defined.

(** X8 on the scenario: the grant of user 3 on A is removed, and user 3
    no longer holds [view_collection] on B. *)
Lemma removal_on_parent_reaches_child_witness :
  ∃ w',
    remove_perm Scenario.perm_parse Scenario.A 3 "view_collection" false
      (reliable Scenario.shared_db) = (Return tt, w')
    ∧ has_perm Scenario.perm_parse Scenario.B 3 "view_collection" w'
      = (Return false, w').
Proof.
  eexists.
  match goal with
  | |- ?run = ?res ∧ _ =>
      assert (Hrun : run = res) by (vm_compute; reflexivity)
  end.
  split; [exact Hrun|].
  refine (removal_on_parent_reaches_child Scenario.perm_parse Scenario.A
            Scenario.B 3 "view_collection" Scenario.shared_db _
            scenario_names_apart _ _ _ eq_refl _ _ _ Hrun).
  - apply (bool_decide_unpack _). vm_compute. exact I.
  - repeat constructor; simpl; lia.
  - apply list_elem_of_In. vm_compute. left. reflexivity.
  - simpl. lia.
  - repeat constructor; simpl; intros; (congruence || lia).
  - repeat constructor; simpl; intros; (congruence || lia).
Defined.

(** X9 on the scenario: user 3 is granted [view_collection] on A, and
    holds it on A. *)
Lemma granted_permission_is_held_witness :
  ∃ w',
    assign_perm Scenario.perm_parse Scenario.A 3 "view_collection" false
      (reliable Scenario.tree_db) = (Return tt, w')
    ∧ has_perm Scenario.perm_parse Scenario.A 3 "view_collection" w'
      = (Return true, w').
Proof.
  eexists.
  match goal with
  | |- ?run = ?res ∧ _ =>
      assert (Hrun : run = res) by (vm_compute; reflexivity)
  end.
  split; [exact Hrun|].
  refine (granted_permission_is_held Scenario.perm_parse Scenario.A 3
            "view_collection" Scenario.tree_db _ scenario_names_apart _ _
            Hrun).
  - apply (bool_decide_unpack _). vm_compute. exact I.
  - repeat constructor; simpl; intros; (congruence || lia).
Defined.

(** X11 on a scenario: the content tools refuse the content of the
    question, and the save leaves the empty tables as they were. *)
Lemma failed_asset_save_writes_nothing_witness :
  ∃ w',
    save (λ _ _ _, Raise ValueError) (AssetScenario.analyze 3)
      AssetScenario.styles true true AssetScenario.question
      (reliable Scenario.empty_db)
    = (Raise ValueError, w')
    ∧ w' = reliable Scenario.empty_db.
Proof.
  eexists.
  match goal with
  | |- ?run = ?res ∧ _ =>
      assert (Hrun : run = res) by (vm_compute; reflexivity)
  end.
  split; [exact Hrun|].
  exact (failed_asset_save_writes_nothing _ _ _ _ _ _ _ _ _ Hrun).
Defined.

(** X16 on the scenario: the null translation of the form is named
    French, and cannot be named French again. *)
Lemma rename_null_translation_replaces_first_none_witness :
  ∃ content',
    _rename_null_translation ContentScenario.form (JStr "French")
    = Return content'
    ∧ _rename_null_translation content' (JStr "French") = Raise ValueError.
Proof.
  eexists.
  match goal with
  | |- ?run = ?res ∧ _ =>
      assert (Hrun : run = res) by (vm_compute; reflexivity)
  end.
  split; [exact Hrun|].
  destruct (rename_null_translation_replaces_first_none _ _ _ Hrun)
    as (items & l & i & _ & _ & _ & _ & _ & _ & _ & Hsecond).
  apply Hsecond. reflexivity.
Defined.

(** X17 on the scenario: the row of the form without a type is dropped
    from the survey. *)
Lemma strip_empty_rows_keeps_rows_with_key_witness :
  ∃ content',
    _strip_empty_rows ContentScenario.form None = Return content'
    ∧ ∃ items items',
        ContentScenario.form = JDict items ∧ content' = JDict items'
        ∧ stripped "survey" "type" items items'
        ∧ stripped "choices" "list_name" items items'
        ∧ (∀ k, k ≠ "survey" → k ≠ "choices" →
             dict_lookup k items' = dict_lookup k items).
Proof.
  eexists.
  match goal with
  | |- ?run = ?res ∧ _ =>
      assert (Hrun : run = res) by (vm_compute; reflexivity)
  end.
  split; [exact Hrun|].
  exact (strip_empty_rows_keeps_rows_with_key _ _ Hrun).
Defined.

(** X18 on the scenario: the stripped form is stripped again. *)
Lemma strip_empty_rows_idempotent_witness :
  ∃ content',
    _strip_empty_rows ContentScenario.form None = Return content'
    ∧ _strip_empty_rows content' None = Return content'.
Proof.
  eexists.
  match goal with
  | |- ?run = ?res ∧ _ =>
      assert (Hrun : run = res) by (vm_compute; reflexivity)
  end.
  split; [exact Hrun|].
  exact (strip_empty_rows_idempotent _ _ _ Hrun).
Defined.

(** X19 on the scenario: the two rows of the form without [$kuid] get
    the first two draws. *)
Lemma assign_kuids_gives_every_row_a_kuid_witness :
  ∃ content',
    _assign_kuids ContentScenario.random_id 0 ContentScenario.form
    = Return (2%nat, content')
    ∧ ∃ items items' survey survey',
        ContentScenario.form = JDict items ∧ content' = JDict items'
        ∧ dict_lookup "survey" items = Some survey
        ∧ dict_lookup "survey" items' = Some survey'
        ∧ sheet_assigned survey survey'.
Proof.
  eexists.
  match goal with
  | |- ?run = ?res ∧ _ =>
      assert (Hrun : run = res) by (vm_compute; reflexivity)
  end.
  split; [exact Hrun|].
  destruct (assign_kuids_gives_every_row_a_kuid _ _ _ _ _ Hrun)
    as (items & items' & survey & survey' & H1 & H2 & _ & H3 & H4 & H5 & _).
  exists items, items', survey, survey'. repeat split; assumption.
Defined.

(** X20 on the scenario: the rows of the form, once they have their
    [$kuid], are linked. *)
Lemma link_list_items_chains_rows_witness :
  ∃ n' content1 content',
    _assign_kuids ContentScenario.random_id 0 ContentScenario.form
    = Return (n', content1)
    ∧ _link_list_items content1 = Return content'
    ∧ ∃ items survey,
        content1 = JDict items ∧ dict_lookup "survey" items = Some survey.
Proof.
  eexists _, _, _.
  split; [vm_compute; reflexivity|].
  match goal with
  | |- ?run = ?res ∧ _ =>
      assert (Hrun : run = res) by (vm_compute; reflexivity)
  end.
  split; [exact Hrun|].
  destruct (link_list_items_chains_rows _ _ Hrun)
    as (items & survey & H1 & H2 & _).
  exists items, survey. split; assumption.
Defined.

(** X21 on the scenario: the form, whose rows are dicts, passes both
    steps. *)
Lemma assign_then_link_returns_witness :
  ∃ n' content1 content2,
    _assign_kuids ContentScenario.random_id 0 ContentScenario.form
    = Return (n', content1)
    ∧ _link_list_items content1 = Return content2.
Proof.
  refine (assign_then_link_returns ContentScenario.random_id 0
            ContentScenario.form_items ContentScenario.form_survey
            eq_refl _ _).
  - vm_compute; reflexivity.
  - intros choices Hchoices. vm_compute in Hchoices.
    injection Hchoices as <-. exists []. split; reflexivity.
Defined.

(** X22 on the scenario: a row and a version are appended to the
    form. *)
Lemma append_extends_sheets_witness :
  ∃ content',
    _append ContentScenario.form (Some [("version", JStr "v1")])
      [("survey", [JDict [("type", JStr "calculate")]])]
    = Return content'
    ∧ ∃ items',
        content' = JDict items'
        ∧ dict_lookup "survey" items'
          = Some (JList (ContentScenario.form_survey
                         ++ [JDict [("type", JStr "calculate")]])).
Proof.
  eexists.
  match goal with
  | |- ?run = ?res ∧ _ =>
      assert (Hrun : run = res) by (vm_compute; reflexivity)
  end.
  split; [exact Hrun|].
  assert (Hnd : NoDup [("survey", [JDict [("type", JStr "calculate")]])].*1)
    by (simpl; apply NoDup_singleton).
  assert (Hs : "settings"
               ∉ [("survey", [JDict [("type", JStr "calculate")]])].*1).
  { simpl. intros H%list_elem_of_singleton. discriminate. }
  destruct (append_extends_sheets ContentScenario.form_items _ _ _
              Hnd Hs Hrun)
    as (items' & Heq & Hin & _).
  exists items'. split; [exact Heq|].
  exact (Hin "survey" _ (proj2 (list_elem_of_singleton _ _) eq_refl)).
Defined.

(** X23 on the scenario: the form is adjusted as the content of a block,
    and is left without settings. *)
Lemma adjusted_content_settings_witness :
  ∃ n' title content',
    AssetContent._adjust_content_on_save ContentScenario.keep
      ContentScenario.keep ContentScenario.keep ContentScenario.random_id
      0 "block" ContentScenario.form
    = Return (n', title, content')
    ∧ title = JNull ∧ has_key "settings" content' = Return false.
Proof.
  eexists _, _, _.
  match goal with
  | |- ?run = ?res ∧ _ =>
      assert (Hrun : run = res) by (vm_compute; reflexivity)
  end.
  split; [exact Hrun|].
  refine (proj1 (adjusted_content_settings _ _ _ _ _ _ _ _ _ _ Hrun) _).
  discriminate.
Defined.

(** X24 on the scenario: the form asks to name its null translation
    English, which is taken. *)
Lemma adjust_content_rejects_duplicate_translation_witness :
  AssetContent._adjust_content_on_save ContentScenario.keep
    ContentScenario.keep ContentScenario.keep ContentScenario.random_id
    0 "survey" (JDict ContentScenario.duplicate_items)
  = Raise ValueError.
Proof.
  refine (adjust_content_rejects_duplicate_translation ContentScenario.keep
            ContentScenario.keep ContentScenario.keep
            ContentScenario.random_id 0 "survey"
            (JDict ContentScenario.duplicate_items)
            ContentScenario.duplicate_items (JStr "English")
            [JStr "English"; JNull] eq_refl eq_refl eq_refl eq_refl).
Defined.

(** X25 on the scenario: the two rows of the sheet give three columns;
    the empty label is not written. *)
Lemma add_contents_writes_each_cell_once_witness :
  ∃ cells,
    _add_contents_to_sheet ContentScenario.sheet_rows
    = Return (["type"; "name"; "label"], cells)
    ∧ NoDup (position <$> cells).
Proof.
  eexists.
  match goal with
  | |- ?run = ?res ∧ _ =>
      assert (Hrun : run = res) by (vm_compute; reflexivity)
  end.
  split; [exact Hrun|].
  exact (proj1 (proj2 (proj2 (proj2
           (add_contents_writes_each_cell_once _ _ _ Hrun))))).
Defined.
